(** * PUTrace: the routes of [server.js] over the tables of [db/schema.sql]

    A shallow embedding of the route handlers of [server.js]: the routes
    that write the [items], [finder_reports] and [found_posts] tables,
    the account routes that write [users] and the session, and the
    listings ([GET /dashboard], [GET /lost], [GET /found-items],
    [GET /account], [GET /download/:token]), together with the helper
    functions they call ([sanitize], [isValidEmail], [generateToken],
    [safeFileName], [uploadImage], [requireAuth]).  The repository also
    carries an earlier [server.js] whose token generator is
    [cryptoRandomToken]; it is embedded in [Module Legacy].

    JavaScript strings are sequences of UTF-16 code units, so they are
    modelled as lists of code units; [String.length] is [length]. *)

From Stdlib Require Import List NArith ZArith Bool String Ascii Lia Permutation.
From Stdlib Require Import Strings.Byte.
Import ListNotations.

Set Implicit Arguments.

(** [length] is the length of a list throughout, not of a [string]. *)
Abbreviation length := Datatypes.length.

(** ** JavaScript values used by the handlers *)

Module JS.

Definition char16 := N.
Definition jsstring := list char16.

(** A source literal, character by character. *)
Definition lit (s : string) : jsstring :=
  map N_of_ascii (list_ascii_of_string s).

Fixpoint eqb (a b : jsstring) : bool :=
  match a, b with
  | [], [] => true
  | x :: a', y :: b' => N.eqb x y && eqb a' b'
  | _, _ => false
  end.

(** [WhiteSpace] and [LineTerminator] of ECMAScript: what [trim] strips
    and what the regular-expression class [\s] matches. *)
Definition is_space (c : char16) : bool :=
  existsb (N.eqb c)
    [9; 10; 11; 12; 13; 32; 160; 5760; 8232; 8233; 8239; 8287; 12288; 65279]%N
  || (N.leb 8192 c && N.leb c 8202).

Fixpoint trimStart (s : jsstring) : jsstring :=
  match s with
  | c :: s' => if is_space c then trimStart s' else s
  | [] => []
  end.

Definition trimEnd (s : jsstring) : jsstring := rev (trimStart (rev s)).

(** [String.prototype.trim] *)
Definition trim (s : jsstring) : jsstring := trimEnd (trimStart s).

(** A property of [req.body]: missing, a string, or (the body parser
    builds these from repeated or bracketed keys) an array or object. *)
Inductive value :=
| undefined
| str (s : jsstring)
| structured.

(** ToBoolean on strings and on body values. *)
Definition truthy_str (s : jsstring) : bool :=
  match s with [] => false | _ => true end.

Definition truthy (v : value) : bool :=
  match v with
  | undefined => false
  | str s => truthy_str s
  | structured => true
  end.

(** [v || d] with a string default. *)
Definition or_else (v : value) (d : jsstring) : value :=
  if truthy v then v else str d.

(** [s || null] on a string. *)
Definition or_null (s : jsstring) : option jsstring :=
  if truthy_str s then Some s else None.

(** [arr.includes(v)] on an array of strings: strict equality, so a
    value that is not a string is never included. *)
Definition includes (arr : list jsstring) (v : value) : bool :=
  match v with
  | str s => existsb (eqb s) arr
  | _ => false
  end.

(** Evaluation that may throw (a [TypeError] here); the handlers catch
    it at their [try] block. *)
Inductive exec (A : Type) :=
| Ok (a : A)
| Throw.
Arguments Throw {A}.

Definition bind {A B} (m : exec A) (k : A -> exec B) : exec B :=
  match m with
  | Ok a => k a
  | Throw => Throw
  end.

(** [try { body } catch (err) { handler }] *)
Definition try_catch {A} (body : exec A) (handler : A) : A :=
  match body with
  | Ok a => a
  | Throw => handler
  end.

(** [v.trim()]: defined on strings only. *)
Definition call_trim (v : value) : exec jsstring :=
  match v with
  | str s => Ok (trim s)
  | _ => Throw
  end.

End JS.

Import JS.

Notation "x <- m ;; k" := (JS.bind m (fun x => k))
  (at level 61, m at next level, right associativity).

Declare Scope js_scope.
Delimit Scope js_scope with js.
Notation "a +++ b" := (@app char16 a b) (at level 60, right associativity) : js_scope.
Local Open Scope js_scope.

(** ** Regular expressions over code units

    The one pattern of the program, [/^[^\s@]+@[^\s@]+\.[^\s@]+$/], uses
    character classes, concatenation and [+], anchored at both ends.  For
    such patterns [RegExp.prototype.test] answers whether the whole string
    is in the language, which the derivative matcher below decides. *)

Module Regex.

Inductive re :=
| Void
| Eps
| Class (p : char16 -> bool)
| Cat (r1 r2 : re)
| Alt (r1 r2 : re)
| Star (r : re).

Definition Plus (r : re) : re := Cat r (Star r).

Fixpoint nullable (r : re) : bool :=
  match r with
  | Void => false
  | Eps => true
  | Class _ => false
  | Cat r1 r2 => nullable r1 && nullable r2
  | Alt r1 r2 => nullable r1 || nullable r2
  | Star _ => true
  end.

Fixpoint deriv (c : char16) (r : re) : re :=
  match r with
  | Void => Void
  | Eps => Void
  | Class p => if p c then Eps else Void
  | Cat r1 r2 =>
      if nullable r1
      then Alt (Cat (deriv c r1) r2) (deriv c r2)
      else Cat (deriv c r1) r2
  | Alt r1 r2 => Alt (deriv c r1) (deriv c r2)
  | Star r1 => Cat (deriv c r1) (Star r1)
  end.

Fixpoint test (r : re) (s : jsstring) : bool :=
  match s with
  | [] => nullable r
  | c :: s' => test (deriv c r) s'
  end.

(** The language of a pattern. *)
Inductive matches : re -> jsstring -> Prop :=
| m_eps : matches Eps []
| m_class p c : p c = true -> matches (Class p) [c]
| m_cat r1 r2 s1 s2 :
    matches r1 s1 -> matches r2 s2 -> matches (Cat r1 r2) (s1 ++ s2)
| m_alt_l r1 r2 s : matches r1 s -> matches (Alt r1 r2) s
| m_alt_r r1 r2 s : matches r2 s -> matches (Alt r1 r2) s
| m_star_nil r : matches (Star r) []
| m_star_cons r s1 s2 :
    matches r s1 -> matches (Star r) s2 -> matches (Star r) (s1 ++ s2).

End Regex.

(** ** Helper functions of [server.js] *)

Definition CATEGORIES : list jsstring :=
  [lit "Electronics"; lit "ID / Cards"; lit "Clothing"; lit "Bags";
   lit "Bottles"; lit "Books"; lit "Accessories"; lit "Keys"; lit "Other"].

(** [sanitize(str)]: the empty string when [str] is falsy, then [trim]. *)
Definition sanitize (v : value) : exec jsstring :=
  call_trim (or_else v []).

Definition at_sign : char16 := 64%N.
Definition full_stop : char16 := 46%N.

(** The class [[^\s@]]. *)
Definition not_space_at (c : char16) : bool :=
  negb (is_space c || N.eqb c at_sign).

Definition email_pattern : Regex.re :=
  Regex.Cat (Regex.Plus (Regex.Class not_space_at))
    (Regex.Cat (Regex.Class (N.eqb at_sign))
       (Regex.Cat (Regex.Plus (Regex.Class not_space_at))
          (Regex.Cat (Regex.Class (N.eqb full_stop))
             (Regex.Plus (Regex.Class not_space_at))))).

(** [function isValidEmail(email) { return /^[^\s@]+@[^\s@]+\.[^\s@]+$/.test(email); }] *)
Definition isValidEmail (email : jsstring) : bool :=
  Regex.test email_pattern email.

(** The digit characters [0-9a-z] of [toString(radix)] and of the
    hexadecimal encoding. *)
Definition digit (n : N) : char16 :=
  if (n <? 10)%N then (48 + n)%N else (87 + n)%N.

(** [buffer.toString("hex")]: two lower-case hexadecimal digits per byte,
    high nibble first. *)
Definition hex_of_byte (b : byte) : jsstring :=
  let n := Byte.to_N b in [digit (n / 16)%N; digit (n mod 16)%N].

Definition toString_hex (bytes : list byte) : jsstring :=
  flat_map hex_of_byte bytes.

(** [function generateToken() { return crypto.randomBytes(16).toString("hex"); }]
    The argument is what [crypto.randomBytes(16)] returned at this call. *)
Definition generateToken (randomBytes16 : list byte) : jsstring :=
  toString_hex randomBytes16.

(** The characters of a token: [0-9] and [a-f]. *)
Definition hex_char (c : char16) : bool :=
  (N.leb 48 c && N.leb c 57) || (N.leb 97 c && N.leb c 102).

(** The class [[a-z0-9-_]] under the flag [i] (no flag [u]): the ASCII
    letters of both cases, the digits, [-] and [_].  A code unit above
    127 whose upper case is an ASCII letter is not folded onto it. *)
Definition file_name_char (c : char16) : bool :=
  (N.leb 97 c && N.leb c 122) || (N.leb 65 c && N.leb c 90)
  || (N.leb 48 c && N.leb c 57) || N.eqb c 45 || N.eqb c 95.

(** [s.replace(/[^a-z0-9-_]/gi, "-")] *)
Definition replace_unsafe (s : jsstring) : jsstring :=
  map (fun c => if file_name_char c then c else 45%N) s.

(** [toLowerCase] on a code unit below 128, which is all that
    [replace_unsafe] leaves. *)
Definition lower_ascii (c : char16) : char16 :=
  if N.leb 65 c && N.leb c 90 then (c + 32)%N else c.

(** [function safeFileName(value) {
       return (value || "item").replace(/[^a-z0-9-_]/gi, "-").toLowerCase(); }] *)
Definition safeFileName (value : jsstring) : jsstring :=
  map lower_ascii
    (replace_unsafe (if truthy_str value then value else lit "item")).

(** [s.split(sep)] with a separator of one code unit: the pieces between
    the separators, at least one. *)
Fixpoint split (sep : char16) (s : jsstring) : list jsstring :=
  match s with
  | [] => [[]]
  | c :: s' =>
      if N.eqb c sep then [] :: split sep s'
      else match split sep s' with
           | piece :: rest => (c :: piece) :: rest
           | [] => [[c]]
           end
  end.

Definition comma : char16 := 44%N.

(** ** The store: the tables of [db/schema.sql]

    Columns of type [uuid] hold their canonical text, columns of type
    [bigserial] an integer, nullable columns an [option].  [created_at] is
    filled by the store and read by none of the handlers below except to
    order listings; it is left out. *)

Definition uuid := jsstring.

Module User.
Record t := {
  id : uuid;
  full_name : jsstring;
  email : jsstring;
  password_hash : jsstring
}.
End User.

Module Item.
Record t := {
  id : uuid;
  user_id : uuid;
  item_name : jsstring;
  item_description : option jsstring;
  category : option jsstring;
  item_status : jsstring;
  image_url : option jsstring;
  token : jsstring;
  qr_data_url : jsstring
}.

Definition set_item_status (v : jsstring) (r : t) : t :=
  {| id := id r; user_id := user_id r; item_name := item_name r;
     item_description := item_description r; category := category r;
     item_status := v; image_url := image_url r; token := token r;
     qr_data_url := qr_data_url r |}.
End Item.

(** Table [finder_reports]. *)
Module Report.
Record t := {
  id : Z;
  item_id : uuid;
  finder_name : jsstring;
  finder_email : jsstring;
  location_hint : option jsstring;
  message : jsstring;
  status : jsstring
}.

Definition set_status (v : jsstring) (r : t) : t :=
  {| id := id r; item_id := item_id r; finder_name := finder_name r;
     finder_email := finder_email r; location_hint := location_hint r;
     message := message r; status := v |}.
End Report.

(** Table [found_posts]. *)
Module Post.
Record t := {
  id : Z;
  finder_name : jsstring;
  finder_email : jsstring;
  item_name : jsstring;
  item_description : option jsstring;
  category : option jsstring;
  location_found : option jsstring;
  image_url : option jsstring;
  status : jsstring
}.

Definition set_status (v : jsstring) (r : t) : t :=
  {| id := id r; finder_name := finder_name r; finder_email := finder_email r;
     item_name := item_name r; item_description := item_description r;
     category := category r; location_found := location_found r;
     image_url := image_url r; status := v |}.
End Post.

Record db := {
  users : list User.t;
  items : list Item.t;
  finder_reports : list Report.t;
  found_posts : list Post.t
}.

Definition with_items (d : db) (l : list Item.t) : db :=
  {| users := users d; items := l;
     finder_reports := finder_reports d; found_posts := found_posts d |}.

Definition with_finder_reports (d : db) (l : list Report.t) : db :=
  {| users := users d; items := items d;
     finder_reports := l; found_posts := found_posts d |}.

Definition with_found_posts (d : db) (l : list Post.t) : db :=
  {| users := users d; items := items d;
     finder_reports := finder_reports d; found_posts := l |}.

(** [.maybeSingle()] and [.single()]: [data] is the row when the query
    returned exactly one, and [null] otherwise (no row, or an error).  The
    handlers read [data] only. *)
Definition maybeSingle {A} (rows : list A) : option A :=
  match rows with
  | [r] => Some r
  | _ => None
  end.

Definition single {A} (rows : list A) : option A := maybeSingle rows.

(** [Number(req.params.id)] as the store sees it in a filter on a
    [bigserial] column: an integer, or a value ([NaN], a fraction, an
    infinity) for which the query fails and [data] is [null]. *)
Inductive number :=
| int (z : Z)
| not_an_integer.

Definition eq_bigint (col : Z) (n : number) : bool :=
  match n with
  | int z => Z.eqb col z
  | not_an_integer => false
  end.

(** A row of the lost board: the selected columns of an item and the
    first name of its owner. *)
Module Lost.
Record t := {
  id : uuid;
  item_name : jsstring;
  item_description : option jsstring;
  category : option jsstring;
  image_url : option jsstring;
  user_id : uuid;
  owner_first_name : value
}.
End Lost.

(** ** Requests, sessions and responses *)

(** [req.body], and [req.body.name] *)
Definition body := string -> value.

Definition field (b : body) (name : string) : value := b name.

(** [req.session.userId] *)
Definition session := option uuid.

Record flash := { type : jsstring; message : jsstring }.

Inductive response :=
| redirect (path : jsstring)
| render (status : N) (view : jsstring)
| render_found_qr (item : Item.t) (owner : option User.t)
| send (status : N) (text : jsstring).

(** What a handler leaves behind: its response, [req.session.flash], and
    the store. *)
Record outcome := {
  res : response;
  session_flash : option flash;
  store : db
}.

(** [setFlash(req, type, message); return res.redirect(path);] *)
Definition flash_redirect (d : db) (ty msg path : string) : outcome :=
  {| res := redirect (lit path);
     session_flash := Some {| type := lit ty; message := lit msg |};
     store := d |}.

Definition flash_redirect' (d : db) (ty : string) (msg path : jsstring) : outcome :=
  {| res := redirect path;
     session_flash := Some {| type := lit ty; message := msg |};
     store := d |}.

(** [return res.status(404).render("not_found");] *)
Definition not_found (d : db) : outcome :=
  {| res := render 404 (lit "not_found"); session_flash := None; store := d |}.

(** [function requireAuth(req, res, next)] *)
Definition requireAuth (s : session) (d : db) (next : uuid -> outcome) : outcome :=
  match s with
  | Some userId =>
      if truthy_str userId then next userId
      else flash_redirect d "error" "Please login first." "/login"
  | None => flash_redirect d "error" "Please login first." "/login"
  end.

(** What the outside world answers during one request. *)
Record env := {
  (** [crypto.randomBytes(16)] at the first and second [generateToken()] *)
  randomBytes : list byte;
  randomBytes' : list byte;
  (** [supabase.storage ... .upload] returned an [error] *)
  upload_error : bool;
  (** an [insert] returned an [error] *)
  insert_error : bool;
  (** column defaults [gen_random_uuid()] and [bigserial] of the new row *)
  gen_random_uuid : uuid;
  nextval : Z
}.

Definition quote : jsstring := [34%N].

(** What a view renders, or the answer of the [catch] block. *)
Inductive listing (R : Type) :=
| rendered (rows : list R) (search : jsstring) (filterCategory : value)
| failed (o : outcome).
Arguments rendered {R}.
Arguments failed {R}.

(** ** The earlier [server.js]

    Its [POST /dashboard] registers an item with a token from
    [cryptoRandomToken]; the [items] table is the same. *)

Module Legacy.

(** [Number.prototype.toString(radix)] on a non-negative integer: the
    digits of the quotient, then the last digit. *)
Fixpoint digits (fuel : nat) (radix n : N) : jsstring :=
  match fuel with
  | O => []
  | S fuel' =>
      (if (n / radix =? 0)%N then [] else digits fuel' radix (n / radix)%N)
      ++ [digit (n mod radix)%N]
  end.

Definition toString36 (n : N) : jsstring :=
  digits (S (N.to_nat (N.log2 n))) 36 n.

(** [parseInt(s, 36)] on a string of digits [0-9a-z]. *)
Definition digit_value (c : char16) : N :=
  if (c <? 58)%N then (c - 48)%N else (c - 87)%N.

Definition parseInt36 (s : jsstring) : N :=
  fold_left (fun acc c => (36 * acc + digit_value c)%N) s 0%N.

(** [s.slice(2)] *)
Definition slice2 (s : jsstring) : jsstring := skipn 2 s.

Record env := {
  (** [Math.random().toString(36)], a text such as [0.4fzyo82mvyr] *)
  Math_random_toString36 : jsstring;
  (** [Date.now()], milliseconds since the epoch *)
  Date_now : N;
  (** [error.message] when the insert failed *)
  insert_error : option jsstring;
  gen_random_uuid : uuid;
  (** what the store writes to a text column for an array or object *)
  text_of_json : jsstring
}.

(** [function cryptoRandomToken() {
       return Math.random().toString(36).slice(2) + Date.now().toString(36); }] *)
Definition cryptoRandomToken (e : env) : jsstring :=
  slice2 (Math_random_toString36 e) +++ toString36 (Date_now e).

Definition text_column (e : env) (v : value) : option jsstring :=
  match v with
  | undefined => None
  | str s => or_null s
  | structured => Some (text_of_json e)
  end.

Section Handler.

Variable BASE_URL : jsstring.
Variable toDataURL : jsstring -> jsstring.

(** [app.post("/dashboard", requireAuth, ...)] of the earlier file.
    The columns it does not write take their defaults. *)
Definition post_dashboard (e : env) (d : db) (s : session) (b : body) : outcome :=
  requireAuth s d (fun userId =>
    match text_column e (field b "item_name") with
    | None => flash_redirect d "error" "Item name is required." "/dashboard"
    | Some item_name =>
        let token := cryptoRandomToken e in
        let qrUrl := BASE_URL +++ lit "/found/" +++ token in
        let qr_data_url := toDataURL qrUrl in
        match insert_error e with
        | Some msg =>
            flash_redirect' d "error" (lit "Failed to register item: " +++ msg)
              (lit "/dashboard")
        | None =>
            flash_redirect
              (with_items d
                 (items d ++
                  [{| Item.id := gen_random_uuid e;
                      Item.user_id := userId;
                      Item.item_name := item_name;
                      Item.item_description :=
                        text_column e (field b "item_description");
                      Item.category := Some (lit "Other");
                      Item.item_status := lit "active";
                      Item.image_url := None;
                      Item.token := token;
                      Item.qr_data_url := qr_data_url |}]))
              "success" "Item registered and QR generated." "/dashboard"
        end
    end).

End Handler.

End Legacy.

(** ** Sample data

    A small store and the answers of the outside world, used where the
    statements below are run on a concrete request. *)

Module Sample.

Definition alice : uuid := lit "11111111-1111-4111-8111-111111111111".
Definition bob : uuid := lit "22222222-2222-4222-8222-222222222222".

Definition user (id : uuid) (name mail : string) : User.t :=
  {| User.id := id; User.full_name := lit name; User.email := lit mail;
     User.password_hash := lit "$2a$10$hash" |}.

Definition laptop : Item.t :=
  {| Item.id := lit "aaaaaaaa-aaaa-4aaa-8aaa-aaaaaaaaaaaa";
     Item.user_id := alice;
     Item.item_name := lit "Laptop";
     Item.item_description := None;
     Item.category := Some (lit "Electronics");
     Item.item_status := lit "lost";
     Item.image_url := None;
     Item.token := lit "00112233445566778899aabbccddeeff";
     Item.qr_data_url := lit "data:image/png;base64,AAAA" |}.

Definition report : Report.t :=
  {| Report.id := 1;
     Report.item_id := Item.id laptop;
     Report.finder_name := lit "Bo";
     Report.finder_email := lit "bo@x.com";
     Report.location_hint := None;
     Report.message := lit "saw it";
     Report.status := lit "open" |}.

Definition umbrella : Post.t :=
  {| Post.id := 1;
     Post.finder_name := lit "Cy";
     Post.finder_email := lit "cy@x.com";
     Post.item_name := lit "Umbrella";
     Post.item_description := None;
     Post.category := Some (lit "Other");
     Post.location_found := Some (lit "Library");
     Post.image_url := None;
     Post.status := lit "unclaimed" |}.

Definition store0 : db :=
  {| users := [user alice "Alice A" "alice@x.com"; user bob "Bob B" "bob@x.com"];
     items := [laptop];
     finder_reports := [report];
     found_posts := [umbrella] |}.

Definition bytes16 : list byte :=
  [x00; x11; x22; x33; x44; x55; x66; x77; x88; x99; xaa; xbb; xcc; xdd; xee; xff].

Definition bytes16' : list byte :=
  [xff; xee; xdd; xcc; xbb; xaa; x99; x88; x77; x66; x55; x44; x33; x22; x11; x00].


(** The store accepts inserts; the image store refuses uploads. *)
Definition world : env :=
  {| randomBytes := bytes16';
     randomBytes' := bytes16;
     upload_error := true;
     insert_error := false;
     gen_random_uuid := lit "bbbbbbbb-bbbb-4bbb-8bbb-bbbbbbbbbbbb";
     nextval := 2 |}.

(** A form: the listed fields are strings, the others are missing. *)
Fixpoint form (fields : list (string * string)) : body :=
  fun k =>
    match fields with
    | [] => undefined
    | (name, text) :: rest =>
        if String.eqb k name then str (lit text) else form rest k
    end.

Definition BASE_URL : jsstring := lit "http://localhost:5000".
Definition toDataURL (text : jsstring) : jsstring :=
  lit "data:image/png;base64," +++ text.
(** A transcoder that reads JPEG only: it takes a buffer that begins with
    the start-of-image marker and rejects any other. *)
Definition sharp_jpeg (buffer : list byte) : option (list byte) :=
  match buffer with
  | xff :: xd8 :: xff :: _ => Some buffer
  | _ => None
  end.
Definition getPublicUrl (fileName : jsstring) : jsstring :=
  lit "https://project.supabase.co/storage/v1/object/public/item-images/"
  +++ fileName.
Definition uuid_in (text : jsstring) : option uuid := Some text.

(** The earlier server at one moment. *)
Definition legacy_world : Legacy.env :=
  {| Legacy.Math_random_toString36 := lit "0.4fzyo82mvyr";
     Legacy.Date_now := 1700000000000;
     Legacy.insert_error := None;
     Legacy.gen_random_uuid := lit "cccccccc-cccc-4ccc-8ccc-cccccccccccc";
     Legacy.text_of_json := lit "[]" |}.

End Sample.

(** ** Route handlers *)

Set Default Proof Using "Type".

Section Handlers.

(** Configuration and collaborators the handlers call. *)
Variable BASE_URL : jsstring.
(** [QRCode.toDataURL] *)
Variable toDataURL : jsstring -> jsstring.
(** [sharp(buf).resize(...).jpeg(...).toBuffer()]; [None] when the
    promise rejects (the buffer is no image). *)
Variable sharp_jpeg : list byte -> option (list byte).
(** [getPublicUrl(fileName).data.publicUrl] *)
Variable getPublicUrl : jsstring -> jsstring.
(** How the store reads a request parameter compared with a [uuid]
    column; [None] when the text is no uuid (the query fails). *)
Variable uuid_in : jsstring -> option uuid.

Definition eq_uuid (col : uuid) (param : jsstring) : bool :=
  match uuid_in param with
  | Some u => eqb col u
  | None => false
  end.

(** [async function uploadImage(fileBuffer, prefix)]; [random16] is the
    draw of its [generateToken()] call. *)
Definition uploadImage (e : env) (random16 : list byte)
    (fileBuffer : list byte) (prefix : jsstring) : exec (option jsstring) :=
  match sharp_jpeg fileBuffer with
  | None => Throw
  | Some compressed =>
      let fileName := prefix +++ lit "-" +++ generateToken random16 +++ lit ".jpg" in
      if upload_error e then Ok None
      else Ok (Some (getPublicUrl fileName))
  end.

(** [supabase.from(table).insert(row)]: the store fills the [id] and
    refuses the row when its primary key is taken (or, for an item, its
    token: [token text not null unique]), or for a reason of its own
    ([insert_error]). *)
Definition item_taken (d : db) (id : uuid) (token : jsstring) : bool :=
  existsb (fun it => eqb (Item.id it) id || eqb (Item.token it) token) (items d).

Definition item_rejected (e : env) (d : db) : bool :=
  insert_error e
  || item_taken d (gen_random_uuid e) (generateToken (randomBytes e)).

Definition report_rejected (e : env) (d : db) : bool :=
  insert_error e || existsb (fun r => Z.eqb (Report.id r) (nextval e)) (finder_reports d).

Definition post_rejected (e : env) (d : db) : bool :=
  insert_error e || existsb (fun p => Z.eqb (Post.id p) (nextval e)) (found_posts d).

Definition insert_item (e : env) (d : db) (row : uuid -> Item.t) : option db :=
  let r := row (gen_random_uuid e) in
  if insert_error e || item_taken d (Item.id r) (Item.token r) then None
  else Some (with_items d (items d ++ [r])).

Definition insert_report (e : env) (d : db) (row : Z -> Report.t) : option db :=
  if report_rejected e d then None
  else Some (with_finder_reports d (finder_reports d ++ [row (nextval e)])).

Definition insert_post (e : env) (d : db) (row : Z -> Post.t) : option db :=
  if post_rejected e d then None
  else Some (with_found_posts d (found_posts d ++ [row (nextval e)])).

(** [CATEGORIES.includes(category) ? category : "Other"] *)
Definition category_or_Other (category : value) : jsstring :=
  match category with
  | str s => if includes CATEGORIES category then s else lit "Other"
  | _ => lit "Other"
  end.

(** [app.post("/dashboard", requireAuth, upload.single("image"), ...)]
    [file] is [req.file.buffer] when an image was sent. *)
Definition post_dashboard (e : env) (d : db) (s : session) (b : body)
    (file : option (list byte)) : outcome :=
  requireAuth s d (fun userId =>
    try_catch
      (item_name <- sanitize (field b "item_name") ;;
       item_description <- sanitize (field b "item_description") ;;
       let category := or_else (field b "category") (lit "Other") in
       if negb (truthy_str item_name) || (150 <? length item_name) then
         Ok (flash_redirect d "error"
               "Item name is required (max 150 characters)." "/dashboard")
       else
         let token := generateToken (randomBytes e) in
         let qrUrl := BASE_URL +++ lit "/found/" +++ token in
         let qr_data_url := toDataURL qrUrl in
         image_url <- match file with
                      | Some buffer => uploadImage e (randomBytes' e) buffer token
                      | None => Ok None
                      end ;;
         Ok (match insert_item e d (fun id =>
                 {| Item.id := id;
                    Item.user_id := userId;
                    Item.item_name := item_name;
                    Item.item_description := or_null item_description;
                    Item.category := Some (category_or_Other category);
                    Item.item_status := lit "active";
                    Item.image_url := image_url;
                    Item.token := token;
                    Item.qr_data_url := qr_data_url |}) with
             | None => flash_redirect d "error" "Failed to register item." "/dashboard"
             | Some d' =>
                 flash_redirect d' "success" "Item registered and QR generated."
                   "/dashboard"
             end))
      (flash_redirect d "error" "Something went wrong." "/dashboard")).

(** [supabase.from("items").select(...).eq("id", id).eq("item_status", "lost").maybeSingle()] *)
Definition select_lost_item (d : db) (id : jsstring) : option Item.t :=
  maybeSingle
    (filter (fun it => eq_uuid (Item.id it) id
                       && eqb (Item.item_status it) (lit "lost")) (items d)).

(** [app.post("/lost/:id/sighting", ...)] *)
Definition post_lost_sighting (e : env) (d : db) (id : jsstring) (b : body) : outcome :=
  try_catch
    (reporter_name <- sanitize (field b "reporter_name") ;;
     reporter_email <- sanitize (field b "reporter_email") ;;
     location <- sanitize (field b "location") ;;
     message <- sanitize (field b "message") ;;
     Ok (match select_lost_item d id with
         | None => flash_redirect d "error" "Item not found." "/lost"
         | Some item =>
             if length reporter_name <? 2 then
               flash_redirect d "error" "Name is too short." "/lost"
             else if negb (isValidEmail reporter_email) then
               flash_redirect d "error" "Invalid email." "/lost"
             else if length message <? 3 then
               flash_redirect d "error" "Message is too short." "/lost"
             else
                 match insert_report e d (fun id =>
                     {| Report.id := id;
                        Report.item_id := Item.id item;
                        Report.finder_name := reporter_name;
                        Report.finder_email := reporter_email;
                        Report.location_hint := or_null location;
                        Report.message := lit "[Sighting] " +++ message;
                        Report.status := lit "open" |}) with
                 | None => flash_redirect d "error" "Failed to submit sighting." "/lost"
                 | Some d' =>
                     flash_redirect' d' "success"
                       (lit "Sighting reported for " +++ quote +++ Item.item_name item
                          +++ quote +++ lit ". The owner has been notified!")
                       (lit "/lost")
                 end
         end))
    (flash_redirect d "error" "Something went wrong." "/lost").

(** [supabase.from("items").select(...).eq("token", req.params.token).maybeSingle()],
    the token resolution of both [/found/:token] handlers. *)
Definition resolveToken (d : db) (token : jsstring) : option Item.t :=
  maybeSingle (filter (fun it => eqb (Item.token it) token) (items d)).

(** [app.get("/found/:token", ...)] *)
Definition get_found_token (d : db) (token : jsstring) : outcome :=
  match resolveToken d token with
  | None => not_found d
  | Some item =>
      let owner :=
        single (filter (fun u => eqb (User.id u) (Item.user_id item)) (users d)) in
      {| res := render_found_qr item owner; session_flash := None; store := d |}
  end.

(** [app.post("/found/:token", ...)] *)
Definition post_found_token (e : env) (d : db) (token : jsstring) (b : body) : outcome :=
  let back := lit "/found/" +++ token in
  try_catch
    (finder_name <- sanitize (field b "finder_name") ;;
     finder_email <- sanitize (field b "finder_email") ;;
     location_hint <- sanitize (field b "location_hint") ;;
     message <- sanitize (field b "message") ;;
     Ok (match resolveToken d token with
         | None => not_found d
         | Some item =>
             if length finder_name <? 2 then
               flash_redirect' d "error" (lit "Name is too short.") back
             else if negb (isValidEmail finder_email) then
               flash_redirect' d "error" (lit "Invalid email.") back
             else if length message <? 3 then
               flash_redirect' d "error" (lit "Message is too short.") back
             else
                 match insert_report e d (fun id =>
                     {| Report.id := id;
                        Report.item_id := Item.id item;
                        Report.finder_name := finder_name;
                        Report.finder_email := finder_email;
                        Report.location_hint := or_null location_hint;
                        Report.message := message;
                        Report.status := lit "open" |}) with
                 | None => flash_redirect' d "error" (lit "Failed to submit report.") back
                 | Some d' =>
                     flash_redirect' d' "success" (lit "Report submitted to owner!") back
                 end
         end))
    (flash_redirect' d "error" (lit "Something went wrong.") back).

(** [app.post("/found-items", upload.single("image"), ...)] *)
Definition post_found_items (e : env) (d : db) (b : body)
    (file : option (list byte)) : outcome :=
  try_catch
    (finder_name <- sanitize (field b "finder_name") ;;
     finder_email <- sanitize (field b "finder_email") ;;
     item_name <- sanitize (field b "item_name") ;;
     item_description <- sanitize (field b "item_description") ;;
     let category := or_else (field b "category") (lit "Other") in
     location_found <- sanitize (field b "location_found") ;;
     if length finder_name <? 2 then
       Ok (flash_redirect d "error" "Name is too short." "/found-items")
     else if negb (isValidEmail finder_email) then
       Ok (flash_redirect d "error" "Invalid email." "/found-items")
     else if negb (truthy_str item_name) || (150 <? length item_name) then
       Ok (flash_redirect d "error" "Item name is required (max 150 chars)."
             "/found-items")
     else
       image_url <- match file with
                    | Some buffer => uploadImage e (randomBytes e) buffer (lit "found")
                    | None => Ok None
                    end ;;
       Ok (match insert_post e d (fun id =>
               {| Post.id := id;
                  Post.finder_name := finder_name;
                  Post.finder_email := finder_email;
                  Post.item_name := item_name;
                  Post.item_description := or_null item_description;
                  Post.category := Some (category_or_Other category);
                  Post.location_found := or_null location_found;
                  Post.image_url := image_url;
                  Post.status := lit "unclaimed" |}) with
           | None => flash_redirect d "error" "Failed to post item." "/found-items"
           | Some d' =>
               flash_redirect d' "success"
                 "Found item posted! The owner can now find it here." "/found-items"
           end))
    (flash_redirect d "error" "Something went wrong." "/found-items").

(** The two awaited store calls of the claim handler:
    [.from("found_posts").select("*").eq("id", Number(req.params.id))
     .eq("status", "unclaimed").maybeSingle()] and
    [.from("found_posts").update({ status: "claimed" }).eq("id", post.id)]. *)
Definition claim_select (d : db) (id : number) : option Post.t :=
  maybeSingle
    (filter (fun p => eq_bigint (Post.id p) id
                      && eqb (Post.status p) (lit "unclaimed")) (found_posts d)).

Definition claim_update (d : db) (post : Post.t) : db :=
  with_found_posts d
    (map (fun p => if Z.eqb (Post.id p) (Post.id post)
                   then Post.set_status (lit "claimed") p else p)
         (found_posts d)).

Definition claim_missing (d : db) : outcome :=
  flash_redirect d "error" "Post not found or already claimed." "/found-items".

Definition claim_done (d : db) (post : Post.t) : outcome :=
  flash_redirect' d "success"
    (lit "You claimed " +++ quote +++ Post.item_name post +++ quote
       +++ lit ". Contact the finder at " +++ Post.finder_email post
       +++ lit " to arrange pickup.")
    (lit "/found-items").

(** [app.post("/found-items/:id/claim", requireAuth, ...)] *)
Definition post_found_items_claim (d : db) (s : session) (id : number) : outcome :=
  requireAuth s d (fun _ =>
    match claim_select d id with
    | None => claim_missing d
    | Some post => claim_done (claim_update d post) post
    end).

(** The three awaited store calls of the resolve handler. *)
Definition resolve_select_report (d : db) (id : number) : option Report.t :=
  maybeSingle (filter (fun r => eq_bigint (Report.id r) id) (finder_reports d)).

Definition resolve_select_item (d : db) (report : Report.t) : option Item.t :=
  single (filter (fun it => eqb (Item.id it) (Report.item_id report)) (items d)).

Definition resolve_update (d : db) (report : Report.t) : db :=
  with_finder_reports d
    (map (fun r => if Z.eqb (Report.id r) (Report.id report)
                   then Report.set_status (lit "resolved") r else r)
         (finder_reports d)).

Definition forbidden (d : db) : outcome :=
  {| res := send 403 (lit "Forbidden"); session_flash := None; store := d |}.

(** [if (!item || item.user_id !== req.session.userId)] *)
Definition not_owned_by (userId : uuid) (item : option Item.t) : bool :=
  match item with
  | None => true
  | Some it => negb (eqb (Item.user_id it) userId)
  end.

(** [app.post("/report/:id/resolve", requireAuth, ...)] *)
Definition post_report_resolve (d : db) (s : session) (id : number) : outcome :=
  requireAuth s d (fun userId =>
    match resolve_select_report d id with
    | None => not_found d
    | Some report =>
        if not_owned_by userId (resolve_select_item d report) then forbidden d
        else flash_redirect (resolve_update d report)
               "success" "Report marked as resolved." "/dashboard"
    end).

(** [supabase.from("items").select("id, user_id").eq("id", req.params.id).maybeSingle()] *)
Definition select_item (d : db) (id : jsstring) : option Item.t :=
  maybeSingle (filter (fun it => eq_uuid (Item.id it) id) (items d)).

Definition allowed : list jsstring := [lit "active"; lit "lost"; lit "recovered"].

(** [app.post("/item/:id/status", requireAuth, ...)] *)
Definition post_item_status (d : db) (s : session) (id : jsstring) (b : body) : outcome :=
  requireAuth s d (fun userId =>
    let item_status := field b "item_status" in
    let item := select_item d id in
    if not_owned_by userId item then
      flash_redirect d "error" "Item not found." "/dashboard"
    else if negb (includes allowed item_status) then
      flash_redirect d "error" "Invalid status." "/dashboard"
    else
      match item, item_status with
      | Some it, str v =>
          flash_redirect'
            (with_items d
               (map (fun r => if eqb (Item.id r) (Item.id it)
                              then Item.set_item_status v r else r)
                    (items d)))
            "success" (lit "Item marked as " +++ v +++ lit ".") (lit "/dashboard")
      | _, _ =>
          (* not reached: [item] is a row and [item_status] an allowed string *)
          flash_redirect d "error" "Invalid status." "/dashboard"
      end).

(** [app.post("/item/:id/delete", requireAuth, ...)] *)
Definition post_item_delete (d : db) (s : session) (id : jsstring) : outcome :=
  requireAuth s d (fun userId =>
    match select_item d id with
    | Some it =>
        if negb (eqb (Item.user_id it) userId) then
          flash_redirect d "error" "Item not found." "/dashboard"
        else
          let d1 :=
            with_finder_reports d
              (filter (fun r => negb (eqb (Report.item_id r) (Item.id it)))
                      (finder_reports d)) in
          let d2 :=
            with_items d1
              (filter (fun r => negb (eqb (Item.id r) (Item.id it))) (items d1)) in
          flash_redirect d2 "success" "Item deleted." "/dashboard"
    | None => flash_redirect d "error" "Item not found." "/dashboard"
    end).

(** Every request that writes to [items], [finder_reports] or
    [found_posts], and the two reads of the QR page.  The remaining routes
    (sign-up, login, account) write to [users] and the session only. *)
Inductive request :=
| POST_dashboard (s : session) (b : body) (file : option (list byte))
| POST_lost_sighting (id : jsstring) (b : body)
| GET_found_token (token : jsstring)
| POST_found_token (token : jsstring) (b : body)
| POST_found_items (b : body) (file : option (list byte))
| POST_found_items_claim (s : session) (id : number)
| POST_report_resolve (s : session) (id : number)
| POST_item_status (s : session) (id : jsstring) (b : body)
| POST_item_delete (s : session) (id : jsstring).

Definition handle (e : env) (d : db) (r : request) : outcome :=
  match r with
  | POST_dashboard s b file => post_dashboard e d s b file
  | POST_lost_sighting id b => post_lost_sighting e d id b
  | GET_found_token token => get_found_token d token
  | POST_found_token token b => post_found_token e d token b
  | POST_found_items b file => post_found_items e d b file
  | POST_found_items_claim s id => post_found_items_claim d s id
  | POST_report_resolve s id => post_report_resolve d s id
  | POST_item_status s id b => post_item_status d s id b
  | POST_item_delete s id => post_item_delete d s id
  end.

(** The store after a sequence of requests, served one after the other. *)
Fixpoint serve (d : db) (rs : list (env * request)) : db :=
  match rs with
  | [] => d
  | (e, r) :: rs' => serve (store (handle e d r)) rs'
  end.

(** *** Requests in flight

    Node serves a request until its next [await]; while a store call is
    awaited the event loop may run another request.  A [task] is a
    claim or resolve request (past [requireAuth]) suspended at an
    awaited store call, or its response. *)
Inductive task :=
| await_claim_select (id : number)
| await_claim_update (post : Post.t)
| await_resolve_select_report (userId : uuid) (id : number)
| await_resolve_select_item (userId : uuid) (report : Report.t)
| await_resolve_update (report : Report.t)
| responded (r : response) (f : option flash).

Definition respond (o : outcome) : task := responded (res o) (session_flash o).

(** Run a task up to its next awaited call. *)
Definition step (d : db) (t : task) : db * task :=
  match t with
  | await_claim_select id =>
      match claim_select d id with
      | None => (d, respond (claim_missing d))
      | Some post => (d, await_claim_update post)
      end
  | await_claim_update post =>
      let d' := claim_update d post in (d', respond (claim_done d' post))
  | await_resolve_select_report userId id =>
      match resolve_select_report d id with
      | None => (d, respond (not_found d))
      | Some report => (d, await_resolve_select_item userId report)
      end
  | await_resolve_select_item userId report =>
      if not_owned_by userId (resolve_select_item d report)
      then (d, respond (forbidden d))
      else (d, await_resolve_update report)
  | await_resolve_update report =>
      let d' := resolve_update d report in
      (d', respond (flash_redirect d' "success" "Report marked as resolved." "/dashboard"))
  | responded _ _ => (d, t)
  end.

(** Two requests in flight; the schedule says whose turn comes next
    ([true]: the first). *)
Fixpoint interleave (schedule : list bool) (d : db) (t1 t2 : task) : db * task * task :=
  match schedule with
  | [] => (d, t1, t2)
  | true :: rest => let (d', t1') := step d t1 in interleave rest d' t1' t2
  | false :: rest => let (d', t2') := step d t2 in interleave rest d' t1 t2'
  end.

(** The response of a claim that went through, and of one that did not. *)
Definition claim_succeeded (t : task) : bool :=
  match t with
  | responded _ (Some f) => eqb (type f) (lit "success")
  | _ => false
  end.

Definition claim_refused (t : task) : bool :=
  match t with
  | responded _ (Some f) => eqb (type f) (lit "error")
  | _ => false
  end.

Unset Implicit Arguments.

(** *** Vocabulary of the statements below *)

(** The strings the e-mail pattern accepts: [a@b.c] with [a], [b], [c]
    non-empty and free of white space and of [@]. *)
Definition email_shape (s : jsstring) : Prop :=
  exists a b c,
    s = a ++ at_sign :: b ++ full_stop :: c
    /\ a <> [] /\ b <> [] /\ c <> []
    /\ forallb not_space_at a = true
    /\ forallb not_space_at b = true
    /\ forallb not_space_at c = true.

(** The rule of the report forms in the words of the specification:
    name of at least 2 characters, e-mail passing the format check,
    message of at least 3 characters. *)
Definition report_inputs_valid (name email message : jsstring) : Prop :=
  2 <= length name /\ isValidEmail email = true /\ 3 <= length message.

(** An item name of 1 to 150 characters. *)
Definition item_name_valid (name : jsstring) : Prop :=
  1 <= length name <= 150.

(** The named form fields are text: none is an array or an object. *)
Definition text_fields (b : body) (names : list string) : Prop :=
  Forall (fun name => field b name <> structured) names.


(** Primary keys and the unique token column of the schema. *)
Definition unique_item_ids (d : db) : Prop := NoDup (map Item.id (items d)).
Definition unique_tokens (d : db) : Prop := NoDup (map Item.token (items d)).
Definition unique_report_ids (d : db) : Prop := NoDup (map Report.id (finder_reports d)).
Definition unique_post_ids (d : db) : Prop := NoDup (map Post.id (found_posts d)).

(** A store that respects them. *)
Definition consistent (d : db) : Prop :=
  unique_item_ids d /\ unique_tokens d /\ unique_report_ids d /\ unique_post_ids d.

(** A session of a logged-in user. *)
Definition logged_in (s : session) (userId : uuid) : Prop :=
  s = Some userId /\ truthy_str userId = true.

(** The row [POST /found/:token] inserts. *)
Definition finder_report_row (e : env) (it : Item.t)
    (name email location_hint message : jsstring) : Report.t :=
  {| Report.id := nextval e;
     Report.item_id := Item.id it;
     Report.finder_name := name;
     Report.finder_email := email;
     Report.location_hint := or_null location_hint;
     Report.message := message;
     Report.status := lit "open" |}.

(** The row [POST /lost/:id/sighting] inserts. *)
Definition sighting_row (e : env) (it : Item.t)
    (name email location message : jsstring) : Report.t :=
  {| Report.id := nextval e;
     Report.item_id := Item.id it;
     Report.finder_name := name;
     Report.finder_email := email;
     Report.location_hint := or_null location;
     Report.message := lit "[Sighting] " +++ message;
     Report.status := lit "open" |}.

(** The row [POST /dashboard] inserts. *)
Definition item_row (e : env) (userId : uuid) (name description : jsstring)
    (category : value) (image_url : option jsstring) : Item.t :=
  {| Item.id := gen_random_uuid e;
     Item.user_id := userId;
     Item.item_name := name;
     Item.item_description := or_null description;
     Item.category := Some (category_or_Other (or_else category (lit "Other")));
     Item.item_status := lit "active";
     Item.image_url := image_url;
     Item.token := generateToken (randomBytes e);
     Item.qr_data_url :=
       toDataURL (BASE_URL +++ lit "/found/" +++ generateToken (randomBytes e)) |}.

(** [req.file ? await uploadImage(req.file.buffer, token) : null] *)
Definition item_image (e : env) (file : option (list byte)) : exec (option jsstring) :=
  match file with
  | Some buffer =>
      uploadImage e (randomBytes' e) buffer (generateToken (randomBytes e))
  | None => Ok None
  end.



(** [supabase.from("items").update({ item_status }).eq("id", item.id)] *)
Definition update_item_status (d : db) (it : Item.t) (v : jsstring) : db :=
  with_items d
    (map (fun r => if eqb (Item.id r) (Item.id it)
                   then Item.set_item_status v r else r)
         (items d)).

Definition has_responded (t : task) : bool :=
  match t with
  | responded _ _ => true
  | _ => false
  end.


(** The concurrency property in the words of the specification: of two
    claims of the same [unclaimed] post, run to completion under any
    schedule, exactly one goes through and the other is refused. *)
Definition exactly_one_claim : Prop :=
  forall (d : db) (id : number) (p : Post.t) (schedule : list bool)
         (d' : db) (t1 t2 : task),
    unique_post_ids d ->
    In p (found_posts d) -> eq_bigint (Post.id p) id = true ->
    Post.status p = lit "unclaimed" ->
    interleave schedule d (await_claim_select id) (await_claim_select id)
    = (d', t1, t2) ->
    has_responded t1 = true -> has_responded t2 = true ->
    xorb (claim_succeeded t1) (claim_succeeded t2) = true
    /\ xorb (claim_refused t1) (claim_refused t2) = true.

(** Schedules of two claims: one request after the other, and both
    selects before either update. *)
Definition serial_schedules : list (list bool) :=
  [[true; true; false; false]; [false; false; true; true]].

Definition racing_schedules : list (list bool) :=
  [[true; false; true; false]; [true; false; false; true];
   [false; true; true; false]; [false; true; false; true]].

(** ** The routes that read, and the accounts *)

(** *** Download of the QR image *)

(** [requireAuth] in front of a handler whose answer is not an [outcome]. *)
Definition requireAuth_ {A : Type} (s : session) (denied : A) (next : uuid -> A) : A :=
  match s with
  | Some userId => if truthy_str userId then next userId else denied
  | None => denied
  end.

(** [Buffer.from(text, "base64")] *)
Variable Buffer_from_base64 : jsstring -> list byte.

(** An answer of the kinds above, or a file sent with its two headers. *)
Inductive download :=
| page (o : outcome)
| attachment (content_type content_disposition : jsstring) (content : list byte).

(** [.from("items").select("*").eq("token", req.params.token)
     .eq("user_id", req.session.userId).maybeSingle()] *)
Definition select_own_item (d : db) (userId : uuid) (token : jsstring) : option Item.t :=
  maybeSingle
    (filter (fun it => eqb (Item.token it) token
                       && eq_uuid (Item.user_id it) userId) (items d)).

Definition qr_unavailable (d : db) : outcome :=
  {| res := send 500 (lit "QR unavailable"); session_flash := None; store := d |}.

(** [app.get("/download/:token", requireAuth, ...)] *)
Definition get_download_token (d : db) (s : session) (token : jsstring) : download :=
  requireAuth_ s (page (flash_redirect d "error" "Please login first." "/login"))
    (fun userId =>
       match select_own_item d userId token with
       | None => page (not_found d)
       | Some item =>
           match nth_error (split comma (Item.qr_data_url item)) 1 with
           | Some base64 =>
               if truthy_str base64 then
                 attachment (lit "image/png")
                   (lit "attachment; filename=" +++ quote
                      +++ safeFileName (Item.item_name item) +++ lit "-qr.png"
                      +++ quote)
                   (Buffer_from_base64 base64)
               else page (qr_unavailable d)
           | None => page (qr_unavailable d)
           end
       end).

(** *** What a request may write *)

(** The user a request acts for: the session's, on the routes behind
    [requireAuth]. *)
Definition session_user (s : session) : option uuid :=
  requireAuth_ s None (fun userId => Some userId).

Definition actor (r : request) : option uuid :=
  match r with
  | POST_dashboard s _ _ => session_user s
  | POST_found_items_claim s _ => session_user s
  | POST_report_resolve s _ => session_user s
  | POST_item_status s _ _ => session_user s
  | POST_item_delete s _ => session_user s
  | POST_lost_sighting _ _ => None
  | GET_found_token _ => None
  | POST_found_token _ _ => None
  | POST_found_items _ _ => None
  end.

(** The two deletes of [POST /item/:id/delete]. *)
Definition delete_item (d : db) (it : Item.t) : db :=
  let d1 :=
    with_finder_reports d
      (filter (fun r => negb (eqb (Report.item_id r) (Item.id it)))
              (finder_reports d)) in
  with_items d1 (filter (fun r => negb (eqb (Item.id r) (Item.id it))) (items d1)).

(** The writes of the handlers, each with the checks that precede it. *)
Inductive effect (who : option uuid) (d : db) : db -> Prop :=
| no_write : effect who d d
| item_added (row : Item.t) :
    who = Some (Item.user_id row) ->
    Item.item_status row = lit "active" ->
    item_taken d (Item.id row) (Item.token row) = false ->
    effect who d (with_items d (items d ++ [row]))
| report_added (row : Report.t) (it : Item.t) :
    In it (items d) -> Report.item_id row = Item.id it ->
    Report.status row = lit "open" ->
    existsb (fun r => Z.eqb (Report.id r) (Report.id row)) (finder_reports d) = false ->
    effect who d (with_finder_reports d (finder_reports d ++ [row]))
| post_added (row : Post.t) :
    Post.status row = lit "unclaimed" ->
    existsb (fun p => Z.eqb (Post.id p) (Post.id row)) (found_posts d) = false ->
    effect who d (with_found_posts d (found_posts d ++ [row]))
| post_claimed (userId : uuid) (id : number) (post : Post.t) :
    who = Some userId -> claim_select d id = Some post ->
    effect who d (claim_update d post)
| report_resolved (userId : uuid) (id : number) (report : Report.t) (it : Item.t) :
    who = Some userId -> resolve_select_report d id = Some report ->
    resolve_select_item d report = Some it -> Item.user_id it = userId ->
    effect who d (resolve_update d report)
| status_set (userId : uuid) (id : jsstring) (it : Item.t) (v : jsstring) :
    who = Some userId -> select_item d id = Some it -> Item.user_id it = userId ->
    In v allowed ->
    effect who d (update_item_status d it v)
| item_deleted (userId : uuid) (id : jsstring) (it : Item.t) :
    who = Some userId -> select_item d id = Some it -> Item.user_id it = userId ->
    effect who d (delete_item d it).

(** Every report is on an item of the store
    ([item_id uuid not null references public.items(id)]). *)
Definition reports_have_items (d : db) : Prop :=
  forall r, In r (finder_reports d) ->
    exists it, In it (items d) /\ Item.id it = Report.item_id r.

(** The status columns hold the values the handlers write. *)
Definition statuses_known (d : db) : Prop :=
  (forall it, In it (items d) -> In (Item.item_status it) allowed)
  /\ (forall r, In r (finder_reports d) ->
        In (Report.status r) [lit "open"; lit "resolved"])
  /\ (forall p, In p (found_posts d) ->
        In (Post.status p) [lit "unclaimed"; lit "claimed"]).

(** *** Accounts: sign-up, login, logout, profile and password *)

(** [String.prototype.toLowerCase] *)
Variable toLowerCase : jsstring -> jsstring.
(** [bcrypt.hash(password, 10)] at the salt it drew, and
    [bcrypt.compare(password, hash)], on strings. *)
Variable bcrypt_hash : jsstring -> jsstring -> jsstring.
Variable bcrypt_compare : jsstring -> jsstring -> bool.

(** What the outside world answers during one request on an account. *)
Record account_env := {
  (** the salt [bcrypt.hash] draws *)
  genSalt : jsstring;
  (** an [insert] or [update] on [users] returned an [error] *)
  users_error : bool;
  (** column default [gen_random_uuid()] of a new user *)
  user_uuid : uuid;
  (** [password.length < 8] when the password field is an array or an
      object *)
  structured_length_lt_8 : bool
}.

Definition with_users (d : db) (l : list User.t) : db :=
  {| users := l; items := items d;
     finder_reports := finder_reports d; found_posts := found_posts d |}.

Definition set_full_name (v : jsstring) (u : User.t) : User.t :=
  {| User.id := User.id u; User.full_name := v; User.email := User.email u;
     User.password_hash := User.password_hash u |}.

Definition set_password_hash (v : jsstring) (u : User.t) : User.t :=
  {| User.id := User.id u; User.full_name := User.full_name u;
     User.email := User.email u; User.password_hash := v |}.

(** [supabase.from("users").insert(row)]: refused when the primary key
    or the e-mail ([email text not null unique]) is taken, or for a
    reason of the store's own. *)
Definition user_taken (d : db) (id : uuid) (email : jsstring) : bool :=
  existsb (fun u => eqb (User.id u) id || eqb (User.email u) email) (users d).

Definition insert_user (w : account_env) (d : db) (row : uuid -> User.t) : option db :=
  let r := row (user_uuid w) in
  if users_error w || user_taken d (User.id r) (User.email r) then None
  else Some (with_users d (users d ++ [r])).

(** [v.toLowerCase()]: defined on strings only. *)
Definition call_toLowerCase (v : value) : exec jsstring :=
  match v with
  | str s => Ok (toLowerCase s)
  | _ => Throw
  end.

(** [password.length < 8] *)
Definition shorter_than_8 (w : account_env) (password : value) : exec bool :=
  match password with
  | str s => Ok (length s <? 8)
  | structured => Ok (structured_length_lt_8 w)
  | undefined => Throw
  end.

(** [await bcrypt.hash(password, 10)] and
    [await bcrypt.compare(password, hash)]: the promise rejects when
    the password is no string. *)
Definition hash (w : account_env) (password : value) : exec jsstring :=
  match password with
  | str s => Ok (bcrypt_hash (genSalt w) s)
  | _ => Throw
  end.

Definition compare (password : value) (stored : jsstring) : exec bool :=
  match password with
  | str s => Ok (bcrypt_compare s stored)
  | _ => Throw
  end.

(** [supabase.from("users").select(...).eq("email", email).maybeSingle()] *)
Definition select_user_by_email (d : db) (email : jsstring) : option User.t :=
  maybeSingle (filter (fun u => eqb (User.email u) email) (users d)).

(** The en dash of the message about the length of a name. *)
Definition en_dash : jsstring := [8211%N].

(** [app.post("/signup", ...)] *)
Definition post_signup (w : account_env) (d : db) (b : body) : outcome :=
  try_catch
    (full_name <- sanitize (field b "full_name") ;;
     trimmed <- sanitize (field b "email") ;;
     let email := toLowerCase trimmed in
     let password := or_else (field b "password") [] in
     if (length full_name <? 2) || (100 <? length full_name) then
       Ok (flash_redirect' d "error"
             (lit "Full name must be 2" +++ en_dash +++ lit "100 characters.")
             (lit "/signup"))
     else if negb (isValidEmail email) then
       Ok (flash_redirect d "error" "Please enter a valid email address." "/signup")
     else
       short <- shorter_than_8 w password ;;
       if short then
         Ok (flash_redirect d "error" "Password must be at least 8 characters."
               "/signup")
       else
         match select_user_by_email d email with
         | Some _ => Ok (flash_redirect d "error" "Email already registered." "/signup")
         | None =>
             password_hash <- hash w password ;;
             Ok (match insert_user w d (fun id =>
                     {| User.id := id;
                        User.full_name := full_name;
                        User.email := email;
                        User.password_hash := password_hash |}) with
                 | None =>
                     flash_redirect d "error" "Signup failed. Please try again."
                       "/signup"
                 | Some d' =>
                     flash_redirect d' "success" "Account created. Please login."
                       "/login"
                 end)
         end)
    (flash_redirect d "error" "Something went wrong." "/signup").

(** What a handler that also writes [req.session.userId] leaves behind. *)
Record login_outcome := {
  answer : outcome;
  session_userId : session
}.

(** [app.post("/login", ...)]; [s] is the session the request came with. *)
(** [setFlash(req, "error", msg); return res.redirect("/login");] with
    the session's user as it was. *)
Definition stay (d : db) (s : session) (msg : string) : login_outcome :=
  {| answer := flash_redirect d "error" msg "/login"; session_userId := s |}.

Definition post_login (d : db) (s : session) (b : body) : login_outcome :=
  try_catch
    (lowered <- call_toLowerCase (or_else (field b "email") []) ;;
     let email := trim lowered in
     let password := or_else (field b "password") [] in
     match select_user_by_email d email with
     | None => Ok (stay d s "Invalid email or password.")
     | Some user =>
         ok <- compare password (User.password_hash user) ;;
         if negb ok then Ok (stay d s "Invalid email or password.")
         else
           Ok {| answer := flash_redirect d "success" "Welcome back!" "/dashboard";
                 session_userId := Some (User.id user) |}
     end)
    (stay d s "Something went wrong.").

(** [app.get("/logout", ...)]: the session is destroyed. *)
Definition get_logout (d : db) : login_outcome :=
  {| answer := {| res := redirect (lit "/"); session_flash := None; store := d |};
     session_userId := None |}.

(** [supabase.from("users").update(...).eq("id", req.session.userId)] *)
Definition update_user (d : db) (userId : uuid) (change : User.t -> User.t) : db :=
  with_users d
    (map (fun u => if eq_uuid (User.id u) userId then change u else u) (users d)).

(** [app.post("/account", requireAuth, ...)] *)
Definition post_account (w : account_env) (d : db) (s : session) (b : body) : outcome :=
  requireAuth s d (fun userId =>
    try_catch
      (full_name <- sanitize (field b "full_name") ;;
       if length full_name <? 2 then
         Ok (flash_redirect d "error" "Name is too short." "/account")
       else if users_error w then
         Ok (flash_redirect d "error" "Update failed." "/account")
       else
         Ok (flash_redirect (update_user d userId (set_full_name full_name))
               "success" "Profile updated." "/account"))
      (flash_redirect d "error" "Something went wrong." "/account")).

(** [app.post("/account/password", requireAuth, ...)].  The result of the
    update is not looked at: the success flash is set also when the
    store returned an error. *)
Definition post_account_password (w : account_env) (d : db) (s : session)
    (b : body) : outcome :=
  requireAuth s d (fun userId =>
    try_catch
      (let current_password := field b "current_password" in
       let new_password := field b "new_password" in
       short <- (if negb (truthy new_password) then Ok true
                 else shorter_than_8 w new_password) ;;
       if short then
         Ok (flash_redirect d "error" "New password must be at least 8 characters."
               "/account")
       else
         match single (filter (fun u => eq_uuid (User.id u) userId) (users d)) with
         | None => Throw
         | Some user =>
             ok <- compare (or_else current_password []) (User.password_hash user) ;;
             if negb ok then
               Ok (flash_redirect d "error" "Current password is incorrect."
                     "/account")
             else
               new_hash <- hash w new_password ;;
               Ok (flash_redirect
                     (if users_error w then d
                      else update_user d userId (set_password_hash new_hash))
                     "success" "Password updated." "/account")
         end)
      (flash_redirect d "error" "Something went wrong." "/account")).

(** [app.get("/account", requireAuth, ...)]: the counts it renders.
    [createdAt] comes from the column [created_at] and is left out with
    it. *)
Inductive account_page :=
| account (itemCount openReports resolvedReports : nat)
| no_account (o : outcome).

Definition get_account (d : db) (s : session) : account_page :=
  requireAuth_ s (no_account (flash_redirect d "error" "Please login first." "/login"))
    (fun userId =>
       let own := filter (fun it => eq_uuid (Item.user_id it) userId) (items d) in
       let itemIds := map Item.id own in
       let reports :=
         filter (fun r => existsb (eqb (Report.item_id r)) itemIds)
                (finder_reports d) in
       account (length own)
         (length (filter (fun r => eqb (Report.status r) (lit "open")) reports))
         (length (filter (fun r => negb (eqb (Report.status r) (lit "open"))) reports))).

(** Every route of the site that writes to the store or to the session,
    each with what the outside world answers while it is served. *)
Inductive site_request :=
| on_tables (e : env) (r : request)
| POST_signup (w : account_env) (b : body)
| POST_login (s : session) (b : body)
| GET_logout
| POST_account (w : account_env) (s : session) (b : body)
| POST_account_password (w : account_env) (s : session) (b : body).

(** The store a request leaves behind. *)
Definition site_store (d : db) (r : site_request) : db :=
  match r with
  | on_tables e r => store (handle e d r)
  | POST_signup w b => store (post_signup w d b)
  | POST_login s b => store (answer (post_login d s b))
  | GET_logout => store (answer (get_logout d))
  | POST_account w s b => store (post_account w d s b)
  | POST_account_password w s b => store (post_account_password w d s b)
  end.

(** The user a request acts for; sign-up, login and logout are not
    behind [requireAuth]. *)
Definition site_actor (r : site_request) : option uuid :=
  match r with
  | on_tables _ r => actor r
  | POST_signup _ _ => None
  | POST_login _ _ => None
  | GET_logout => None
  | POST_account _ s _ => session_user s
  | POST_account_password _ s _ => session_user s
  end.

(** The items of a user, and the reports on them, as [GET /account]
    selects them. *)
Definition own_items (d : db) (userId : uuid) : list Item.t :=
  filter (fun it => eq_uuid (Item.user_id it) userId) (items d).

Definition own_reports (d : db) (userId : uuid) : list Report.t :=
  filter (fun r => existsb (eqb (Report.item_id r)) (map Item.id (own_items d userId)))
         (finder_reports d).

(** [r.status === "open"], and the row [resolve_update] writes. *)
Definition is_open (r : Report.t) : bool := eqb (Report.status r) (lit "open").

Definition resolve_row (report r : Report.t) : Report.t :=
  if Z.eqb (Report.id r) (Report.id report)
  then Report.set_status (lit "resolved") r else r.

(** *** Listings: the dashboard and the two public boards *)

(** [.order("created_at", { ascending: false })] on each table; the
    order comes from the column [created_at], which the rows here do
    not carry. *)
Variable newest_items : list Item.t -> list Item.t.
Variable newest_reports : list Report.t -> list Report.t.
Variable newest_posts : list Post.t -> list Post.t.
(** The text of the query parameter of that name when it is an array or
    an object, as the template [`eq.${value}`] of [query.eq] builds it;
    [None] when the conversion throws (an object whose [toString] is
    not callable, as [?category[toString]=x] gives). *)
Variable String_of_query : string -> option jsstring.

(** [s.startsWith(p)] and [s.includes(p)] on strings. *)
Fixpoint starts_with (p s : jsstring) : bool :=
  match p, s with
  | [], _ => true
  | a :: p', c :: s' => N.eqb a c && starts_with p' s'
  | _ :: _, [] => false
  end.

Fixpoint str_includes (s p : jsstring) : bool :=
  starts_with p s
  || match s with
     | [] => false
     | _ :: s' => str_includes s' p
     end.

(** [column || ""] on a nullable text column. *)
Definition text_or_empty (column : option jsstring) : jsstring :=
  match column with
  | Some text => text
  | None => []
  end.

(** [`${v}`] for a filter value [v] taken from [req.query]. *)
Definition filter_text (name : string) (v : value) : exec jsstring :=
  match v with
  | str text => Ok text
  | undefined => Ok (lit "undefined")
  | structured =>
      match String_of_query name with
      | Some text => Ok text
      | None => Throw
      end
  end.

(** [if (filter) query = query.eq(name, filter)]: the text the column
    is compared with, when there is a filter.  The text is built when
    [eq] is called, inside the handler's [try]. *)
Definition eq_filter (name : string) (v : value) : exec (option jsstring) :=
  if truthy v then text <- filter_text name v ;; Ok (Some text)
  else Ok None.

Definition eq_text (column : option jsstring) (text : jsstring) : bool :=
  match column with
  | Some c => eqb c text
  | None => false
  end.

(** The rows a query with that filter returns. *)
Definition where_eq (filter : option jsstring) (column : option jsstring) : bool :=
  match filter with
  | Some text => eq_text column text
  | None => true
  end.

(** The names [Object.prototype] answers to: a lookup of one of them in
    an object literal that has no such property of its own gives a
    function or an object. *)
Definition Object_prototype_names : list jsstring :=
  [lit "constructor"; lit "__defineGetter__"; lit "__defineSetter__";
   lit "hasOwnProperty"; lit "__lookupGetter__"; lit "__lookupSetter__";
   lit "isPrototypeOf"; lit "propertyIsEnumerable"; lit "toString";
   lit "valueOf"; lit "__proto__"; lit "toLocaleString"].

(** The search predicate of [GET /found-items]. *)
Definition post_matches (s : jsstring) (p : Post.t) : bool :=
  str_includes (toLowerCase (Post.item_name p)) s
  || str_includes (toLowerCase (text_or_empty (Post.item_description p))) s
  || str_includes (toLowerCase (text_or_empty (Post.category p))) s
  || str_includes (toLowerCase (text_or_empty (Post.location_found p))) s.

(** [app.get("/found-items", ...)]; [q] is [req.query]. *)
Definition get_found_items (d : db) (q : body) : listing Post.t :=
  try_catch
    (search <- sanitize (field q "search") ;;
     let filterCategory := or_else (field q "category") [] in
     category <- eq_filter "category" filterCategory ;;
     let posts :=
       newest_posts
         (filter (fun p => eqb (Post.status p) (lit "unclaimed")
                           && where_eq category (Post.category p))
                 (found_posts d)) in
     let filtered :=
       if truthy_str search
       then filter (post_matches (toLowerCase search)) posts
       else posts in
     Ok (rendered filtered search filterCategory))
    (failed (flash_redirect d "error" "Failed to load found items." "/")).

(** The search predicate of [GET /dashboard] and [GET /lost]. *)
Definition item_matches (s : jsstring) (i : Item.t) : bool :=
  str_includes (toLowerCase (Item.item_name i)) s
  || str_includes (toLowerCase (text_or_empty (Item.item_description i))) s
  || str_includes (toLowerCase (text_or_empty (Item.category i))) s.

(** [u.full_name.split(" ")[0]] *)
Definition first_name (full_name : jsstring) : jsstring :=
  hd [] (split 32%N full_name).

(** [ownerMap[user_id]] after [ownerMap[u.id] = ...] for each selected
    user, in turn: the last assignment to the key; an assignment to
    [__proto__] adds no property. *)
Definition ownerMap_get (selected : list User.t) (user_id : uuid) : value :=
  if eqb user_id (lit "__proto__") then structured
  else
    match find (fun u => eqb (User.id u) user_id) (rev selected) with
    | Some u => str (first_name (User.full_name u))
    | None =>
        if existsb (eqb user_id) Object_prototype_names then structured
        else undefined
    end.

(** [app.get("/lost", ...)] *)
Definition get_lost (d : db) (q : body) : listing Lost.t :=
  try_catch
    (search <- sanitize (field q "search") ;;
     let filterCategory := or_else (field q "category") [] in
     category <- eq_filter "category" filterCategory ;;
     let lost :=
       newest_items
         (filter (fun i => eqb (Item.item_status i) (lit "lost")
                           && where_eq category (Item.category i))
                 (items d)) in
     let filteredItems :=
       if truthy_str search
       then filter (item_matches (toLowerCase search)) lost
       else lost in
     let userIds := map Item.user_id filteredItems in
     let selected :=
       filter (fun u => existsb (eqb (User.id u)) userIds) (users d) in
     Ok (rendered
           (map (fun i =>
                   {| Lost.id := Item.id i;
                      Lost.item_name := Item.item_name i;
                      Lost.item_description := Item.item_description i;
                      Lost.category := Item.category i;
                      Lost.image_url := Item.image_url i;
                      Lost.user_id := Item.user_id i;
                      Lost.owner_first_name :=
                        or_else (ownerMap_get selected (Item.user_id i))
                          (lit "Someone") |})
                filteredItems)
           search filterCategory))
    (failed (flash_redirect d "error" "Failed to load lost board." "/")).

(** [openCounts[id] || 0] after the loop over the reports: a count,
    unless the id is a name of [Object.prototype] ([None]: no number). *)
Definition open_reports (reports : list Report.t) (id : uuid) : option nat :=
  if existsb (eqb id) Object_prototype_names then None
  else Some (length (filter (fun r => is_open r && eqb (Report.item_id r) id) reports)).

(** [itemNameMap[item_id] || "Unknown item"], with [itemNameMap] from
    [Object.fromEntries]: the last entry with the key. *)
Definition item_name_of (shown : list Item.t) (item_id : uuid) : value :=
  or_else
    match find (fun i => eqb (Item.id i) item_id) (rev shown) with
    | Some i => str (Item.item_name i)
    | None =>
        if existsb (eqb item_id) Object_prototype_names then structured
        else undefined
    end
    (lit "Unknown item").

(** What [GET /dashboard] renders: the items with their counts of open
    reports, the reports with the names of their items, and the three
    filters ([baseUrl] and [categories] are the constants above). *)
Inductive dashboard_page :=
| dashboard (shown : list (Item.t * option nat)) (reports : list (Report.t * value))
    (search : jsstring) (filterCategory filterStatus : value)
| no_dashboard (o : outcome).

(** [app.get("/dashboard", requireAuth, ...)] *)
Definition get_dashboard (d : db) (s : session) (q : body) : dashboard_page :=
  requireAuth_ s
    (no_dashboard (flash_redirect d "error" "Please login first." "/login"))
    (fun userId =>
       try_catch
         (search <- sanitize (field q "search") ;;
          let filterCategory := or_else (field q "category") [] in
          let filterStatus := or_else (field q "status") [] in
          category <- eq_filter "category" filterCategory ;;
          status <- eq_filter "status" filterStatus ;;
          let own :=
            newest_items
              (filter (fun i => eq_uuid (Item.user_id i) userId
                                && where_eq category (Item.category i)
                                && where_eq status (Some (Item.item_status i)))
                      (items d)) in
          let filteredItems :=
            if truthy_str search
            then filter (item_matches (toLowerCase search)) own
            else own in
          let itemIds := map Item.id filteredItems in
          let reports :=
            match itemIds with
            | [] => []
            | _ :: _ =>
                newest_reports
                  (filter (fun r => existsb (eqb (Report.item_id r)) itemIds)
                          (finder_reports d))
            end in
          Ok (dashboard
                (map (fun i => (i, open_reports reports (Item.id i))) filteredItems)
                (map (fun r => (r, item_name_of filteredItems (Report.item_id r)))
                     reports)
                search filterCategory filterStatus))
         (no_dashboard (flash_redirect d "error" "Failed to load dashboard." "/"))).

(** The characters a download file name is made of: [a-z], [0-9], [-]
    and [_]. *)
Definition plain_char (c : char16) : bool :=
  (N.leb 97 c && N.leb c 122) || (N.leb 48 c && N.leb c 57)
  || N.eqb c 45 || N.eqb c 95.

(** The [Content-Disposition] header of a download. *)
Definition disposition (name : jsstring) : jsstring :=
  lit "attachment; filename=" +++ quote +++ name +++ lit "-qr.png" +++ quote.

(** * Properties *)

(** ** Strings *)

Lemma eqb_eq (a b : jsstring) : eqb a b = true <-> a = b.
Proof.
  revert b; induction a as [|x a IH]; intros [|y b]; simpl;
    try (split; congruence).
  rewrite andb_true_iff, N.eqb_eq, IH. split.
  - intros [-> ->]; reflexivity.
  - intros H; injection H; auto.
Qed.

Lemma eqb_refl (a : jsstring) : eqb a a = true.
Proof. apply eqb_eq; reflexivity. Qed.

Lemma eqb_neq (a b : jsstring) : eqb a b = false <-> a <> b.
Proof.
  rewrite <- eqb_eq. destruct (eqb a b); split; congruence.
Qed.

Lemma includes_In (arr : list jsstring) (s : jsstring) :
  includes arr (str s) = true <-> In s arr.
Proof.
  simpl. rewrite existsb_exists. split.
  - intros [x [Hx He]]. apply eqb_eq in He. subst; assumption.
  - intros H. exists s. split; [assumption | apply eqb_refl].
Qed.

Lemma trimStart_suffix (s : jsstring) : exists p, s = p ++ trimStart s.
Proof.
  induction s as [|c s [p Hp]]; simpl.
  - exists []; reflexivity.
  - destruct (is_space c).
    + exists (c :: p). simpl. congruence.
    + exists []; reflexivity.
Qed.

Lemma trim_infix (s : jsstring) : exists p q, s = p ++ trim s ++ q.
Proof.
  unfold trim, trimEnd.
  destruct (trimStart_suffix s) as [p Hp].
  destruct (trimStart_suffix (rev (trimStart s))) as [q Hq].
  exists p, (rev q).
  rewrite <- rev_app_distr, <- Hq, rev_involutive. exact Hp.
Qed.

Lemma trim_length (s : jsstring) : length (trim s) <= length s.
Proof.
  destruct (trim_infix s) as [p [q H]].
  rewrite H at 2. rewrite !length_app. lia.
Qed.

Lemma trim_In (c : char16) (s : jsstring) : In c (trim s) -> In c s.
Proof.
  destruct (trim_infix s) as [p [q H]]. intros Hc.
  rewrite H. apply in_or_app; right. apply in_or_app; left. exact Hc.
Qed.

(** What [sanitize] returns on a string. *)
Lemma sanitize_str (s : jsstring) : sanitize (str s) = Ok (trim s).
Proof. destruct s; reflexivity. Qed.

Lemma sanitize_Ok (v : value) :
  v <> structured -> exists s, sanitize v = Ok s.
Proof.
  destruct v as [|s|]; intros H.
  - exists []; reflexivity.
  - exists (trim s); apply sanitize_str.
  - congruence.
Qed.

(** ** The matcher decides the language of a pattern *)

Lemma matches_nil_nullable (r : Regex.re) :
  Regex.matches r [] <-> Regex.nullable r = true.
Proof.
  split.
  - intros H. remember (@nil char16) as s eqn:E.
    induction H; simpl; try reflexivity; try discriminate.
    + apply app_eq_nil in E as [E1 E2].
      rewrite IHmatches1, IHmatches2 by assumption. reflexivity.
    + rewrite IHmatches by assumption. reflexivity.
    + rewrite IHmatches by assumption. apply orb_true_r.
  - induction r; simpl; intros H; try discriminate.
    + constructor.
    + apply andb_true_iff in H as [H1 H2].
      change (@nil char16) with (@nil char16 ++ []).
      constructor; auto.
    + apply orb_true_iff in H as [H|H];
        [apply Regex.m_alt_l | apply Regex.m_alt_r]; auto.
    + constructor.
Qed.

Lemma matches_deriv_sound (r : Regex.re) (cs : jsstring) :
  Regex.matches r cs ->
  forall c s, cs = c :: s -> Regex.matches (Regex.deriv c r) s.
Proof.
  induction 1 as [ | p c0 Hp | r1 r2 s1 s2 H1 IH1 H2 IH2 | r1 r2 s0 H0 IH0
                 | r1 r2 s0 H0 IH0 | r0 | r0 s1 s2 H1 IH1 H2 IH2 ];
    intros c s E; simpl.
  - discriminate.
  - injection E as -> <-. rewrite Hp. constructor.
  - destruct s1 as [|c1 s1]; simpl in E.
    + subst s2. apply matches_nil_nullable in H1. rewrite H1.
      apply Regex.m_alt_r. apply IH2; reflexivity.
    + injection E as -> <-.
      destruct (Regex.nullable r1);
        [apply Regex.m_alt_l |]; constructor; auto.
  - apply Regex.m_alt_l; auto.
  - apply Regex.m_alt_r; auto.
  - discriminate.
  - destruct s1 as [|c1 s1]; simpl in E.
    + apply IH2; assumption.
    + injection E as -> <-. constructor; auto.
Qed.

Lemma matches_deriv_complete (r : Regex.re) :
  forall c s, Regex.matches (Regex.deriv c r) s -> Regex.matches r (c :: s).
Proof.
  induction r as [ | | p | r1 IH1 r2 IH2 | r1 IH1 r2 IH2 | r0 IH0 ];
    intros c s H; simpl in H.
  - inversion H.
  - inversion H.
  - destruct (p c) eqn:Hp; inversion H; subst. constructor; assumption.
  - assert (Hcat : forall t, Regex.matches (Regex.Cat (Regex.deriv c r1) r2) t ->
                             Regex.matches (Regex.Cat r1 r2) (c :: t)).
    { intros t Ht. inversion Ht; subst.
      change (c :: s1 ++ s2) with ((c :: s1) ++ s2). constructor; auto. }
    destruct (Regex.nullable r1) eqn:Hn.
    + inversion H; subst; auto.
      change (c :: s) with ([] ++ c :: s). constructor; auto.
      apply matches_nil_nullable; assumption.
    + auto.
  - inversion H; subst; [apply Regex.m_alt_l | apply Regex.m_alt_r]; auto.
  - inversion H; subst.
    change (c :: s1 ++ s2) with ((c :: s1) ++ s2). constructor; auto.
Qed.

Lemma test_matches (s : jsstring) :
  forall r, Regex.test r s = true <-> Regex.matches r s.
Proof.
  induction s as [|c s IH]; intros r; simpl.
  - symmetry; apply matches_nil_nullable.
  - rewrite IH. split.
    + apply matches_deriv_complete.
    + intros H. eapply matches_deriv_sound; eauto.
Qed.

Lemma matches_class (p : char16 -> bool) (s : jsstring) :
  Regex.matches (Regex.Class p) s <-> exists c, s = [c] /\ p c = true.
Proof.
  split.
  - intros H; inversion H; subst; eauto.
  - intros [c [-> Hc]]; constructor; assumption.
Qed.

Lemma matches_star_class (p : char16 -> bool) (s : jsstring) :
  Regex.matches (Regex.Star (Regex.Class p)) s <-> forallb p s = true.
Proof.
  split.
  - intros H. remember (Regex.Star (Regex.Class p)) as r eqn:E.
    induction H as [ | | | | | | r0 s1 s2 H1 _ H2 IH2 ];
      try discriminate; [reflexivity|].
    injection E as ->. apply matches_class in H1 as [c [-> Hc]]. simpl.
    rewrite IH2 by reflexivity. rewrite Hc. reflexivity.
  - induction s as [|c s IH]; simpl; intros H.
    + constructor.
    + apply andb_true_iff in H as [Hc Hs].
      change (c :: s) with ([c] ++ s). constructor; auto.
      constructor; assumption.
Qed.

Lemma matches_plus_class (p : char16 -> bool) (s : jsstring) :
  Regex.matches (Regex.Plus (Regex.Class p)) s <->
  s <> [] /\ forallb p s = true.
Proof.
  unfold Regex.Plus. split.
  - intros H. inversion H; subst.
    apply matches_class in H2 as [c [-> Hc]].
    apply matches_star_class in H4. simpl. rewrite Hc, H4.
    split; [discriminate | reflexivity].
  - intros [Hne Hall]. destruct s as [|c s]; [congruence|].
    simpl in Hall. apply andb_true_iff in Hall as [Hc Hs].
    change (c :: s) with ([c] ++ s). constructor.
    + constructor; assumption.
    + apply matches_star_class; assumption.
Qed.

(** ** The e-mail format check *)

Lemma isValidEmail_shape (s : jsstring) :
  isValidEmail s = true <-> email_shape s.
Proof.
  unfold isValidEmail, email_pattern, email_shape. rewrite test_matches. split.
  - intros H.
    inversion H as [ | | ? ? a r1 Ha H1 | | | | ]; subst.
    inversion H1 as [ | | ? ? x r2 Hx H2 | | | | ]; subst.
    inversion H2 as [ | | ? ? b r3 Hb H3 | | | | ]; subst.
    inversion H3 as [ | | ? ? y c Hy Hc | | | | ]; subst.
    apply matches_plus_class in Ha as [Ha1 Ha2].
    apply matches_plus_class in Hb as [Hb1 Hb2].
    apply matches_plus_class in Hc as [Hc1 Hc2].
    apply matches_class in Hx as [cx [-> Hx]]. apply N.eqb_eq in Hx. subst cx.
    apply matches_class in Hy as [cy [-> Hy]]. apply N.eqb_eq in Hy. subst cy.
    exists a, b, c. simpl. repeat split; assumption.
  - intros [a [b [c [-> [Ha [Hb [Hc [Fa [Fb Fc]]]]]]]]].
    constructor; [apply matches_plus_class; auto|].
    change (at_sign :: b ++ full_stop :: c)
      with ([at_sign] ++ b ++ [full_stop] ++ c).
    constructor; [constructor; apply N.eqb_refl|].
    constructor; [apply matches_plus_class; auto|].
    constructor; [constructor; apply N.eqb_refl|].
    apply matches_plus_class; auto.
Qed.

Lemma not_space_at_no_at (l : jsstring) :
  forallb not_space_at l = true -> ~ In at_sign l.
Proof.
  intros H Hin. rewrite forallb_forall in H. apply H in Hin.
  unfold not_space_at in Hin. rewrite N.eqb_refl, orb_true_r in Hin.
  discriminate.
Qed.

Lemma split_at_unique (x : char16) (a l r r' : jsstring) :
  ~ In x a -> ~ In x r -> a ++ x :: r = l ++ x :: r' -> a = l /\ r = r'.
Proof.
  revert l. induction a as [|y a IH]; intros [|z l] Ha Hr E; simpl in E.
  - injection E as ->. auto.
  - injection E as <- ->. exfalso. apply Hr. apply in_or_app. right. left. reflexivity.
  - injection E as -> _. exfalso. apply Ha. left. reflexivity.
  - injection E as -> E.
    destruct (IH l) as [-> ->]; auto.
    intros Hin. apply Ha. right. exact Hin.
Qed.

(** An address without [@] fails the check. *)
Lemma isValidEmail_needs_at (s : jsstring) :
  ~ In at_sign s -> isValidEmail s = false.
Proof.
  intros Hno. destruct (isValidEmail s) eqn:E; [|reflexivity].
  apply isValidEmail_shape in E as [a [b [c [-> _]]]].
  exfalso. apply Hno. apply in_or_app. right. left. reflexivity.
Qed.

(** An address whose part after the [@] has no dot fails the check. *)
Lemma isValidEmail_needs_domain (local domain : jsstring) :
  ~ In full_stop domain -> isValidEmail (local ++ at_sign :: domain) = false.
Proof.
  intros Hno. destruct (isValidEmail _) eqn:E; [|reflexivity].
  apply isValidEmail_shape in E
    as [a [b [c [E [_ [_ [_ [Fa [Fb Fc]]]]]]]]].
  symmetry in E. apply split_at_unique in E as [_ E].
  - exfalso. apply Hno. rewrite <- E. apply in_or_app. right. left. reflexivity.
  - apply not_space_at_no_at; assumption.
  - intros Hin. apply in_app_or in Hin as [Hin|[Hin|Hin]].
    + revert Hin. apply not_space_at_no_at; assumption.
    + discriminate.
    + revert Hin. apply not_space_at_no_at; assumption.
Qed.

(** ** Queries that return at most one row *)

Lemma filter_none {A} (f : A -> bool) (l : list A) :
  (forall x, In x l -> f x = false) -> filter f l = [].
Proof.
  induction l as [|y l IH]; simpl; intros H; [reflexivity|].
  rewrite (H y) by (left; reflexivity). apply IH.
  intros x Hx. apply H. right. exact Hx.
Qed.

Lemma maybeSingle_none {A} (f : A -> bool) (l : list A) :
  (forall x, In x l -> f x = false) -> maybeSingle (filter f l) = None.
Proof. intros H. rewrite filter_none by assumption. reflexivity. Qed.

Lemma maybeSingle_Some {A} (f : A -> bool) (l : list A) (x : A) :
  maybeSingle (filter f l) = Some x -> In x l /\ f x = true.
Proof.
  intros H. apply filter_In.
  destruct (filter f l) as [|y [|z t]]; try discriminate.
  injection H as ->. left. reflexivity.
Qed.

(** With a key that identifies rows, a filter that pins the key returns
    the row that carries it. *)
Lemma filter_by_key {A B} (key : A -> B) (f : A -> bool) (l : list A) (x : A) :
  NoDup (map key l) -> In x l -> f x = true ->
  (forall y, In y l -> f y = true -> key y = key x) ->
  filter f l = [x].
Proof.
  induction l as [|y l IH]; simpl; intros Hnd Hin Hfx Hkey; [contradiction|].
  inversion Hnd as [|? ? Hny Hnd']; subst.
  destruct Hin as [->|Hin].
  - rewrite Hfx. f_equal. apply filter_none. intros z Hz.
    destruct (f z) eqn:Hfz; [|reflexivity].
    exfalso. apply Hny. rewrite <- (Hkey z) by auto.
    apply in_map. exact Hz.
  - destruct (f y) eqn:Hfy.
    + exfalso. apply Hny. rewrite (Hkey y) by auto.
      apply in_map. exact Hin.
    + apply IH; auto.
Qed.

Lemma maybeSingle_by_key {A B} (key : A -> B) (f : A -> bool) (l : list A) (x : A) :
  NoDup (map key l) -> In x l -> f x = true ->
  (forall y, In y l -> f y = true -> key y = key x) ->
  maybeSingle (filter f l) = Some x.
Proof.
  intros Hnd Hin Hfx Hkey.
  rewrite (filter_by_key key f l x Hnd Hin Hfx Hkey). reflexivity.
Qed.

(** When the filter returned one row, no other position of the table
    satisfies it. *)
Lemma filter_single_nth {A} (f : A -> bool) (l : list A) (x : A) :
  filter f l = [x] ->
  forall i y, nth_error l i = Some y -> f y = true -> y = x.
Proof.
  intros H i y Hi Hy.
  assert (Hin : In y (filter f l)).
  { apply filter_In. split; [eapply nth_error_In; eauto | assumption]. }
  rewrite H in Hin. destruct Hin as [->|[]]. reflexivity.
Qed.

Lemma maybeSingle_filter_inv {A} (f : A -> bool) (l : list A) (x : A) :
  maybeSingle (filter f l) = Some x -> filter f l = [x].
Proof.
  destruct (filter f l) as [|y [|z t]]; try discriminate.
  intros H; injection H as ->; reflexivity.
Qed.

Ltac split_text_fields :=
  repeat match goal with
         | H : text_fields _ _ |- _ => unfold text_fields in H
         | H : Forall _ (_ :: _) |- _ =>
             let H1 := fresh "Htext" in
             let H2 := fresh "Hrest" in
             apply Forall_cons_iff in H; destruct H as [H1 H2]
         | H : Forall _ [] |- _ => clear H
         | H : field ?b ?k <> structured |- _ =>
             let s := fresh "v" in
             let E := fresh "Ev" in
             apply sanitize_Ok in H; destruct H as [s E]
         end.

(** ** Token resolution *)

Lemma resolveToken_unbound (d : db) (token : jsstring) :
  (forall it, In it (items d) -> Item.token it <> token) ->
  resolveToken d token = None.
Proof.
  intros H. apply maybeSingle_none. intros it Hit.
  apply eqb_neq. auto.
Qed.

Lemma resolveToken_bound (d : db) (token : jsstring) (it : Item.t) :
  unique_tokens d -> In it (items d) -> Item.token it = token ->
  resolveToken d token = Some it.
Proof.
  intros Hu Hin Ht. unfold resolveToken.
  apply maybeSingle_by_key with (key := Item.token); auto.
  - apply eqb_eq; assumption.
  - intros y _ Hy. apply eqb_eq in Hy. congruence.
Qed.

Lemma resolveToken_Some (d : db) (token : jsstring) (it : Item.t) :
  resolveToken d token = Some it -> In it (items d) /\ Item.token it = token.
Proof.
  intros H. apply maybeSingle_Some in H as [Hin He].
  apply eqb_eq in He. auto.
Qed.

(** C8. A token bound to no item resolves to nothing, and both
    [/found/:token] routes answer 404 [not_found] (the POST route
    whenever its form fields are text, so that it reaches the
    resolution).  A token that resolves is equal, in full, to the token
    column of the item found: a proper prefix of a stored token does not
    resolve to its item, and two distinct tokens never resolve to the
    same item. *)
Theorem resolveToken_exact_match :
  forall (e : env) (d : db) (token : jsstring),
    ((forall it, In it (items d) -> Item.token it <> token) ->
       resolveToken d token = None
       /\ get_found_token d token = not_found d
       /\ forall b,
            text_fields b ["finder_name"; "finder_email"; "location_hint"; "message"]%string ->
            post_found_token e d token b = not_found d)
    /\ (forall it, resolveToken d token = Some it ->
          In it (items d) /\ Item.token it = token)
    /\ (forall it rest, Item.token it = token ++ rest -> rest <> [] ->
          resolveToken d token <> Some it)
    /\ (forall it token', resolveToken d token = Some it ->
          resolveToken d token' = Some it -> token' = token).
Proof.
  intros e d token. repeat split.
  - apply resolveToken_unbound; assumption.
  - unfold get_found_token. rewrite resolveToken_unbound by assumption.
    reflexivity.
  - intros b Hb. unfold post_found_token. split_text_fields.
    repeat match goal with
           | E : sanitize _ = Ok _ |- _ => rewrite E; clear E
           end.
    cbn [JS.bind try_catch].
    rewrite resolveToken_unbound by assumption. reflexivity.
  - apply resolveToken_Some in H; destruct H; assumption.
  - apply resolveToken_Some in H; destruct H; assumption.
  - intros it rest Ht Hrest Hres.
    apply resolveToken_Some in Hres as [_ Heq]. rewrite Heq in Ht.
    rewrite <- (app_nil_r token) in Ht at 1.
    apply app_inv_head in Ht. congruence.
  - intros it token' H1 H2.
    apply resolveToken_Some in H1 as [_ <-].
    apply resolveToken_Some in H2 as [_ <-]. reflexivity.
Qed.

(** ** Finder reports from the QR page *)

Lemma report_inputs_valid_dec (name email message : jsstring) :
  report_inputs_valid name email message <->
  (length name <? 2) = false /\ negb (isValidEmail email) = false
  /\ (length message <? 3) = false.
Proof.
  unfold report_inputs_valid.
  rewrite !Nat.ltb_ge, negb_false_iff. split; intros H; exact H.
Qed.

Lemma post_found_token_text (e : env) (d : db) (token : jsstring) (b : body)
    (name email location_hint message : jsstring) :
  sanitize (field b "finder_name") = Ok name ->
  sanitize (field b "finder_email") = Ok email ->
  sanitize (field b "location_hint") = Ok location_hint ->
  sanitize (field b "message") = Ok message ->
  post_found_token e d token b =
  match resolveToken d token with
  | None => not_found d
  | Some it =>
      let back := lit "/found/" +++ token in
      if length name <? 2 then
        flash_redirect' d "error" (lit "Name is too short.") back
      else if negb (isValidEmail email) then
        flash_redirect' d "error" (lit "Invalid email.") back
      else if length message <? 3 then
        flash_redirect' d "error" (lit "Message is too short.") back
      else if report_rejected e d then
        flash_redirect' d "error" (lit "Failed to submit report.") back
      else
        flash_redirect'
          (with_finder_reports d
             (finder_reports d
              ++ [finder_report_row e it name email location_hint message]))
          "success" (lit "Report submitted to owner!") back
  end.
Proof.
  intros H1 H2 H3 H4. unfold post_found_token.
  rewrite H1, H2, H3, H4. cbn [JS.bind try_catch].
  destruct (resolveToken d token); [|reflexivity].
  unfold insert_report, finder_report_row.
  destruct (length name <? 2), (negb (isValidEmail email)),
    (length message <? 3), (report_rejected e d); reflexivity.
Qed.

Lemma post_found_token_throw (e : env) (d : db) (token : jsstring) (b : body) :
  sanitize (field b "finder_name") = Throw
  \/ sanitize (field b "finder_email") = Throw
  \/ sanitize (field b "location_hint") = Throw
  \/ sanitize (field b "message") = Throw ->
  post_found_token e d token b =
  flash_redirect' d "error" (lit "Something went wrong.") (lit "/found/" +++ token).
Proof.
  intros H. unfold post_found_token.
  destruct (sanitize (field b "finder_name")); cbn [JS.bind try_catch];
    [|reflexivity].
  destruct (sanitize (field b "finder_email")); cbn [JS.bind try_catch];
    [|reflexivity].
  destruct (sanitize (field b "location_hint")); cbn [JS.bind try_catch];
    [|reflexivity].
  destruct (sanitize (field b "message")); cbn [JS.bind try_catch];
    [|reflexivity].
  destruct H as [H|[H|[H|H]]]; discriminate.
Qed.

Ltac thrown :=
  solve [repeat (first [assumption | left; assumption | right])].

Lemma sanitize_cases (v : value) :
  sanitize v = Throw \/ exists s, sanitize v = Ok s.
Proof. destruct (sanitize v) as [s|]; eauto. Qed.

(** C4. [POST /found/:token].  The store changes in one way only: one
    finder report with status [open] and the id of the item the token
    resolves to is appended, and this happens exactly when the token
    resolves, the (sanitized) name has at least 2 characters, the e-mail
    passes the format check, the message has at least 3 characters, and
    the store accepts the insert.  A token bound to no item gives 404
    [not_found] (for text form fields) and no report; a name shorter
    than 2, an e-mail failing the check (any without [@], any without a
    dot after the [@]) or a message shorter than 3 gives an error flash
    and no report.  Stated on the table: [finder_reports] afterwards is
    the table before, or the table before followed by one row that has
    status [open], the id of the resolved item and the sanitized
    inputs; no other table is written.  A form field that is an array
    or an object gives the error flash [Something went wrong.] and no
    report. *)
Theorem submit_finder_report_spec :
  forall (e : env) (d : db) (token : jsstring) (b : body),
    let o := post_found_token e d token b in
    (store o = d
     \/ exists it name email location_hint message,
          resolveToken d token = Some it
          /\ sanitize (field b "finder_name") = Ok name
          /\ sanitize (field b "finder_email") = Ok email
          /\ sanitize (field b "location_hint") = Ok location_hint
          /\ sanitize (field b "message") = Ok message
          /\ report_inputs_valid name email message
          /\ report_rejected e d = false
          /\ store o =
             with_finder_reports d
               (finder_reports d
                ++ [finder_report_row e it name email location_hint message]))
    /\ ((forall it, In it (items d) -> Item.token it <> token) ->
          store o = d
          /\ (text_fields b ["finder_name"; "finder_email"; "location_hint"; "message"]%string ->
              o = not_found d))
    /\ (forall it name email location_hint message,
          unique_tokens d -> In it (items d) -> Item.token it = token ->
          sanitize (field b "finder_name") = Ok name ->
          sanitize (field b "finder_email") = Ok email ->
          sanitize (field b "location_hint") = Ok location_hint ->
          sanitize (field b "message") = Ok message ->
          (~ report_inputs_valid name email message ->
             exists msg,
               o = flash_redirect' d "error" msg (lit "/found/" +++ token))
          /\ (report_inputs_valid name email message -> report_rejected e d = false ->
                res o = redirect (lit "/found/" +++ token)
                /\ store o =
                   with_finder_reports d
                     (finder_reports d
                      ++ [finder_report_row e it name email location_hint message])
                /\ Report.status
                     (finder_report_row e it name email location_hint message)
                   = lit "open"
                /\ Report.item_id
                     (finder_report_row e it name email location_hint message)
                   = Item.id it))
    /\ (forall raw, field b "finder_name" = str raw -> length raw < 2 -> store o = d)
    /\ (forall raw, field b "finder_email" = str raw ->
          (~ In at_sign raw
           \/ exists local domain,
                trim raw = local ++ at_sign :: domain /\ ~ In full_stop domain) ->
          store o = d)
    /\ (forall raw, field b "message" = str raw -> length raw < 3 -> store o = d)
    /\ (users (store o) = users d /\ items (store o) = items d
        /\ found_posts (store o) = found_posts d)
    /\ (finder_reports (store o) = finder_reports d
        \/ exists it row,
             resolveToken d token = Some it
             /\ finder_reports (store o) = finder_reports d ++ [row]
             /\ Report.status row = lit "open"
             /\ Report.item_id row = Item.id it
             /\ sanitize (field b "finder_name") = Ok (Report.finder_name row)
             /\ sanitize (field b "finder_email") = Ok (Report.finder_email row)
             /\ sanitize (field b "message") = Ok (Report.message row)
             /\ report_inputs_valid (Report.finder_name row)
                  (Report.finder_email row) (Report.message row))
    /\ ((forall it, In it (items d) -> Item.token it <> token) ->
        finder_reports (store o) = finder_reports d)
    /\ (forall it name email location_hint message,
          unique_tokens d -> In it (items d) -> Item.token it = token ->
          sanitize (field b "finder_name") = Ok name ->
          sanitize (field b "finder_email") = Ok email ->
          sanitize (field b "location_hint") = Ok location_hint ->
          sanitize (field b "message") = Ok message ->
          (~ report_inputs_valid name email message ->
             finder_reports (store o) = finder_reports d)
          /\ (report_inputs_valid name email message -> report_rejected e d = false ->
              exists row,
                finder_reports (store o) = finder_reports d ++ [row]
                /\ In row (finder_reports (store o))
                /\ Report.id row = nextval e
                /\ Report.status row = lit "open"
                /\ Report.item_id row = Item.id it
                /\ Report.finder_name row = name
                /\ Report.finder_email row = email
                /\ Report.location_hint row = or_null location_hint
                /\ Report.message row = message))
    /\ (forall name,
          In name ["finder_name"; "finder_email"; "location_hint"; "message"]%string ->
          field b name = structured ->
          o = flash_redirect' d "error" (lit "Something went wrong.")
                (lit "/found/" +++ token)
          /\ finder_reports (store o) = finder_reports d).
Proof.
  intros e d token b o.
  assert (Hmain :
    store o = d
     \/ exists it name email location_hint message,
          resolveToken d token = Some it
          /\ sanitize (field b "finder_name") = Ok name
          /\ sanitize (field b "finder_email") = Ok email
          /\ sanitize (field b "location_hint") = Ok location_hint
          /\ sanitize (field b "message") = Ok message
          /\ report_inputs_valid name email message
          /\ report_rejected e d = false
          /\ store o =
             with_finder_reports d
               (finder_reports d
                ++ [finder_report_row e it name email location_hint message])).
  { subst o.
    destruct (sanitize_cases (field b "finder_name")) as [T1|[name E1]];
      [left; rewrite post_found_token_throw by thrown; reflexivity|].
    destruct (sanitize_cases (field b "finder_email")) as [T2|[email E2]];
      [left; rewrite post_found_token_throw by thrown; reflexivity|].
    destruct (sanitize_cases (field b "location_hint")) as [T3|[loc E3]];
      [left; rewrite post_found_token_throw by thrown; reflexivity|].
    destruct (sanitize_cases (field b "message")) as [T4|[msg E4]];
      [left; rewrite post_found_token_throw by thrown; reflexivity|].
    rewrite (post_found_token_text e d token b name email loc msg E1 E2 E3 E4).
    destruct (resolveToken d token) as [it|] eqn:Hres; [|left; reflexivity].
    cbv zeta.
    destruct (length name <? 2) eqn:C1; [left; reflexivity|].
    destruct (negb (isValidEmail email)) eqn:C2; [left; reflexivity|].
    destruct (length msg <? 3) eqn:C3; [left; reflexivity|].
    destruct (report_rejected e d) eqn:C4; [left; reflexivity|].
    right. exists it, name, email, loc, msg.
    do 5 (split; [first [assumption | reflexivity]|]).
    split; [apply report_inputs_valid_dec; auto|].
    split; reflexivity. }
  assert (Hbound : forall it name email loc msg,
    unique_tokens d -> In it (items d) -> Item.token it = token ->
    sanitize (field b "finder_name") = Ok name ->
    sanitize (field b "finder_email") = Ok email ->
    sanitize (field b "location_hint") = Ok loc ->
    sanitize (field b "message") = Ok msg ->
    o = if length name <? 2 then
          flash_redirect' d "error" (lit "Name is too short.") (lit "/found/" +++ token)
        else if negb (isValidEmail email) then
          flash_redirect' d "error" (lit "Invalid email.") (lit "/found/" +++ token)
        else if length msg <? 3 then
          flash_redirect' d "error" (lit "Message is too short.")
            (lit "/found/" +++ token)
        else if report_rejected e d then
          flash_redirect' d "error" (lit "Failed to submit report.")
            (lit "/found/" +++ token)
        else
          flash_redirect'
            (with_finder_reports d
               (finder_reports d ++ [finder_report_row e it name email loc msg]))
            "success" (lit "Report submitted to owner!") (lit "/found/" +++ token)).
  { intros it name email loc msg Hu Hin Htok E1 E2 E3 E4. subst o.
    rewrite (post_found_token_text e d token b name email loc msg E1 E2 E3 E4).
    rewrite (resolveToken_bound d token it Hu Hin Htok). reflexivity. }
  split; [exact Hmain|].
  split; [|split; [|split; [|split; [|split; [|split; [|split; [|split; [|split]]]]]]]].
  - intros Hun. split.
    + destruct Hmain as [H|[it [n' [e' [l' [m' [Hres _]]]]]]]; [exact H|].
      rewrite resolveToken_unbound in Hres by assumption. discriminate.
    + intros Hb. subst o. unfold post_found_token. split_text_fields.
      repeat match goal with
             | E : sanitize _ = Ok _ |- _ => rewrite E; clear E
             end.
      cbn [JS.bind try_catch].
      rewrite resolveToken_unbound by assumption. reflexivity.
  - intros it name email loc msg Hu Hin Htok E1 E2 E3 E4.
    pose proof (resolveToken_bound d token it Hu Hin Htok) as Hres.
    subst o. rewrite (post_found_token_text e d token b name email loc msg E1 E2 E3 E4), Hres.
    cbv zeta. split.
    + intros Hbad. rewrite report_inputs_valid_dec in Hbad.
      destruct (length name <? 2); [eauto|].
      destruct (negb (isValidEmail email)); [eauto|].
      destruct (length msg <? 3); [eauto|].
      exfalso; apply Hbad; auto.
    + intros Hv Hins. apply report_inputs_valid_dec in Hv as [-> [-> ->]].
      rewrite Hins. repeat split; reflexivity.
  - intros raw Hraw Hlen.
    destruct Hmain as [H|[it [n' [e' [l' [m' [_ [F1 [_ [_ [_ [Hv _]]]]]]]]]]]];
      [exact H|].
    exfalso. rewrite Hraw, sanitize_str in F1. injection F1 as <-.
    destruct Hv as [Hv _]. pose proof (trim_length raw). lia.
  - intros raw Hraw Hbad.
    destruct Hmain as [H|[it [n' [e' [l' [m' [_ [_ [F2 [_ [_ [Hv _]]]]]]]]]]]];
      [exact H|].
    exfalso. rewrite Hraw, sanitize_str in F2. injection F2 as <-.
    destruct Hv as [_ [Hv _]].
    destruct Hbad as [Hno|[local [domain [Hsplit Hno]]]].
    + rewrite isValidEmail_needs_at in Hv; [discriminate|].
      intros Hin. apply Hno. apply trim_In. exact Hin.
    + rewrite Hsplit, isValidEmail_needs_domain in Hv by assumption.
      discriminate.
  - intros raw Hraw Hlen.
    destruct Hmain as [H|[it [n' [e' [l' [m' [_ [_ [_ [_ [F4 [Hv _]]]]]]]]]]]];
      [exact H|].
    exfalso. rewrite Hraw, sanitize_str in F4. injection F4 as <-.
    destruct Hv as [_ [_ Hv]]. pose proof (trim_length raw). lia.
  - destruct Hmain as [->|[it [n' [e' [l' [m' [_ [_ [_ [_ [_ [_ [_ ->]]]]]]]]]]]]];
      repeat split.
  - destruct Hmain as [->|[it [n' [e' [l' [m' [Hres [F1 [F2 [_ [F4 [Hv [_ ->]]]]]]]]]]]]];
      [left; reflexivity|].
    right. exists it, (finder_report_row e it n' e' l' m').
    repeat split; assumption || reflexivity || apply Hv.
  - intros Hun.
    destruct Hmain as [->|[it [n' [e' [l' [m' [Hres _]]]]]]]; [reflexivity|].
    rewrite resolveToken_unbound in Hres by assumption. discriminate.
  - intros it name email loc msg Hu Hin Htok E1 E2 E3 E4.
    rewrite (Hbound it name email loc msg Hu Hin Htok E1 E2 E3 E4). split.
    + intros Hbad. rewrite report_inputs_valid_dec in Hbad.
      destruct (length name <? 2); [reflexivity|].
      destruct (negb (isValidEmail email)); [reflexivity|].
      destruct (length msg <? 3); [reflexivity|].
      exfalso; apply Hbad; auto.
    + intros Hv Hins. apply report_inputs_valid_dec in Hv as [-> [-> ->]].
      rewrite Hins. exists (finder_report_row e it name email loc msg).
      cbn [store flash_redirect' finder_reports with_finder_reports].
      split; [reflexivity|].
      split; [apply in_or_app; right; left; reflexivity|].
      repeat split.
  - intros name Hname Hstruct.
    assert (Hthrow : o = flash_redirect' d "error" (lit "Something went wrong.")
                           (lit "/found/" +++ token)).
    { subst o. apply post_found_token_throw.
      destruct Hname as [<-|[<-|[<-|[<-|[]]]]]; rewrite Hstruct;
        [left | right; left | right; right; left | right; right; right];
        reflexivity. }
    rewrite Hthrow. split; reflexivity.
Qed.

(** ** Sightings from the lost board *)

Lemma select_lost_item_none (d : db) (id : jsstring) :
  (forall it, In it (items d) -> eq_uuid (Item.id it) id = true ->
              Item.item_status it <> lit "lost") ->
  select_lost_item d id = None.
Proof.
  intros H. apply maybeSingle_none. intros it Hit.
  destruct (eq_uuid (Item.id it) id) eqn:E; [|reflexivity].
  simpl. apply eqb_neq. auto.
Qed.

Lemma eq_uuid_true (col : uuid) (param : jsstring) :
  eq_uuid col param = true <-> uuid_in param = Some col.
Proof.
  unfold eq_uuid. destruct (uuid_in param) as [u|].
  - rewrite eqb_eq. split; congruence.
  - split; discriminate.
Qed.

Lemma select_lost_item_found (d : db) (id : jsstring) (it : Item.t) :
  unique_item_ids d -> In it (items d) -> uuid_in id = Some (Item.id it) ->
  Item.item_status it = lit "lost" ->
  select_lost_item d id = Some it.
Proof.
  intros Hu Hin Hid Hst. unfold select_lost_item.
  apply maybeSingle_by_key with (key := Item.id); auto.
  - apply andb_true_iff. split; [apply eq_uuid_true; assumption|].
    apply eqb_eq; assumption.
  - intros y _ Hy. apply andb_true_iff in Hy as [Hy _].
    apply eq_uuid_true in Hy. congruence.
Qed.

Lemma select_lost_item_Some (d : db) (id : jsstring) (it : Item.t) :
  select_lost_item d id = Some it ->
  In it (items d) /\ uuid_in id = Some (Item.id it)
  /\ Item.item_status it = lit "lost".
Proof.
  intros H. apply maybeSingle_Some in H as [Hin He].
  apply andb_true_iff in He as [H1 H2].
  apply eq_uuid_true in H1. apply eqb_eq in H2. auto.
Qed.

Lemma post_lost_sighting_text (e : env) (d : db) (id : jsstring) (b : body)
    (name email location message : jsstring) :
  sanitize (field b "reporter_name") = Ok name ->
  sanitize (field b "reporter_email") = Ok email ->
  sanitize (field b "location") = Ok location ->
  sanitize (field b "message") = Ok message ->
  post_lost_sighting e d id b =
  match select_lost_item d id with
  | None => flash_redirect d "error" "Item not found." "/lost"
  | Some it =>
      if length name <? 2 then
        flash_redirect d "error" "Name is too short." "/lost"
      else if negb (isValidEmail email) then
        flash_redirect d "error" "Invalid email." "/lost"
      else if length message <? 3 then
        flash_redirect d "error" "Message is too short." "/lost"
      else if report_rejected e d then
        flash_redirect d "error" "Failed to submit sighting." "/lost"
      else
        flash_redirect'
          (with_finder_reports d
             (finder_reports d ++ [sighting_row e it name email location message]))
          "success"
          (lit "Sighting reported for " +++ quote +++ Item.item_name it
             +++ quote +++ lit ". The owner has been notified!")
          (lit "/lost")
  end.
Proof.
  intros H1 H2 H3 H4. unfold post_lost_sighting.
  rewrite H1, H2, H3, H4. cbn [JS.bind try_catch].
  destruct (select_lost_item d id); [|reflexivity].
  unfold insert_report, sighting_row.
  destruct (length name <? 2), (negb (isValidEmail email)),
    (length message <? 3), (report_rejected e d); reflexivity.
Qed.

Lemma post_lost_sighting_throw (e : env) (d : db) (id : jsstring) (b : body) :
  sanitize (field b "reporter_name") = Throw
  \/ sanitize (field b "reporter_email") = Throw
  \/ sanitize (field b "location") = Throw
  \/ sanitize (field b "message") = Throw ->
  post_lost_sighting e d id b =
  flash_redirect d "error" "Something went wrong." "/lost".
Proof.
  intros H. unfold post_lost_sighting.
  destruct (sanitize (field b "reporter_name")); cbn [JS.bind try_catch];
    [|reflexivity].
  destruct (sanitize (field b "reporter_email")); cbn [JS.bind try_catch];
    [|reflexivity].
  destruct (sanitize (field b "location")); cbn [JS.bind try_catch];
    [|reflexivity].
  destruct (sanitize (field b "message")); cbn [JS.bind try_catch];
    [|reflexivity].
  destruct H as [H|[H|[H|H]]]; discriminate.
Qed.

Lemma append_row_changes (d : db) (r : Report.t) :
  with_finder_reports d (finder_reports d ++ [r]) <> d.
Proof.
  intros H. apply (f_equal (fun x => length (finder_reports x))) in H.
  simpl in H. rewrite length_app in H. simpl in H. lia.
Qed.

(** C5. [POST /lost/:id/sighting].  The store changes in one way only:
    one report is appended, with status [open], the id of the target
    item, and the message prefixed with [[Sighting] ]; this happens
    exactly when the target item exists with status [lost], the inputs
    pass the rule of the report forms and the store accepts the insert.
    An id that names no item of status [lost] gives the flash
    [Item not found.] (for text form fields) and no report.  On equal
    inputs the sighting form and the QR report form accept or reject
    alike.  Stated on the table: [finder_reports] afterwards is the
    table before, or the table before followed by one row that has
    status [open], the id of an item of status [lost], the sanitized
    inputs and the prefixed message; no other table is written, and the
    two forms leave tables of the same length.  A form field that is an
    array or an object gives the error flash [Something went wrong.]
    and no report. *)
Theorem submit_sighting_spec :
  forall (e : env) (d : db) (id : jsstring) (b : body),
    let o := post_lost_sighting e d id b in
    (store o = d
     \/ exists it name email location message,
          In it (items d) /\ uuid_in id = Some (Item.id it)
          /\ Item.item_status it = lit "lost"
          /\ sanitize (field b "reporter_name") = Ok name
          /\ sanitize (field b "reporter_email") = Ok email
          /\ sanitize (field b "location") = Ok location
          /\ sanitize (field b "message") = Ok message
          /\ report_inputs_valid name email message
          /\ report_rejected e d = false
          /\ store o =
             with_finder_reports d
               (finder_reports d ++ [sighting_row e it name email location message]))
    /\ ((forall it, In it (items d) -> eq_uuid (Item.id it) id = true ->
                    Item.item_status it <> lit "lost") ->
          store o = d
          /\ (text_fields b ["reporter_name"; "reporter_email"; "location"; "message"]%string ->
              o = flash_redirect d "error" "Item not found." "/lost"))
    /\ (forall it name email location message,
          unique_item_ids d -> In it (items d) ->
          uuid_in id = Some (Item.id it) -> Item.item_status it = lit "lost" ->
          sanitize (field b "reporter_name") = Ok name ->
          sanitize (field b "reporter_email") = Ok email ->
          sanitize (field b "location") = Ok location ->
          sanitize (field b "message") = Ok message ->
          (~ report_inputs_valid name email message ->
             exists msg, o = flash_redirect d "error" msg "/lost")
          /\ (report_inputs_valid name email message -> report_rejected e d = false ->
                res o = redirect (lit "/lost")
                /\ store o =
                   with_finder_reports d
                     (finder_reports d
                      ++ [sighting_row e it name email location message])
                /\ Report.status (sighting_row e it name email location message)
                   = lit "open"
                /\ Report.message (sighting_row e it name email location message)
                   = lit "[Sighting] " ++ message
                /\ Report.item_id (sighting_row e it name email location message)
                   = Item.id it))
    /\ (forall token b' it it' name email location location' message,
          select_lost_item d id = Some it ->
          resolveToken d token = Some it' ->
          sanitize (field b "reporter_name") = Ok name ->
          sanitize (field b' "finder_name") = Ok name ->
          sanitize (field b "reporter_email") = Ok email ->
          sanitize (field b' "finder_email") = Ok email ->
          sanitize (field b "location") = Ok location ->
          sanitize (field b' "location_hint") = Ok location' ->
          sanitize (field b "message") = Ok message ->
          sanitize (field b' "message") = Ok message ->
          (store o = d <-> store (post_found_token e d token b') = d)
          /\ option_map type (session_flash o)
             = option_map type (session_flash (post_found_token e d token b'))
          /\ length (finder_reports (store o))
             = length (finder_reports (store (post_found_token e d token b'))))
    /\ (users (store o) = users d /\ items (store o) = items d
        /\ found_posts (store o) = found_posts d)
    /\ (finder_reports (store o) = finder_reports d
        \/ exists it row,
             In it (items d) /\ uuid_in id = Some (Item.id it)
             /\ Item.item_status it = lit "lost"
             /\ finder_reports (store o) = finder_reports d ++ [row]
             /\ Report.status row = lit "open"
             /\ Report.item_id row = Item.id it
             /\ sanitize (field b "reporter_name") = Ok (Report.finder_name row)
             /\ sanitize (field b "reporter_email") = Ok (Report.finder_email row)
             /\ (exists message,
                   sanitize (field b "message") = Ok message
                   /\ Report.message row = lit "[Sighting] " ++ message
                   /\ report_inputs_valid (Report.finder_name row)
                        (Report.finder_email row) message))
    /\ ((forall it, In it (items d) -> eq_uuid (Item.id it) id = true ->
                    Item.item_status it <> lit "lost") ->
        finder_reports (store o) = finder_reports d)
    /\ (forall it name email location message,
          unique_item_ids d -> In it (items d) ->
          uuid_in id = Some (Item.id it) -> Item.item_status it = lit "lost" ->
          sanitize (field b "reporter_name") = Ok name ->
          sanitize (field b "reporter_email") = Ok email ->
          sanitize (field b "location") = Ok location ->
          sanitize (field b "message") = Ok message ->
          (~ report_inputs_valid name email message ->
             finder_reports (store o) = finder_reports d)
          /\ (report_inputs_valid name email message -> report_rejected e d = false ->
              exists row,
                finder_reports (store o) = finder_reports d ++ [row]
                /\ In row (finder_reports (store o))
                /\ Report.id row = nextval e
                /\ Report.status row = lit "open"
                /\ Report.item_id row = Item.id it
                /\ Report.finder_name row = name
                /\ Report.finder_email row = email
                /\ Report.location_hint row = or_null location
                /\ Report.message row = lit "[Sighting] " ++ message))
    /\ (forall name,
          In name ["reporter_name"; "reporter_email"; "location"; "message"]%string ->
          field b name = structured ->
          o = flash_redirect d "error" "Something went wrong." "/lost"
          /\ finder_reports (store o) = finder_reports d).
Proof.
  intros e d id b o.
  assert (Hmain :
    (store o = d
     \/ exists it name email location message,
          In it (items d) /\ uuid_in id = Some (Item.id it)
          /\ Item.item_status it = lit "lost"
          /\ sanitize (field b "reporter_name") = Ok name
          /\ sanitize (field b "reporter_email") = Ok email
          /\ sanitize (field b "location") = Ok location
          /\ sanitize (field b "message") = Ok message
          /\ report_inputs_valid name email message
          /\ report_rejected e d = false
          /\ store o =
             with_finder_reports d
               (finder_reports d ++ [sighting_row e it name email location message]))).
  { subst o.
    destruct (sanitize_cases (field b "reporter_name")) as [T1|[name E1]];
      [left; rewrite post_lost_sighting_throw by thrown; reflexivity|].
    destruct (sanitize_cases (field b "reporter_email")) as [T2|[email E2]];
      [left; rewrite post_lost_sighting_throw by thrown; reflexivity|].
    destruct (sanitize_cases (field b "location")) as [T3|[loc E3]];
      [left; rewrite post_lost_sighting_throw by thrown; reflexivity|].
    destruct (sanitize_cases (field b "message")) as [T4|[msg E4]];
      [left; rewrite post_lost_sighting_throw by thrown; reflexivity|].
    rewrite (post_lost_sighting_text e d id b name email loc msg E1 E2 E3 E4).
    destruct (select_lost_item d id) as [it|] eqn:Hsel; [|left; reflexivity].
    apply select_lost_item_Some in Hsel as [Hin [Hid Hst]].
    destruct (length name <? 2) eqn:C1; [left; reflexivity|].
    destruct (negb (isValidEmail email)) eqn:C2; [left; reflexivity|].
    destruct (length msg <? 3) eqn:C3; [left; reflexivity|].
    destruct (report_rejected e d) eqn:C4; [left; reflexivity|].
    right. exists it, name, email, loc, msg.
    do 7 (split; [first [assumption | reflexivity]|]).
    split; [apply report_inputs_valid_dec; auto|].
    split; reflexivity. }
  split; [exact Hmain|].
  split; [|split; [|split; [|split; [|split; [|split; [|split]]]]]].
  - intros Hnone. pose proof (select_lost_item_none d id Hnone) as Hsel.
    split.
    + subst o.
      destruct (sanitize_cases (field b "reporter_name")) as [T1|[name E1]];
        [rewrite post_lost_sighting_throw by thrown; reflexivity|].
      destruct (sanitize_cases (field b "reporter_email")) as [T2|[email E2]];
        [rewrite post_lost_sighting_throw by thrown; reflexivity|].
      destruct (sanitize_cases (field b "location")) as [T3|[loc E3]];
        [rewrite post_lost_sighting_throw by thrown; reflexivity|].
      destruct (sanitize_cases (field b "message")) as [T4|[msg E4]];
        [rewrite post_lost_sighting_throw by thrown; reflexivity|].
      rewrite (post_lost_sighting_text e d id b name email loc msg E1 E2 E3 E4).
      rewrite Hsel. reflexivity.
    + intros Hb. subst o. split_text_fields.
      erewrite post_lost_sighting_text by eassumption.
      rewrite Hsel. reflexivity.
  - intros it name email loc msg Hu Hin Hid Hst E1 E2 E3 E4.
    pose proof (select_lost_item_found d id it Hu Hin Hid Hst) as Hsel.
    subst o.
    rewrite (post_lost_sighting_text e d id b name email loc msg E1 E2 E3 E4), Hsel.
    split.
    + intros Hbad. rewrite report_inputs_valid_dec in Hbad.
      destruct (length name <? 2); [eauto|].
      destruct (negb (isValidEmail email)); [eauto|].
      destruct (length msg <? 3); [eauto|].
      exfalso; apply Hbad; auto.
    + intros Hv Hins. apply report_inputs_valid_dec in Hv as [-> [-> ->]].
      rewrite Hins. repeat split; reflexivity.
  - intros token b' it it' name email loc loc' msg Hsel Hres
      E1 F1 E2 F2 E3 F3 E4 F4.
    subst o.
    rewrite (post_lost_sighting_text e d id b name email loc msg E1 E2 E3 E4), Hsel.
    rewrite (post_found_token_text e d token b' name email loc' msg F1 F2 F3 F4), Hres.
    cbv zeta.
    destruct (length name <? 2);
      [split; [split; reflexivity | split; reflexivity]|].
    destruct (negb (isValidEmail email));
      [split; [split; reflexivity | split; reflexivity]|].
    destruct (length msg <? 3);
      [split; [split; reflexivity | split; reflexivity]|].
    destruct (report_rejected e d);
      [split; [split; reflexivity | split; reflexivity]|].
    split; [|split; [reflexivity|]].
    + simpl. split; intros H; exfalso; revert H; apply append_row_changes.
    + cbn [store flash_redirect' finder_reports with_finder_reports].
      rewrite !length_app. reflexivity.
  - destruct Hmain
      as [->|[it [n' [e' [l' [m' [_ [_ [_ [_ [_ [_ [_ [_ [_ ->]]]]]]]]]]]]]]];
      repeat split.
  - destruct Hmain
      as [->|[it [n' [e' [l' [m' [Hin [Hid [Hst [F1 [F2 [_ [F4 [Hv [_ ->]]]]]]]]]]]]]]];
      [left; reflexivity|].
    right. exists it, (sighting_row e it n' e' l' m').
    do 3 (split; [assumption|]).
    split; [reflexivity|]. split; [reflexivity|]. split; [reflexivity|].
    split; [exact F1|]. split; [exact F2|].
    exists m'. split; [exact F4|]. split; [reflexivity | exact Hv].
  - intros Hnone. pose proof (select_lost_item_none d id Hnone) as Hsel.
    destruct Hmain
      as [->|[it [n' [e' [l' [m' [Hin [Hid [Hst _]]]]]]]]]; [reflexivity|].
    exfalso. apply (Hnone it Hin); [apply eq_uuid_true; exact Hid | exact Hst].
  - intros it name email loc msg Hu Hin Hid Hst E1 E2 E3 E4.
    pose proof (select_lost_item_found d id it Hu Hin Hid Hst) as Hsel.
    subst o.
    rewrite (post_lost_sighting_text e d id b name email loc msg E1 E2 E3 E4), Hsel.
    split.
    + intros Hbad. rewrite report_inputs_valid_dec in Hbad.
      destruct (length name <? 2); [reflexivity|].
      destruct (negb (isValidEmail email)); [reflexivity|].
      destruct (length msg <? 3); [reflexivity|].
      exfalso; apply Hbad; auto.
    + intros Hv Hins. apply report_inputs_valid_dec in Hv as [-> [-> ->]].
      rewrite Hins. exists (sighting_row e it name email loc msg).
      cbn [store flash_redirect' finder_reports with_finder_reports].
      split; [reflexivity|].
      split; [apply in_or_app; right; left; reflexivity|].
      repeat split.
  - intros name Hname Hstruct.
    assert (Hthrow : o = flash_redirect d "error" "Something went wrong." "/lost").
    { subst o. apply post_lost_sighting_throw.
      destruct Hname as [<-|[<-|[<-|[<-|[]]]]]; rewrite Hstruct;
        [left | right; left | right; right; left | right; right; right];
        reflexivity. }
    rewrite Hthrow. split; reflexivity.
Qed.

(** ** Registering an item *)

Lemma item_name_valid_dec (name : jsstring) :
  item_name_valid name <->
  negb (truthy_str name) || (150 <? length name) = false.
Proof.
  unfold item_name_valid. rewrite orb_false_iff, Nat.ltb_ge, negb_false_iff.
  destruct name as [|c name]; simpl; split; intros H.
  - lia.
  - destruct H; discriminate.
  - split; [reflexivity | lia].
  - lia.
Qed.

Lemma requireAuth_logged_in (s : session) (userId : uuid) (d : db)
    (next : uuid -> outcome) :
  logged_in s userId -> requireAuth s d next = next userId.
Proof. intros [-> H]. unfold requireAuth. rewrite H. reflexivity. Qed.

Lemma post_dashboard_text (e : env) (d : db) (s : session) (userId : uuid)
    (b : body) (file : option (list byte)) (name description : jsstring) :
  logged_in s userId ->
  sanitize (field b "item_name") = Ok name ->
  sanitize (field b "item_description") = Ok description ->
  post_dashboard e d s b file =
  if negb (truthy_str name) || (150 <? length name) then
    flash_redirect d "error" "Item name is required (max 150 characters)."
      "/dashboard"
  else
    match item_image e file with
    | Throw => flash_redirect d "error" "Something went wrong." "/dashboard"
    | Ok image_url =>
        if item_rejected e d then
          flash_redirect d "error" "Failed to register item." "/dashboard"
        else
          flash_redirect
            (with_items d
               (items d
                ++ [item_row e userId name description (field b "category")
                      image_url]))
            "success" "Item registered and QR generated." "/dashboard"
    end.
Proof.
  intros Hs H1 H2. unfold post_dashboard.
  rewrite (requireAuth_logged_in s userId d _ Hs).
  rewrite H1, H2. cbn [JS.bind try_catch].
  destruct (negb (truthy_str name) || (150 <? length name)); [reflexivity|].
  fold (item_image e file).
  destruct (item_image e file) as [image_url|]; cbn [JS.bind try_catch];
    [|reflexivity].
  unfold insert_item, item_row, item_rejected. cbn [Item.id Item.token].
  destruct (insert_error e || item_taken d (gen_random_uuid e) (generateToken (randomBytes e)));
    reflexivity.
Qed.


(** When the transcoder rejects the picture, [uploadImage] throws: the
    handler's [catch] answers and no item is created. *)
Lemma post_dashboard_transcoder_rejects (e : env) (d : db) (s : session)
    (userId : uuid) (b : body) (buffer : list byte) (name description : jsstring) :
  logged_in s userId ->
  sanitize (field b "item_name") = Ok name ->
  sanitize (field b "item_description") = Ok description ->
  item_name_valid name ->
  sharp_jpeg buffer = None ->
  post_dashboard e d s b (Some buffer)
  = flash_redirect d "error" "Something went wrong." "/dashboard".
Proof.
  intros Hs E1 E2 Hv Hsharp.
  rewrite (post_dashboard_text e d s userId b (Some buffer) name description Hs E1 E2).
  apply item_name_valid_dec in Hv. rewrite Hv.
  unfold item_image, uploadImage. rewrite Hsharp. reflexivity.
Qed.


(** ** Posting a found item *)



(** ** Categories *)





(** ** Which tables a request writes *)

(** A scrutinee that holds no further case analysis. *)
Ltac innermost x :=
  lazymatch x with
  | context [match _ with _ => _ end] => fail
  | _ => idtac
  end.

Ltac case_handler :=
  repeat (cbn [JS.bind try_catch store found_posts finder_reports items users
               flash_redirect flash_redirect' not_found forbidden
               with_items with_finder_reports with_found_posts
               claim_missing claim_done];
          match goal with
          | |- context [match ?x with _ => _ end] => innermost x; destruct x
          | |- context [JS.bind ?m _] => destruct m
          end).

Lemma requests_keep_found_posts (e : env) (d : db) (r : request) :
  match r with
  | POST_found_items _ _ | POST_found_items_claim _ _ => False
  | _ => True
  end ->
  found_posts (store (handle e d r)) = found_posts d.
Proof.
  destruct r; intros H; try contradiction; clear H;
    unfold handle, post_dashboard, post_lost_sighting, get_found_token,
      post_found_token, post_report_resolve, post_item_status,
      post_item_delete, requireAuth, insert_item, insert_report;
    case_handler; reflexivity.
Qed.

Lemma post_found_items_appends (e : env) (d : db) (b : body)
    (file : option (list byte)) :
  exists extra,
    found_posts (store (post_found_items e d b file)) = found_posts d ++ extra.
Proof.
  unfold post_found_items, insert_post.
  case_handler; (exists []; rewrite app_nil_r; reflexivity) || (eexists; reflexivity).
Qed.

Lemma claim_cases (d : db) (s : session) (id : number) :
  store (post_found_items_claim d s id) = d
  \/ exists post,
       claim_select d id = Some post
       /\ store (post_found_items_claim d s id) = claim_update d post.
Proof.
  unfold post_found_items_claim, requireAuth.
  destruct s as [u|]; [|left; reflexivity].
  destruct (truthy_str u); [|left; reflexivity].
  destruct (claim_select d id) as [post|]; [|left; reflexivity].
  right. exists post. split; reflexivity.
Qed.

Lemma set_status_same (p : Post.t) (v : jsstring) :
  Post.status p = v -> Post.set_status v p = p.
Proof. destruct p; simpl; intros ->; reflexivity. Qed.

(** A row of [found_posts] with status [claimed] is left as it is, at its
    place, by every request. *)
Lemma claimed_stays_claimed (e : env) (d : db) (r : request) (i : nat) (p : Post.t) :
  nth_error (found_posts d) i = Some p ->
  Post.status p = lit "claimed" ->
  nth_error (found_posts (store (handle e d r))) i = Some p.
Proof.
  intros Hi Hp.
  assert (Hkeep : found_posts (store (handle e d r)) = found_posts d ->
                  nth_error (found_posts (store (handle e d r))) i = Some p)
    by (intros ->; exact Hi).
  destruct r; try (apply Hkeep; apply requests_keep_found_posts; exact I).
  - simpl handle. destruct (post_found_items_appends e d b file) as [extra ->].
    rewrite nth_error_app1; [exact Hi|].
    apply nth_error_Some. congruence.
  - simpl handle. destruct (claim_cases d s id) as [->|[post [_ ->]]];
      [exact Hi|].
    unfold claim_update. simpl. rewrite nth_error_map, Hi. simpl.
    destruct (Z.eqb (Post.id p) (Post.id post)); [|reflexivity].
    rewrite set_status_same by assumption. reflexivity.
Qed.

Lemma claimed_stays_claimed_forever (rs : list (env * request)) :
  forall (d : db) (i : nat) (p : Post.t),
    nth_error (found_posts d) i = Some p ->
    Post.status p = lit "claimed" ->
    nth_error (found_posts (serve d rs)) i = Some p.
Proof.
  induction rs as [|[e r] rs IH]; intros d i p Hi Hp; simpl.
  - exact Hi.
  - apply IH; [|exact Hp]. apply claimed_stays_claimed; assumption.
Qed.

(** ** Claiming a found post *)

Lemma claim_select_none (d : db) (id : number) :
  (forall p, In p (found_posts d) -> eq_bigint (Post.id p) id = true ->
             Post.status p <> lit "unclaimed") ->
  claim_select d id = None.
Proof.
  intros H. apply maybeSingle_none. intros p Hp.
  destruct (eq_bigint (Post.id p) id) eqn:E; [|reflexivity].
  simpl. apply eqb_neq. auto.
Qed.

Lemma eq_bigint_same (a b : Z) (id : number) :
  eq_bigint a id = true -> eq_bigint b id = true -> a = b.
Proof.
  destruct id as [z|]; simpl; [|discriminate].
  rewrite !Z.eqb_eq. congruence.
Qed.

Lemma claim_select_found (d : db) (id : number) (p : Post.t) :
  unique_post_ids d -> In p (found_posts d) ->
  eq_bigint (Post.id p) id = true -> Post.status p = lit "unclaimed" ->
  claim_select d id = Some p.
Proof.
  intros Hu Hin Hid Hst. unfold claim_select.
  apply maybeSingle_by_key with (key := Post.id); auto.
  - rewrite Hid. apply eqb_eq. assumption.
  - intros y _ Hy. apply andb_true_iff in Hy as [Hy _].
    eapply eq_bigint_same; eauto.
Qed.

Lemma claim_select_after_update (d : db) (id : number) (p : Post.t) :
  eq_bigint (Post.id p) id = true ->
  claim_select (claim_update d p) id = None.
Proof.
  intros Hid. apply claim_select_none. intros q Hq Hqid.
  unfold claim_update in Hq. simpl in Hq. apply in_map_iff in Hq as [q0 [Hq0 _]].
  destruct (Z.eqb (Post.id q0) (Post.id p)) eqn:E.
  - subst q. simpl. discriminate.
  - subst q. apply Z.eqb_neq in E. exfalso. apply E.
    eapply eq_bigint_same; eauto.
Qed.

Lemma claim_logged_in (d : db) (s : session) (userId : uuid) (id : number) :
  logged_in s userId ->
  post_found_items_claim d s id =
  match claim_select d id with
  | None => claim_missing d
  | Some post => claim_done (claim_update d post) post
  end.
Proof.
  intros Hs. unfold post_found_items_claim.
  rewrite (requireAuth_logged_in s userId d _ Hs). reflexivity.
Qed.

(** C6. [POST /found-items/:id/claim] for a logged-in user, requests
    served one after the other.  When no post has the id, or the post
    with the id is not [unclaimed] (so when it is [claimed]), the answer
    is the error flash and the store is unchanged.  When the post with
    the id is [unclaimed] it becomes [claimed], the other posts stay, and
    a second claim of it is refused.  The answer does not depend on who
    the logged-in user is.  No request changes a [claimed] post, now or
    later. *)
Theorem claim_found_post_spec :
  forall (d : db) (s : session) (userId : uuid) (id : number),
    logged_in s userId ->
    let o := post_found_items_claim d s id in
    ((forall p, In p (found_posts d) -> eq_bigint (Post.id p) id = true ->
                Post.status p <> lit "unclaimed") ->
       o = claim_missing d /\ store o = d)
    /\ (forall p,
          unique_post_ids d -> In p (found_posts d) ->
          eq_bigint (Post.id p) id = true ->
          Post.status p = lit "unclaimed" ->
          o = claim_done (claim_update d p) p
          /\ In (Post.set_status (lit "claimed") p) (found_posts (store o))
          /\ (forall q, In q (found_posts d) -> Post.id q <> Post.id p ->
                        In q (found_posts (store o)))
          /\ (forall s' userId',
                logged_in s' userId' ->
                post_found_items_claim (store o) s' id = claim_missing (store o)))
    /\ (forall s' userId',
          logged_in s' userId' -> post_found_items_claim d s' id = o)
    /\ (forall e r i p,
          nth_error (found_posts d) i = Some p ->
          Post.status p = lit "claimed" ->
          nth_error (found_posts (store (handle e d r))) i = Some p)
    /\ (forall rs i p,
          nth_error (found_posts d) i = Some p ->
          Post.status p = lit "claimed" ->
          nth_error (found_posts (serve d rs)) i = Some p).
Proof.
  intros d s userId id Hs o. subst o.
  rewrite (claim_logged_in d s userId id Hs).
  split; [|split; [|split; [|split]]].
  - intros H. rewrite claim_select_none by assumption. split; reflexivity.
  - intros p Hu Hin Hid Hst.
    rewrite (claim_select_found d id p Hu Hin Hid Hst).
    split; [reflexivity|]. cbn [claim_done flash_redirect' store].
    split; [|split].
    + unfold claim_update. simpl. apply in_map_iff. exists p.
      rewrite Z.eqb_refl. auto.
    + intros q Hq Hne. unfold claim_update. simpl. apply in_map_iff. exists q.
      apply Z.eqb_neq in Hne. rewrite Hne. auto.
    + intros s' userId' Hs'.
      rewrite (claim_logged_in (claim_update d p) s' userId' id Hs').
      rewrite (claim_select_after_update d id p Hid). reflexivity.
  - intros s' userId' Hs'. apply claim_logged_in with (userId := userId').
    exact Hs'.
  - intros e r i p. apply claimed_stays_claimed.
  - intros rs i p. apply claimed_stays_claimed_forever.
Qed.

(** ** Resolving a finder report *)

Lemma resolve_logged_in (d : db) (s : session) (userId : uuid) (id : number) :
  logged_in s userId ->
  post_report_resolve d s id =
  match resolve_select_report d id with
  | None => not_found d
  | Some report =>
      if not_owned_by userId (resolve_select_item d report) then forbidden d
      else flash_redirect (resolve_update d report)
             "success" "Report marked as resolved." "/dashboard"
  end.
Proof.
  intros Hs. unfold post_report_resolve.
  rewrite (requireAuth_logged_in s userId d _ Hs). reflexivity.
Qed.

Lemma resolve_select_report_found (d : db) (id : number) (r : Report.t) :
  unique_report_ids d -> In r (finder_reports d) ->
  eq_bigint (Report.id r) id = true ->
  resolve_select_report d id = Some r.
Proof.
  intros Hu Hin Hid. unfold resolve_select_report.
  apply maybeSingle_by_key with (key := Report.id); auto.
  intros y _ Hy. eapply eq_bigint_same; eauto.
Qed.

Lemma resolve_select_item_found (d : db) (r : Report.t) (it : Item.t) :
  unique_item_ids d -> In it (items d) -> Item.id it = Report.item_id r ->
  resolve_select_item d r = Some it.
Proof.
  intros Hu Hin Hid. unfold resolve_select_item, single.
  apply maybeSingle_by_key with (key := Item.id); auto.
  - apply eqb_eq. assumption.
  - intros y _ Hy. apply eqb_eq in Hy. congruence.
Qed.

Lemma not_owned_by_false (userId : uuid) (item : option Item.t) :
  not_owned_by userId item = false <->
  exists it, item = Some it /\ Item.user_id it = userId.
Proof.
  destruct item as [it|]; simpl.
  - rewrite negb_false_iff, eqb_eq. split.
    + intros H. exists it. auto.
    + intros [it' [E H]]. injection E as <-. exact H.
  - split; [discriminate | intros [it' [E _]]; discriminate].
Qed.

(** C1. [POST /report/:id/resolve] for a logged-in user.  When no report
    has the id the answer is 404 [not_found].  When the report exists,
    its parent item is looked up, and unless the user is the owner of
    that item the answer is 403 [Forbidden] and the store is unchanged.
    The store changes only by setting to [resolved] the report with the
    id, and only when the user owns its parent item: the report stored
    under that id then has status [resolved] and its other columns as
    before, every other report stays as it is at its place, and no
    other table is written.  A report whose parent item the user does
    not own is left as it is by the call, whatever id was requested. *)
Theorem resolve_report_spec :
  forall (d : db) (s : session) (userId : uuid) (id : number),
    logged_in s userId ->
    let o := post_report_resolve d s id in
    ((forall r, In r (finder_reports d) -> eq_bigint (Report.id r) id = false) ->
       o = not_found d)
    /\ (forall r,
          unique_report_ids d -> In r (finder_reports d) ->
          eq_bigint (Report.id r) id = true ->
          (forall it, In it (items d) -> Item.id it = Report.item_id r ->
                      Item.user_id it <> userId) ->
          o = forbidden d /\ store o = d)
    /\ (forall r it,
          unique_report_ids d -> unique_item_ids d ->
          In r (finder_reports d) -> eq_bigint (Report.id r) id = true ->
          In it (items d) -> Item.id it = Report.item_id r ->
          Item.user_id it = userId ->
          res o = redirect (lit "/dashboard")
          /\ store o = resolve_update d r
          /\ In (Report.set_status (lit "resolved") r) (finder_reports (store o))
          /\ (exists x,
                In x (finder_reports (store o))
                /\ Report.id x = Report.id r
                /\ Report.status x = lit "resolved"
                /\ Report.item_id x = Report.item_id r
                /\ Report.finder_name x = Report.finder_name r
                /\ Report.finder_email x = Report.finder_email r
                /\ Report.location_hint x = Report.location_hint r
                /\ Report.message x = Report.message r)
          /\ (forall x, In x (finder_reports (store o)) ->
                Report.id x = Report.id r -> Report.status x = lit "resolved")
          /\ (forall i x, nth_error (finder_reports d) i = Some x ->
                Report.id x <> Report.id r ->
                nth_error (finder_reports (store o)) i = Some x)
          /\ length (finder_reports (store o)) = length (finder_reports d)
          /\ users (store o) = users d
          /\ items (store o) = items d
          /\ found_posts (store o) = found_posts d)
    /\ (store o = d
        \/ exists r it,
             In r (finder_reports d) /\ eq_bigint (Report.id r) id = true
             /\ In it (items d) /\ Item.id it = Report.item_id r
             /\ Item.user_id it = userId
             /\ store o = resolve_update d r)
    /\ (forall i r,
          nth_error (finder_reports d) i = Some r ->
          (forall it, In it (items d) -> Item.id it = Report.item_id r ->
                      Item.user_id it <> userId) ->
          nth_error (finder_reports (store o)) i = Some r).
Proof.
  intros d s userId id Hs o. subst o.
  rewrite (resolve_logged_in d s userId id Hs).
  split; [|split; [|split; [|split]]].
  - intros H. unfold resolve_select_report.
    rewrite maybeSingle_none by assumption. reflexivity.
  - intros r Hu Hin Hid Hnot.
    rewrite (resolve_select_report_found d id r Hu Hin Hid).
    destruct (not_owned_by userId (resolve_select_item d r)) eqn:E;
      [split; reflexivity|].
    apply not_owned_by_false in E as [it [Hsel Hown]].
    apply maybeSingle_Some in Hsel as [Hit He]. apply eqb_eq in He.
    exfalso. exact (Hnot it Hit He Hown).
  - intros r it Hur Hui Hin Hid Hit Hpar Hown.
    rewrite (resolve_select_report_found d id r Hur Hin Hid).
    rewrite (resolve_select_item_found d r it Hui Hit Hpar).
    simpl not_owned_by. rewrite Hown, eqb_refl. simpl.
    split; [reflexivity|]. split; [reflexivity|].
    assert (Hnew : In (Report.set_status (lit "resolved") r)
                     (map (fun r0 => if Z.eqb (Report.id r0) (Report.id r)
                                     then Report.set_status (lit "resolved") r0
                                     else r0)
                          (finder_reports d))).
    { apply in_map_iff. exists r. rewrite Z.eqb_refl. auto. }
    split; [exact Hnew|].
    split; [exists (Report.set_status (lit "resolved") r);
            split; [exact Hnew | repeat split]|].
    split.
    { intros x Hx Hidx. apply in_map_iff in Hx as [x0 [<- Hx0]].
      destruct (Z.eqb (Report.id x0) (Report.id r)) eqn:E; [reflexivity|].
      apply Z.eqb_neq in E. contradiction. }
    split.
    { intros i x Hi Hne. rewrite nth_error_map, Hi. simpl.
      apply Z.eqb_neq in Hne. rewrite Hne. reflexivity. }
    split; [apply length_map|]. repeat split.
  - destruct (resolve_select_report d id) as [r|] eqn:Hr; [|left; reflexivity].
    destruct (not_owned_by userId (resolve_select_item d r)) eqn:E;
      [left; reflexivity|].
    apply not_owned_by_false in E as [it [Hsel Hown]].
    apply maybeSingle_Some in Hsel as [Hit He]. apply eqb_eq in He.
    apply maybeSingle_Some in Hr as [Hin Hid].
    right. exists r, it. repeat split; assumption.
  - intros i r Hi Hnot.
    destruct (resolve_select_report d id) as [r0|] eqn:Hr; [|exact Hi].
    destruct (not_owned_by userId (resolve_select_item d r0)) eqn:E;
      [exact Hi|].
    apply not_owned_by_false in E as [it [Hsel Hown]].
    apply maybeSingle_Some in Hsel as [Hit He]. apply eqb_eq in He.
    unfold resolve_select_report in Hr.
    pose proof (maybeSingle_Some _ _ _ Hr) as [_ Hid0].
    apply maybeSingle_filter_inv in Hr.
    simpl. rewrite nth_error_map, Hi. simpl.
    destruct (Z.eqb (Report.id r) (Report.id r0)) eqn:Eid; [|reflexivity].
    exfalso. apply Z.eqb_eq in Eid.
    assert (Hr0 : r = r0).
    { apply (filter_single_nth _ _ _ Hr i r Hi).
      rewrite Eid. exact Hid0. }
    subst r0. exact (Hnot it Hit He Hown).
Qed.

(** ** Changing the status of an item *)

Lemma select_item_found (d : db) (id : jsstring) (it : Item.t) :
  unique_item_ids d -> In it (items d) -> uuid_in id = Some (Item.id it) ->
  select_item d id = Some it.
Proof.
  intros Hu Hin Hid. unfold select_item.
  apply maybeSingle_by_key with (key := Item.id); auto.
  - apply eq_uuid_true. assumption.
  - intros y _ Hy. apply eq_uuid_true in Hy. congruence.
Qed.

Lemma post_item_status_logged_in (d : db) (s : session) (userId : uuid)
    (id : jsstring) (b : body) :
  logged_in s userId ->
  post_item_status d s id b =
  match select_item d id with
  | None => flash_redirect d "error" "Item not found." "/dashboard"
  | Some it =>
      if negb (eqb (Item.user_id it) userId) then
        flash_redirect d "error" "Item not found." "/dashboard"
      else
        match field b "item_status" with
        | str v =>
            if includes allowed (str v) then
              flash_redirect' (update_item_status d it v) "success"
                (lit "Item marked as " +++ v +++ lit ".") (lit "/dashboard")
            else flash_redirect d "error" "Invalid status." "/dashboard"
        | _ => flash_redirect d "error" "Invalid status." "/dashboard"
        end
  end.
Proof.
  intros Hs. unfold post_item_status.
  rewrite (requireAuth_logged_in s userId d _ Hs). cbv zeta.
  destruct (select_item d id) as [it|]; [|reflexivity].
  simpl not_owned_by.
  destruct (negb (eqb (Item.user_id it) userId)); [reflexivity|].
  destruct (field b "item_status") as [|v|]; try reflexivity.
  destruct (includes allowed (str v)); reflexivity.
Qed.


(** ** Primary keys and unique tokens are kept *)

Lemma NoDup_map_snoc {A B} (f : A -> B) (l : list A) (x : A) :
  NoDup (map f l) -> ~ In (f x) (map f l) -> NoDup (map f (l ++ [x])).
Proof.
  intros Hnd Hx. rewrite map_app. simpl.
  apply NoDup_app; [exact Hnd | repeat constructor; intros [] |].
  intros y Hy [<-|[]]. exact (Hx Hy).
Qed.

Lemma filter_keeps_keys {K R} (key : R -> K) (keep : R -> bool) (rows : list R) :
  NoDup (map key rows) -> NoDup (map key (filter keep rows)).
Proof.
  intros Hnd. induction rows as [|x rows IH]; simpl; [constructor|].
  simpl in Hnd. apply NoDup_cons_iff in Hnd as [Hx Hrows].
  destruct (keep x); simpl; [|exact (IH Hrows)].
  constructor; [|exact (IH Hrows)].
  intros Hin. apply Hx. apply in_map_iff in Hin as [y [Hy Hin]].
  apply filter_In in Hin as [Hin _]. rewrite <- Hy. apply in_map. exact Hin.
Qed.

Lemma existsb_false_not_In {A B} (f : A -> B) (q : A -> bool) (l : list A) (k : B) :
  (forall y, f y = k -> q y = true) ->
  existsb q l = false -> ~ In k (map f l).
Proof.
  intros Hq He Hin. apply in_map_iff in Hin as [y [Hy Hin]].
  assert (Ht : existsb q l = true) by (apply existsb_exists; eauto).
  congruence.
Qed.

Lemma insert_item_consistent (e : env) (d d' : db) (row : uuid -> Item.t) :
  (forall id, Item.id (row id) = id) ->
  consistent d -> insert_item e d row = Some d' -> consistent d'.
Proof.
  intros Hrow [Hi [Ht [Hr Hp]]] Hins. unfold insert_item in Hins. cbv zeta in Hins.
  destruct (insert_error e
            || item_taken d (Item.id (row (gen_random_uuid e)))
                 (Item.token (row (gen_random_uuid e)))) eqn:E; [discriminate|].
  injection Hins as <-. apply orb_false_iff in E as [_ E].
  unfold item_taken in E.
  split; [|split; [|split]]; try assumption.
  - apply NoDup_map_snoc; [exact Hi|].
    apply (existsb_false_not_In Item.id _ _ _) with (2 := E).
    intros y Hy. rewrite Hy, eqb_refl. reflexivity.
  - apply NoDup_map_snoc; [exact Ht|].
    apply (existsb_false_not_In Item.token _ _ _) with (2 := E).
    intros y Hy. rewrite Hy, eqb_refl. apply orb_true_r.
Qed.

Lemma insert_report_consistent (e : env) (d d' : db) (row : Z -> Report.t) :
  (forall id, Report.id (row id) = id) ->
  consistent d -> insert_report e d row = Some d' -> consistent d'.
Proof.
  intros Hrow [Hi [Ht [Hr Hp]]] Hins. unfold insert_report, report_rejected in Hins.
  destruct (insert_error e
            || existsb (fun r => Z.eqb (Report.id r) (nextval e)) (finder_reports d))
    eqn:E; [discriminate|].
  injection Hins as <-. apply orb_false_iff in E as [_ E].
  split; [|split; [|split]]; try assumption.
  apply NoDup_map_snoc; [exact Hr|]. rewrite Hrow.
  apply (existsb_false_not_In Report.id _ _ _) with (2 := E).
  intros y Hy. apply Z.eqb_eq. exact Hy.
Qed.

Lemma insert_post_consistent (e : env) (d d' : db) (row : Z -> Post.t) :
  (forall id, Post.id (row id) = id) ->
  consistent d -> insert_post e d row = Some d' -> consistent d'.
Proof.
  intros Hrow [Hi [Ht [Hr Hp]]] Hins. unfold insert_post, post_rejected in Hins.
  destruct (insert_error e
            || existsb (fun p => Z.eqb (Post.id p) (nextval e)) (found_posts d))
    eqn:E; [discriminate|].
  injection Hins as <-. apply orb_false_iff in E as [_ E].
  split; [|split; [|split]]; try assumption.
  apply NoDup_map_snoc; [exact Hp|]. rewrite Hrow.
  apply (existsb_false_not_In Post.id _ _ _) with (2 := E).
  intros y Hy. apply Z.eqb_eq. exact Hy.
Qed.

Lemma claim_update_consistent (d : db) (post : Post.t) :
  consistent d -> consistent (claim_update d post).
Proof.
  intros [Hi [Ht [Hr Hp]]]. split; [|split; [|split]]; try assumption.
  unfold unique_post_ids, claim_update. simpl. rewrite map_map.
  erewrite map_ext; [exact Hp|].
  intros q. destruct (Z.eqb (Post.id q) (Post.id post)); reflexivity.
Qed.

Lemma resolve_update_consistent (d : db) (report : Report.t) :
  consistent d -> consistent (resolve_update d report).
Proof.
  intros [Hi [Ht [Hr Hp]]]. split; [|split; [|split]]; try assumption.
  unfold unique_report_ids, resolve_update. simpl. rewrite map_map.
  erewrite map_ext; [exact Hr|].
  intros q. destruct (Z.eqb (Report.id q) (Report.id report)); reflexivity.
Qed.

Lemma update_item_status_consistent (d : db) (it : Item.t) (v : jsstring) :
  consistent d -> consistent (update_item_status d it v).
Proof.
  intros [Hi [Ht [Hr Hp]]]. split; [|split; [|split]]; try assumption.
  - unfold unique_item_ids, update_item_status. simpl. rewrite map_map.
    erewrite map_ext; [exact Hi|].
    intros q. destruct (eqb (Item.id q) (Item.id it)); reflexivity.
  - unfold unique_tokens, update_item_status. simpl. rewrite map_map.
    erewrite map_ext; [exact Ht|].
    intros q. destruct (eqb (Item.id q) (Item.id it)); reflexivity.
Qed.

Lemma delete_consistent (d : db) (p : Report.t -> bool) (q : Item.t -> bool) :
  consistent d ->
  consistent
    (with_items (with_finder_reports d (filter p (finder_reports d)))
       (filter q (items d))).
Proof.
  intros [Hi [Ht [Hr Hp]]]. split; [|split; [|split]]; try assumption.
  - apply filter_keeps_keys. exact Hi.
  - apply filter_keeps_keys. exact Ht.
  - apply filter_keeps_keys. exact Hr.
Qed.

Ltac case_handler_eq :=
  repeat (cbn [JS.bind try_catch store flash_redirect flash_redirect' not_found
               forbidden claim_missing claim_done];
          match goal with
          | |- context [match insert_item ?e ?d ?row with _ => _ end] =>
              destruct (insert_item e d row) eqn:?
          | |- context [match insert_report ?e ?d ?row with _ => _ end] =>
              destruct (insert_report e d row) eqn:?
          | |- context [match insert_post ?e ?d ?row with _ => _ end] =>
              destruct (insert_post e d row) eqn:?
          | |- context [match ?x with _ => _ end] => innermost x; destruct x
          | |- context [JS.bind ?m _] => destruct m
          end).

(** Every request leaves a consistent store consistent. *)
Lemma handle_consistent (e : env) (d : db) (r : request) :
  consistent d -> consistent (store (handle e d r)).
Proof.
  intros H.
  destruct r;
    unfold handle, post_dashboard, post_lost_sighting, get_found_token,
      post_found_token, post_found_items, post_found_items_claim,
      post_report_resolve, post_item_status, post_item_delete, requireAuth;
    case_handler_eq;
    first [ exact H
          | eapply insert_item_consistent; [| exact H | eassumption]; reflexivity
          | eapply insert_report_consistent; [| exact H | eassumption]; reflexivity
          | eapply insert_post_consistent; [| exact H | eassumption]; reflexivity
          | apply claim_update_consistent; exact H
          | apply resolve_update_consistent; exact H
          | apply (update_item_status_consistent d _ _ H)
          | exact (delete_consistent d _ _ H) ].
Qed.

Lemma serve_consistent (rs : list (env * request)) :
  forall d, consistent d -> consistent (serve d rs).
Proof.
  induction rs as [|[e r] rs IH]; intros d H; simpl; [exact H|].
  apply IH. apply handle_consistent. exact H.
Qed.

(** ** Requests in flight *)

(** A task run alone is the handler. *)
Lemma claim_task_alone (d : db) (s : session) (userId : uuid) (id : number)
    (t2 : task) :
  logged_in s userId ->
  let o := post_found_items_claim d s id in
  exists n,
    interleave (repeat true n) d (await_claim_select id) t2
    = (store o, respond o, t2).
Proof.
  intros Hs o. subst o. rewrite (claim_logged_in d s userId id Hs).
  destruct (claim_select d id) as [post|] eqn:E.
  - exists 2. simpl. rewrite E. reflexivity.
  - exists 1. simpl. rewrite E. reflexivity.
Qed.

Lemma claim_update_marks (d : db) (p : Post.t) :
  In p (found_posts d) ->
  In (Post.set_status (lit "claimed") p) (found_posts (claim_update d p)).
Proof.
  intros Hin. unfold claim_update. simpl. apply in_map_iff.
  exists p. rewrite Z.eqb_refl. auto.
Qed.

Lemma claim_update_twice (d : db) (p : Post.t) :
  claim_update (claim_update d p) p = claim_update d p.
Proof.
  unfold claim_update, with_found_posts. simpl. f_equal. rewrite map_map.
  apply map_ext. intros q.
  destruct (Z.eqb (Post.id q) (Post.id p)) eqn:E; simpl; rewrite E; reflexivity.
Qed.

Lemma resolve_update_keeps_ids (d : db) (r : Report.t) :
  map Report.id (finder_reports (resolve_update d r))
  = map Report.id (finder_reports d).
Proof.
  unfold resolve_update. simpl. rewrite map_map. apply map_ext.
  intros q. destruct (Z.eqb (Report.id q) (Report.id r)); reflexivity.
Qed.

(** C9, as the code has it.  Two claims of the same [unclaimed] post by
    logged-in users: when one request is served after the other, exactly
    one goes through and the other gets the error flash; when both
    selects run before either update, both go through.  In every case
    the post ends [claimed].  Resolving has no guard on the status: the
    owner's second resolve of a report goes through like the first. *)
Theorem concurrent_claims :
  forall (d : db) (id : number) (p : Post.t),
    unique_post_ids d -> In p (found_posts d) ->
    eq_bigint (Post.id p) id = true -> Post.status p = lit "unclaimed" ->
    (forall schedule, In schedule serial_schedules ->
       exists d' t1 t2,
         interleave schedule d (await_claim_select id) (await_claim_select id)
         = (d', t1, t2)
         /\ xorb (claim_succeeded t1) (claim_succeeded t2) = true
         /\ xorb (claim_refused t1) (claim_refused t2) = true
         /\ d' = claim_update d p)
    /\ (forall schedule, In schedule racing_schedules ->
          exists d' t1 t2,
            interleave schedule d (await_claim_select id) (await_claim_select id)
            = (d', t1, t2)
            /\ claim_succeeded t1 = true /\ claim_succeeded t2 = true
            /\ d' = claim_update d p)
    /\ In (Post.set_status (lit "claimed") p) (found_posts (claim_update d p))
    /\ (forall s userId rid r it,
          logged_in s userId ->
          unique_report_ids d -> unique_item_ids d ->
          In r (finder_reports d) -> eq_bigint (Report.id r) rid = true ->
          In it (items d) -> Item.id it = Report.item_id r ->
          Item.user_id it = userId ->
          let o1 := post_report_resolve d s rid in
          let o2 := post_report_resolve (store o1) s rid in
          option_map type (session_flash o1) = Some (lit "success")
          /\ option_map type (session_flash o2) = Some (lit "success")
          /\ store o2 = store o1).
Proof.
  intros d id p Hu Hin Hid Hst.
  pose proof (claim_select_found d id p Hu Hin Hid Hst) as Hsel.
  pose proof (claim_select_after_update d id p Hid) as Hgone.
  split; [|split; [|split]].
  - intros schedule Hs. unfold serial_schedules in Hs.
    destruct Hs as [<-|[<-|[]]]; simpl; rewrite Hsel; simpl; rewrite Hgone;
      do 3 eexists; (split; [reflexivity|]); repeat split; reflexivity.
  - intros schedule Hs. unfold racing_schedules in Hs.
    destruct Hs as [<-|[<-|[<-|[<-|[]]]]]; simpl; rewrite Hsel; simpl;
      rewrite ?Hsel; simpl; do 3 eexists; (split; [reflexivity|]);
      rewrite claim_update_twice; repeat split; reflexivity.
  - apply claim_update_marks. exact Hin.
  - intros s userId rid r it Hs Hur Hui Hr Hrid Hit Hpar Hown o1 o2.
    subst o2 o1.
    rewrite (resolve_logged_in d s userId rid Hs).
    rewrite (resolve_select_report_found d rid r Hur Hr Hrid).
    rewrite (resolve_select_item_found d r it Hui Hit Hpar).
    simpl not_owned_by. rewrite Hown, eqb_refl. simpl negb. cbv iota.
    split; [reflexivity|].
    cbn [store flash_redirect].
    rewrite (resolve_logged_in (resolve_update d r) s userId rid Hs).
    assert (Hr' : resolve_select_report (resolve_update d r) rid
                  = Some (Report.set_status (lit "resolved") r)).
    { apply resolve_select_report_found.
      - unfold unique_report_ids. rewrite resolve_update_keeps_ids. exact Hur.
      - unfold resolve_update. simpl. apply in_map_iff. exists r.
        rewrite Z.eqb_refl. auto.
      - exact Hrid. }
    rewrite Hr'.
    assert (Hit' : resolve_select_item (resolve_update d r)
                     (Report.set_status (lit "resolved") r) = Some it).
    { apply resolve_select_item_found; assumption. }
    rewrite Hit'. simpl not_owned_by. rewrite Hown, eqb_refl. simpl negb.
    cbv iota. split; [reflexivity|].
    cbn [store flash_redirect]. unfold resolve_update, with_finder_reports.
    simpl. f_equal. rewrite map_map. apply map_ext. intros q.
    destruct (Z.eqb (Report.id q) (Report.id r)) eqn:E; simpl; rewrite E;
      reflexivity.
Qed.

(** ** What a request may write *)

Lemma insert_item_Some (e : env) (d d' : db) (row : uuid -> Item.t) :
  insert_item e d row = Some d' ->
  d' = with_items d (items d ++ [row (gen_random_uuid e)])
  /\ item_taken d (Item.id (row (gen_random_uuid e)))
       (Item.token (row (gen_random_uuid e))) = false.
Proof.
  unfold insert_item. cbv zeta.
  destruct (insert_error e
            || item_taken d (Item.id (row (gen_random_uuid e)))
                 (Item.token (row (gen_random_uuid e)))) eqn:E; [discriminate|].
  intros H. injection H as <-. apply orb_false_iff in E as [_ E].
  split; [reflexivity | exact E].
Qed.

Lemma insert_report_Some (e : env) (d d' : db) (row : Z -> Report.t) :
  insert_report e d row = Some d' ->
  d' = with_finder_reports d (finder_reports d ++ [row (nextval e)])
  /\ existsb (fun r => Z.eqb (Report.id r) (nextval e)) (finder_reports d) = false.
Proof.
  unfold insert_report, report_rejected.
  destruct (insert_error e
            || existsb (fun r => Z.eqb (Report.id r) (nextval e)) (finder_reports d))
    eqn:E; [discriminate|].
  intros H. injection H as <-. apply orb_false_iff in E as [_ E].
  split; [reflexivity | exact E].
Qed.

Lemma insert_post_Some (e : env) (d d' : db) (row : Z -> Post.t) :
  insert_post e d row = Some d' ->
  d' = with_found_posts d (found_posts d ++ [row (nextval e)])
  /\ existsb (fun p => Z.eqb (Post.id p) (nextval e)) (found_posts d) = false.
Proof.
  unfold insert_post, post_rejected.
  destruct (insert_error e
            || existsb (fun p => Z.eqb (Post.id p) (nextval e)) (found_posts d))
    eqn:E; [discriminate|].
  intros H. injection H as <-. apply orb_false_iff in E as [_ E].
  split; [reflexivity | exact E].
Qed.

(** Case analysis of a handler that keeps what each test found. *)
Ltac case_handler_keep :=
  repeat (cbn [JS.bind try_catch store flash_redirect flash_redirect' not_found
               forbidden claim_missing claim_done];
          match goal with
          | |- context [match ?x with _ => _ end] => innermost x; destruct x eqn:?
          | |- context [JS.bind ?m _] => destruct m eqn:?
          end);
  cbn [JS.bind try_catch store flash_redirect flash_redirect' not_found
       forbidden claim_missing claim_done].

Ltac new_row :=
  match goal with
  | H : insert_item _ _ _ = Some _ |- _ =>
      apply insert_item_Some in H as [-> ?]
  | H : insert_report _ _ _ = Some _ |- _ =>
      apply insert_report_Some in H as [-> ?]
  | H : insert_post _ _ _ = Some _ |- _ =>
      apply insert_post_Some in H as [-> ?]
  end.

Lemma handle_effect (e : env) (d : db) (r : request) :
  effect (actor r) d (store (handle e d r)).
Proof.
  destruct r; simpl handle; simpl actor;
    unfold session_user, requireAuth_.
  - unfold post_dashboard, requireAuth.
    case_handler_keep; try apply no_write;
      new_row; (apply item_added; [reflexivity | reflexivity | assumption]).
  - unfold post_lost_sighting.
    case_handler_keep; try apply no_write; new_row;
      match goal with
      | H : select_lost_item _ _ = Some ?it |- _ =>
          apply maybeSingle_Some in H as [Hin _];
          eapply (report_added _ _ _ it);
          [exact Hin | reflexivity | reflexivity | assumption]
      end.
  - unfold get_found_token. case_handler_keep; apply no_write.
  - unfold post_found_token.
    case_handler_keep; try apply no_write; new_row;
      match goal with
      | H : resolveToken _ _ = Some ?it |- _ =>
          apply maybeSingle_Some in H as [Hin _];
          eapply (report_added _ _ _ it);
          [exact Hin | reflexivity | reflexivity | assumption]
      end.
  - unfold post_found_items.
    case_handler_keep; try apply no_write;
      new_row; (apply post_added; [reflexivity | assumption]).
  - unfold post_found_items_claim, requireAuth.
    case_handler_keep; try apply no_write.
    eapply post_claimed; [reflexivity | eassumption].
  - unfold post_report_resolve, requireAuth.
    case_handler_keep; try apply no_write.
    match goal with
    | H : not_owned_by _ _ = false |- _ =>
        apply not_owned_by_false in H as [it [Hit Hown]]
    end.
    eapply report_resolved; [reflexivity | eassumption | exact Hit | exact Hown].
  - unfold post_item_status, requireAuth. cbv zeta.
    case_handler_keep; try apply no_write.
    match goal with
    | H : not_owned_by _ _ = false |- _ =>
        apply not_owned_by_false in H as [it [Hit Hown]]
    end.
    match goal with
    | H : negb (includes allowed _) = false |- _ =>
        apply negb_false_iff in H
    end.
    injection Hit as <-.
    match goal with
    | H : includes allowed (str ?v) = true |- _ =>
        apply includes_In in H;
        match goal with
        | S : select_item _ ?id = Some ?t |- effect ?w _ _ =>
            change (effect w d (update_item_status d t v));
            eapply (status_set w d _ id t v);
            [reflexivity | exact S | exact Hown | exact H]
        end
    end.
  - unfold post_item_delete, requireAuth.
    case_handler_keep; try apply no_write.
    match goal with
    | H : negb (eqb _ _) = false |- _ =>
        apply negb_false_iff, eqb_eq in H
    end.
    eapply item_deleted; [reflexivity | eassumption | assumption].
Qed.

(** The row a query found is the only row of the table with its key. *)
Lemma select_item_only (d : db) (id : jsstring) (it x : Item.t) :
  select_item d id = Some it -> In x (items d) -> Item.id x = Item.id it ->
  x = it.
Proof.
  intros Hsel Hx Hid. unfold select_item in Hsel.
  pose proof (maybeSingle_Some _ _ _ Hsel) as [_ Hit].
  apply maybeSingle_filter_inv in Hsel.
  assert (Hin : In x (filter (fun r => eq_uuid (Item.id r) id) (items d))).
  { apply filter_In. split; [exact Hx|]. rewrite Hid. exact Hit. }
  rewrite Hsel in Hin. destruct Hin as [<-|[]]. reflexivity.
Qed.

Lemma resolve_select_report_only (d : db) (id : number) (report x : Report.t) :
  resolve_select_report d id = Some report -> In x (finder_reports d) ->
  Report.id x = Report.id report -> x = report.
Proof.
  intros Hsel Hx Hid. unfold resolve_select_report in Hsel.
  pose proof (maybeSingle_Some _ _ _ Hsel) as [_ Hit].
  apply maybeSingle_filter_inv in Hsel.
  assert (Hin : In x (filter (fun r => eq_bigint (Report.id r) id) (finder_reports d))).
  { apply filter_In. split; [exact Hx|]. rewrite Hid. exact Hit. }
  rewrite Hsel in Hin. destruct Hin as [<-|[]]. reflexivity.
Qed.

Lemma effect_reports_have_items (who : option uuid) (d d' : db) :
  effect who d d' -> reports_have_items d -> reports_have_items d'.
Proof.
  intros Heff H.
  destruct Heff as [ | row _ _ _ | row it Hit Hrow _ _ | row _ _
                   | userId id post _ _ | userId id report it _ _ _ _
                   | userId id it v _ _ _ _ | userId id it _ _ _ ];
    unfold reports_have_items in *; simpl.
  - exact H.
  - intros r Hr. destruct (H r Hr) as [it [Hin Hid]]. exists it.
    split; [apply in_or_app; left; exact Hin | exact Hid].
  - intros r Hr. apply in_app_or in Hr as [Hr|[<-|[]]].
    + exact (H r Hr).
    + exists it. split; [exact Hit | symmetry; exact Hrow].
  - exact H.
  - exact H.
  - intros r Hr. apply in_map_iff in Hr as [r0 [<- Hr0]].
    destruct (H r0 Hr0) as [it' [Hin Hid]]. exists it'. split; [exact Hin|].
    destruct (Z.eqb (Report.id r0) (Report.id report)); exact Hid.
  - intros r Hr. destruct (H r Hr) as [it' [Hin Hid]].
    exists (if eqb (Item.id it') (Item.id it)
            then Item.set_item_status v it' else it').
    split.
    + apply in_map_iff. exists it'. split; [reflexivity | exact Hin].
    + destruct (eqb (Item.id it') (Item.id it)); exact Hid.
  - intros r Hr. apply filter_In in Hr as [Hr Hkeep].
    destruct (H r Hr) as [it' [Hin Hid]]. exists it'. split; [|exact Hid].
    apply filter_In. split; [exact Hin|]. rewrite Hid. exact Hkeep.
Qed.

Lemma effect_statuses_known (who : option uuid) (d d' : db) :
  effect who d d' -> statuses_known d -> statuses_known d'.
Proof.
  intros Heff [Hi [Hr Hp]].
  destruct Heff as [ | row _ Hrow _ | row it _ _ Hrow _ | row Hrow _
                   | userId id post _ _ | userId id report it _ _ _ _
                   | userId id it v _ _ _ Hv | userId id it _ _ _ ];
    unfold statuses_known; simpl; (split; [|split]); try assumption.
  - intros x Hx. apply in_app_or in Hx as [Hx|[<-|[]]]; [exact (Hi x Hx)|].
    rewrite Hrow. left. reflexivity.
  - intros x Hx. apply in_app_or in Hx as [Hx|[<-|[]]]; [exact (Hr x Hx)|].
    rewrite Hrow. left. reflexivity.
  - intros x Hx. apply in_app_or in Hx as [Hx|[<-|[]]]; [exact (Hp x Hx)|].
    rewrite Hrow. left. reflexivity.
  - intros x Hx. apply in_map_iff in Hx as [x0 [<- Hx0]].
    destruct (Z.eqb (Post.id x0) (Post.id post)); [|exact (Hp x0 Hx0)].
    right. left. reflexivity.
  - intros x Hx. apply in_map_iff in Hx as [x0 [<- Hx0]].
    destruct (Z.eqb (Report.id x0) (Report.id report)); [|exact (Hr x0 Hx0)].
    right. left. reflexivity.
  - intros x Hx. apply in_map_iff in Hx as [x0 [<- Hx0]].
    destruct (eqb (Item.id x0) (Item.id it)); [exact Hv | exact (Hi x0 Hx0)].
  - intros x Hx. apply filter_In in Hx as [Hx _]. exact (Hi x Hx).
  - intros x Hx. apply filter_In in Hx as [Hx _]. exact (Hr x Hx).
Qed.

(** X1. Whatever requests are served, one after the other, every finder
    report stays attached to an item of the store: a request that
    creates a report has found its item, and the request that deletes
    an item deletes the reports on it first. *)
Theorem reports_keep_their_items (rs : list (env * request)) :
  forall d, reports_have_items d -> reports_have_items (serve d rs).
Proof.
  induction rs as [|[e r] rs IH]; intros d H; simpl; [exact H|].
  apply IH. exact (effect_reports_have_items _ _ _ (handle_effect e d r) H).
Qed.

(** X2. The status columns never leave their value sets: an item is
    [active], [lost] or [recovered], a report [open] or [resolved], a
    found post [unclaimed] or [claimed], after any sequence of requests. *)
Theorem statuses_stay_known (rs : list (env * request)) :
  forall d, statuses_known d -> statuses_known (serve d rs).
Proof.
  induction rs as [|[e r] rs IH]; intros d H; simpl; [exact H|].
  apply IH. exact (effect_statuses_known _ _ _ (handle_effect e d r) H).
Qed.

(** On the routes of [request], a request without a session writes
    nothing but one new row: it leaves [users] and [items] as they are,
    and the reports and found posts that exist stay in place and
    unchanged; what it may add is one report with status [open] or one
    post with status [unclaimed]. *)
Lemma table_requests_only_append (e : env) (d : db) (r : request) :
  actor r = None ->
  users (store (handle e d r)) = users d
  /\ items (store (handle e d r)) = items d
  /\ (exists new,
        finder_reports (store (handle e d r)) = finder_reports d ++ new
        /\ length new <= 1
        /\ Forall (fun x => Report.status x = lit "open") new)
  /\ (exists new,
        found_posts (store (handle e d r)) = found_posts d ++ new
        /\ length new <= 1
        /\ Forall (fun x => Post.status x = lit "unclaimed") new).
Proof.
  intros Hwho. pose proof (handle_effect e d r) as Heff. rewrite Hwho in Heff.
  assert (Hnil : forall (A : Type) (P : A -> Prop) (l : list A),
            exists new, l = l ++ new /\ length new <= 1 /\ Forall P new).
  { intros A P l. exists []. rewrite app_nil_r.
    split; [reflexivity | split; [apply Nat.le_0_l | constructor]]. }
  destruct Heff as [ | row Hw _ _ | row it _ _ Hrow _ | row Hrow _
                   | userId id post Hw _ | userId id report it Hw _ _ _
                   | userId id it v Hw _ _ _ | userId id it Hw _ _ ];
    try discriminate Hw; simpl;
    (split; [reflexivity | split; [reflexivity | split]]); try apply Hnil.
  - exists [row]. split; [reflexivity | split; [apply Nat.le_refl|]].
    constructor; [exact Hrow | constructor].
  - exists [row]. split; [reflexivity | split; [apply Nat.le_refl|]].
    constructor; [exact Hrow | constructor].
Qed.

(** X4. A request touches no row of another user: every item the
    requesting user does not own is in the store afterwards, unchanged,
    and so is every report on items the user does not own.  This holds
    for every route and every input, also without a session. *)
Theorem other_users_rows_untouched (e : env) (d : db) (r : request) :
  (forall it, In it (items d) -> actor r <> Some (Item.user_id it) ->
     In it (items (store (handle e d r))))
  /\ (forall rep, In rep (finder_reports d) ->
        (forall it, In it (items d) -> Item.id it = Report.item_id rep ->
           actor r <> Some (Item.user_id it)) ->
        In rep (finder_reports (store (handle e d r)))).
Proof.
  pose proof (handle_effect e d r) as Heff.
  destruct Heff as [ | row _ _ _ | row it _ _ _ _ | row _ _
                   | userId id post _ _ | userId id report it Hw Hsel Hitem Hown
                   | userId id it v Hw Hsel Hown _ | userId id it Hw Hsel Hown ];
    simpl; split; try (intros x Hx _; exact Hx);
    try (intros x Hx _; apply in_or_app; left; exact Hx).
  - intros x Hx Hother. apply in_map_iff. exists x. split; [|exact Hx].
    destruct (Z.eqb (Report.id x) (Report.id report)) eqn:E; [|reflexivity].
    exfalso. apply Z.eqb_eq in E.
    rewrite (resolve_select_report_only d id report x Hsel Hx E) in Hother.
    apply maybeSingle_Some in Hitem as [Hin Hid]. apply eqb_eq in Hid.
    apply (Hother it Hin Hid). rewrite Hw, Hown. reflexivity.
  - intros x Hx Hother. apply in_map_iff. exists x. split; [|exact Hx].
    destruct (eqb (Item.id x) (Item.id it)) eqn:E; [|reflexivity].
    exfalso. apply eqb_eq in E.
    rewrite (select_item_only d id it x Hsel Hx E) in Hother.
    apply Hother. rewrite Hw, Hown. reflexivity.
  - intros x Hx Hother. apply filter_In. split; [exact Hx|].
    apply negb_true_iff. apply eqb_neq. intros E.
    rewrite (select_item_only d id it x Hsel Hx E) in Hother.
    apply Hother. rewrite Hw, Hown. reflexivity.
  - intros x Hx Hother. apply filter_In. split; [exact Hx|].
    apply negb_true_iff. apply eqb_neq. intros E.
    apply maybeSingle_Some in Hsel as [Hin _].
    apply (Hother it Hin (eq_sym E)). rewrite Hw, Hown. reflexivity.
Qed.

(** ** Deleting an item *)

Lemma same_key_same_row {K R} (key : R -> K) (rows : list R) (x y : R) :
  NoDup (map key rows) -> In x rows -> In y rows -> key x = key y -> x = y.
Proof.
  induction rows as [|z rows IH]; simpl; intros Hnd Hx Hy Hk; [contradiction|].
  apply NoDup_cons_iff in Hnd as [Hz Hnd].
  destruct Hx as [->|Hx], Hy as [->|Hy].
  - reflexivity.
  - exfalso. apply Hz. rewrite Hk. apply in_map. exact Hy.
  - exfalso. apply Hz. rewrite <- Hk. apply in_map. exact Hx.
  - exact (IH Hnd Hx Hy Hk).
Qed.

Lemma post_item_delete_logged_in (d : db) (s : session) (userId : uuid)
    (id : jsstring) :
  logged_in s userId ->
  post_item_delete d s id =
  match select_item d id with
  | Some it =>
      if negb (eqb (Item.user_id it) userId) then
        flash_redirect d "error" "Item not found." "/dashboard"
      else flash_redirect (delete_item d it) "success" "Item deleted." "/dashboard"
  | None => flash_redirect d "error" "Item not found." "/dashboard"
  end.
Proof.
  intros Hs. unfold post_item_delete.
  rewrite (requireAuth_logged_in s userId d _ Hs). reflexivity.
Qed.

(** X5. [POST /item/:id/delete] by a logged-in user.  When no item with
    the id belongs to the user (there is none, or it is someone else's),
    the answer is the error flash [Item not found.] and the store is
    unchanged.  When the user owns the item, exactly that item leaves
    [items] and exactly the reports on it leave [finder_reports]; users
    and found posts are untouched; afterwards the id selects nothing, a
    second delete is refused, and the item's QR link answers 404. *)
Theorem delete_item_spec (d : db) (s : session) (userId : uuid) (id : jsstring) :
  logged_in s userId ->
  ((forall it, In it (items d) -> uuid_in id = Some (Item.id it) ->
      Item.user_id it <> userId) ->
   post_item_delete d s id
   = flash_redirect d "error" "Item not found." "/dashboard")
  /\ (forall it,
        unique_item_ids d -> In it (items d) ->
        uuid_in id = Some (Item.id it) -> Item.user_id it = userId ->
        exists d',
          post_item_delete d s id
          = flash_redirect d' "success" "Item deleted." "/dashboard"
          /\ (forall x, In x (items d') <-> In x (items d) /\ x <> it)
          /\ (forall r, In r (finder_reports d') <->
                In r (finder_reports d) /\ Report.item_id r <> Item.id it)
          /\ users d' = users d
          /\ found_posts d' = found_posts d
          /\ select_item d' id = None
          /\ post_item_delete d' s id
             = flash_redirect d' "error" "Item not found." "/dashboard"
          /\ (unique_tokens d ->
              get_found_token d' (Item.token it) = not_found d')).
Proof.
  intros Hs. split.
  - intros Hother. rewrite (post_item_delete_logged_in d s userId id Hs).
    destruct (select_item d id) as [it|] eqn:Hsel; [|reflexivity].
    apply maybeSingle_Some in Hsel as [Hin Hid]. apply eq_uuid_true in Hid.
    destruct (eqb (Item.user_id it) userId) eqn:E; [|reflexivity].
    apply eqb_eq in E. exfalso. exact (Hother it Hin Hid E).
  - intros it Hu Hin Hid Hown. exists (delete_item d it).
    assert (Hitems : forall x, In x (items (delete_item d it)) <->
                       In x (items d) /\ x <> it).
    { intros x. unfold delete_item. simpl. rewrite filter_In.
      rewrite negb_true_iff, eqb_neq. split; intros [Hx Hne]; split; try exact Hx.
      - intros ->. apply Hne. reflexivity.
      - intros E. apply Hne.
        exact (same_key_same_row Item.id (items d) x it Hu Hx Hin E). }
    assert (Hnone : select_item (delete_item d it) id = None).
    { apply maybeSingle_none. intros x Hx. apply Hitems in Hx as [Hx Hne].
      destruct (eq_uuid (Item.id x) id) eqn:E; [|reflexivity].
      apply eq_uuid_true in E. exfalso. apply Hne.
      apply (same_key_same_row Item.id (items d) x it Hu Hx Hin). congruence. }
    split; [|split; [exact Hitems | split; [|split; [|split; [|split; [|split]]]]]].
    + rewrite (post_item_delete_logged_in d s userId id Hs).
      rewrite (select_item_found d id it Hu Hin Hid).
      rewrite <- Hown, eqb_refl. reflexivity.
    + intros r. unfold delete_item. simpl. rewrite filter_In.
      rewrite negb_true_iff, eqb_neq. reflexivity.
    + reflexivity.
    + reflexivity.
    + exact Hnone.
    + rewrite (post_item_delete_logged_in _ s userId id Hs), Hnone. reflexivity.
    + intros Ht. unfold get_found_token.
      rewrite resolveToken_unbound; [reflexivity|].
      intros x Hx E. apply Hitems in Hx as [Hx Hne]. apply Hne.
      exact (same_key_same_row Item.token (items d) x it Ht Hx Hin E).
Qed.

(** ** From registration to the QR page *)

Lemma flash_types_differ (d d' : db) (msg msg' path path' : string) :
  flash_redirect d "error" msg path <> flash_redirect d' "success" msg' path'.
Proof.
  intros H. apply (f_equal (fun o => option_map type (session_flash o))) in H.
  vm_compute in H. discriminate.
Qed.

Lemma resolveToken_appended (d : db) (row : Item.t) :
  item_taken d (Item.id row) (Item.token row) = false ->
  resolveToken (with_items d (items d ++ [row])) (Item.token row) = Some row.
Proof.
  intros Ht. unfold resolveToken. simpl. rewrite filter_app. simpl.
  rewrite eqb_refl. rewrite filter_none; [reflexivity|].
  intros x Hx. destruct (eqb (Item.token x) (Item.token row)) eqn:E; [|reflexivity].
  assert (Hex : item_taken d (Item.id row) (Item.token row) = true).
  { apply existsb_exists. exists x. split; [exact Hx|].
    rewrite E. apply orb_true_r. }
  congruence.
Qed.

(** X6. The QR code of a newly registered item leads to it.  When
    [POST /dashboard] answers with its success flash, one item was
    appended, owned by the session's user; its QR image encodes
    [BASE_URL/found/<token>] for the item's own token, and that token
    resolves, in the new store, to exactly the new item, so that
    [GET /found/<token>] renders its page. *)
Theorem registered_item_is_found (e : env) (d d' : db) (s : session) (b : body)
    (file : option (list byte)) :
  post_dashboard e d s b file
  = flash_redirect d' "success" "Item registered and QR generated." "/dashboard" ->
  exists it,
    items d' = items d ++ [it]
    /\ session_user s = Some (Item.user_id it)
    /\ Item.token it = generateToken (randomBytes e)
    /\ Item.qr_data_url it
       = toDataURL (BASE_URL +++ lit "/found/" +++ Item.token it)
    /\ resolveToken d' (Item.token it) = Some it
    /\ exists owner, res (get_found_token d' (Item.token it)) = render_found_qr it owner.
Proof.
  unfold post_dashboard, requireAuth, session_user, requireAuth_.
  case_handler_keep; intros H;
    try (exfalso; exact (flash_types_differ _ _ _ _ _ _ H));
    new_row;
    apply (f_equal store) in H; simpl in H; subst d';
    (eexists; split; [reflexivity|]);
    (split; [reflexivity|]); (split; [reflexivity|]); (split; [reflexivity|]);
    match goal with
    | Ht : item_taken _ _ _ = false
      |- resolveToken (with_items _ (_ ++ [?row])) _ = _ /\ _ =>
        pose proof (resolveToken_appended d row Ht) as Hres;
        split; [exact Hres|];
        unfold get_found_token; rewrite Hres; eexists; reflexivity
    end.
Qed.

(** ** The status an owner sets and the sightings it admits *)

Lemma update_item_status_ids (d : db) (it : Item.t) (v : jsstring) :
  map Item.id (items (update_item_status d it v)) = map Item.id (items d).
Proof.
  unfold update_item_status. simpl. rewrite map_map. apply map_ext.
  intros q. destruct (eqb (Item.id q) (Item.id it)); reflexivity.
Qed.

Lemma post_item_status_owner (d : db) (s : session) (userId : uuid)
    (id : jsstring) (it : Item.t) (v : jsstring) (b : body) :
  logged_in s userId -> unique_item_ids d -> In it (items d) ->
  uuid_in id = Some (Item.id it) -> Item.user_id it = userId ->
  field b "item_status" = str v -> In v allowed ->
  store (post_item_status d s id b) = update_item_status d it v.
Proof.
  intros Hs Hu Hin Hid Hown Hb Hv.
  rewrite (post_item_status_logged_in d s userId id b Hs).
  rewrite (select_item_found d id it Hu Hin Hid).
  rewrite <- Hown, eqb_refl. simpl negb. cbv iota. rewrite Hb.
  apply includes_In in Hv. rewrite Hv. reflexivity.
Qed.

(** X7. Sightings follow the status the owner sets.  After the owner of
    an item has set its status through [POST /item/:id/status], a
    sighting on that item is refused with [Item not found.] when the
    status set is [active] or [recovered], and is recorded, on inputs
    that pass the form's checks, when the status set is [lost]; the
    report then carries the item's id. *)
Theorem sightings_follow_status (e : env) (d : db) (s : session) (userId : uuid)
    (id : jsstring) (it : Item.t) (v : jsstring) (b f : body)
    (name email location message : jsstring) :
  logged_in s userId -> unique_item_ids d -> In it (items d) ->
  uuid_in id = Some (Item.id it) -> Item.user_id it = userId ->
  field b "item_status" = str v -> In v allowed ->
  sanitize (field f "reporter_name") = Ok name ->
  sanitize (field f "reporter_email") = Ok email ->
  sanitize (field f "location") = Ok location ->
  sanitize (field f "message") = Ok message ->
  let d1 := store (post_item_status d s id b) in
  (v <> lit "lost" ->
   post_lost_sighting e d1 id f
   = flash_redirect d1 "error" "Item not found." "/lost")
  /\ (v = lit "lost" ->
      report_inputs_valid name email message -> report_rejected e d1 = false ->
      exists row,
        finder_reports (store (post_lost_sighting e d1 id f))
        = finder_reports d ++ [row]
        /\ Report.item_id row = Item.id it
        /\ Report.status row = lit "open"
        /\ Report.finder_name row = name
        /\ Report.finder_email row = email).
Proof.
  intros Hs Hu Hin Hid Hown Hb Hv Hn He Hl Hm d1. subst d1.
  rewrite (post_item_status_owner d s userId id it v b Hs Hu Hin Hid Hown Hb Hv).
  rewrite (post_lost_sighting_text e _ id f name email location message Hn He Hl Hm).
  split.
  - intros Hne. rewrite select_lost_item_none; [reflexivity|].
    intros x Hx Hxid. unfold update_item_status in Hx. simpl in Hx.
    apply in_map_iff in Hx as [x0 [<- Hx0]].
    assert (E : eqb (Item.id x0) (Item.id it) = true).
    { apply eqb_eq. apply eq_uuid_true in Hxid.
      destruct (eqb (Item.id x0) (Item.id it)) in Hxid; simpl in Hxid; congruence. }
    rewrite E. simpl. exact Hne.
  - intros Hlost Hvalid Hfree.
    assert (Hsel : select_lost_item (update_item_status d it v) id
                   = Some (Item.set_item_status v it)).
    { apply select_lost_item_found.
      - unfold unique_item_ids. rewrite update_item_status_ids. exact Hu.
      - unfold update_item_status. simpl. apply in_map_iff. exists it.
        split; [rewrite eqb_refl; reflexivity | exact Hin].
      - exact Hid.
      - simpl. exact Hlost. }
    rewrite Hsel.
    apply report_inputs_valid_dec in Hvalid as [V1 [V2 V3]].
    rewrite V1, V2, V3, Hfree. simpl.
    eexists. split; [reflexivity|]. repeat split; reflexivity.
Qed.

(** ** Download of the QR image *)

Lemma plain_char_iff (c : char16) :
  plain_char c = true <->
  (97 <= c <= 122 \/ 48 <= c <= 57 \/ c = 45 \/ c = 95)%N.
Proof.
  unfold plain_char.
  rewrite !orb_true_iff, !andb_true_iff, !N.leb_le, !N.eqb_eq. lia.
Qed.

Lemma file_name_char_iff (c : char16) :
  file_name_char c = true <->
  (97 <= c <= 122 \/ 65 <= c <= 90 \/ 48 <= c <= 57 \/ c = 45 \/ c = 95)%N.
Proof.
  unfold file_name_char.
  rewrite !orb_true_iff, !andb_true_iff, !N.leb_le, !N.eqb_eq. lia.
Qed.

Lemma lower_ascii_cases (c : char16) :
  ((65 <= c <= 90)%N /\ lower_ascii c = (c + 32)%N)
  \/ (~ (65 <= c <= 90)%N /\ lower_ascii c = c).
Proof.
  unfold lower_ascii.
  destruct (N.leb 65 c && N.leb c 90) eqn:E.
  - left. rewrite andb_true_iff, !N.leb_le in E. split; [exact E | reflexivity].
  - right. rewrite andb_false_iff, !N.leb_gt in E. split; [lia | reflexivity].
Qed.

Lemma safe_char (c : char16) :
  plain_char (lower_ascii (if file_name_char c then c else 45%N)) = true.
Proof.
  apply plain_char_iff.
  destruct (file_name_char c) eqn:E.
  - apply file_name_char_iff in E.
    destruct (lower_ascii_cases c) as [[H ->]|[H ->]]; lia.
  - destruct (lower_ascii_cases 45%N) as [[H ->]|[H ->]]; lia.
Qed.

Lemma plain_char_kept (c : char16) :
  plain_char c = true ->
  lower_ascii (if file_name_char c then c else 45%N) = c.
Proof.
  intros H. apply plain_char_iff in H.
  assert (E : file_name_char c = true) by (apply file_name_char_iff; lia).
  rewrite E. destruct (lower_ascii_cases c) as [[H' ->]|[H' ->]]; lia.
Qed.

Lemma safeFileName_plain (value : jsstring) :
  forallb plain_char (safeFileName value) = true.
Proof.
  unfold safeFileName, replace_unsafe. rewrite map_map.
  apply forallb_forall. intros c Hc.
  apply in_map_iff in Hc as [c0 [<- _]]. apply safe_char.
Qed.

Lemma safeFileName_fixed (name : jsstring) :
  name <> [] -> forallb plain_char name = true -> safeFileName name = name.
Proof.
  intros Hne Hp. unfold safeFileName, replace_unsafe.
  destruct name as [|c name]; [contradiction|]. cbn [truthy_str]. rewrite map_map.
  rewrite <- (map_id (c :: name)) at 2. apply map_ext_in.
  intros x Hx. apply plain_char_kept.
  rewrite forallb_forall in Hp. exact (Hp x Hx).
Qed.

(** X8. [safeFileName] returns a non-empty name made of [a-z], [0-9],
    [-] and [_] only, whatever the item is called: no quote, slash, dot,
    control character or character outside ASCII reaches the
    [Content-Disposition] header.  The name has one character per code
    unit of the item name ([item] when that is empty), a name that is
    already plain is returned as it is, and the function is idempotent. *)
Theorem safeFileName_spec (value : jsstring) :
  forallb plain_char (safeFileName value) = true
  /\ safeFileName value <> []
  /\ (value <> [] -> length (safeFileName value) = length value)
  /\ (value = [] -> safeFileName value = lit "item")
  /\ (value <> [] -> forallb plain_char value = true -> safeFileName value = value)
  /\ safeFileName (safeFileName value) = safeFileName value
  /\ ~ In 34%N (safeFileName value).
Proof.
  assert (Hne : safeFileName value <> []).
  { unfold safeFileName, replace_unsafe.
    destruct value; simpl; discriminate. }
  split; [apply safeFileName_plain|].
  split; [exact Hne|].
  split; [|split; [|split; [|split]]].
  - intros Hv. unfold safeFileName, replace_unsafe.
    destruct value; [contradiction|]. cbn [truthy_str].
    rewrite !length_map. reflexivity.
  - intros ->. reflexivity.
  - apply safeFileName_fixed.
  - apply safeFileName_fixed; [exact Hne | apply safeFileName_plain].
  - intros Hin. pose proof (safeFileName_plain value) as Hp.
    rewrite forallb_forall in Hp. specialize (Hp _ Hin). discriminate.
Qed.

Lemma split_no_sep (sep : char16) (s : jsstring) :
  ~ In sep s -> split sep s = [s].
Proof.
  induction s as [|c s IH]; simpl; intros H; [reflexivity|].
  destruct (N.eqb_spec c sep) as [->|_]; [exfalso; apply H; left; reflexivity|].
  rewrite IH; [reflexivity|]. intros Hin. apply H. right. exact Hin.
Qed.

Lemma split_app (sep : char16) (a b : jsstring) :
  ~ In sep a -> split sep (a ++ sep :: b) = a :: split sep b.
Proof.
  induction a as [|c a IH]; simpl; intros H.
  - rewrite N.eqb_refl. reflexivity.
  - destruct (N.eqb_spec c sep) as [->|_]; [exfalso; apply H; left; reflexivity|].
    rewrite IH; [reflexivity|]. intros Hin. apply H. right. exact Hin.
Qed.

Lemma get_download_token_logged_in (d : db) (s : session) (userId : uuid)
    (token : jsstring) :
  logged_in s userId ->
  get_download_token d s token =
  match select_own_item d userId token with
  | None => page (not_found d)
  | Some item =>
      match nth_error (split comma (Item.qr_data_url item)) 1 with
      | Some base64 =>
          if truthy_str base64 then
            attachment (lit "image/png")
              (disposition (safeFileName (Item.item_name item)))
              (Buffer_from_base64 base64)
          else page (qr_unavailable d)
      | None => page (qr_unavailable d)
      end
  end.
Proof.
  intros [-> H]. unfold get_download_token, requireAuth_. rewrite H. reflexivity.
Qed.

(** X9. [GET /download/:token] sends a QR image to its owner only.  A
    file is sent only to a logged-in user and only for an item with
    that token that the user owns; it is the decoding of what follows
    the first comma of the item's QR data URL, under a file name from
    [safeFileName].  A logged-in user who owns no item with the token
    gets 404 [not_found], as for a token that does not exist; an owner
    whose data URL is [<header>,<payload>] gets the decoded payload, and
    one whose data URL holds no comma gets 500 [QR unavailable]. *)
Theorem download_is_owner_only (d : db) (s : session) (token : jsstring) :
  (forall ct cd content,
     get_download_token d s token = attachment ct cd content ->
     exists userId it base64,
       logged_in s userId /\ In it (items d) /\ Item.token it = token
       /\ uuid_in userId = Some (Item.user_id it)
       /\ nth_error (split comma (Item.qr_data_url it)) 1 = Some base64
       /\ content = Buffer_from_base64 base64
       /\ ct = lit "image/png"
       /\ cd = disposition (safeFileName (Item.item_name it)))
  /\ (forall userId,
        logged_in s userId ->
        (forall it, In it (items d) -> Item.token it = token ->
           uuid_in userId <> Some (Item.user_id it)) ->
        get_download_token d s token = page (not_found d))
  /\ (forall userId it,
        logged_in s userId -> unique_tokens d -> In it (items d) ->
        Item.token it = token -> uuid_in userId = Some (Item.user_id it) ->
        (forall header payload,
           Item.qr_data_url it = header ++ comma :: payload ->
           ~ In comma header -> ~ In comma payload -> payload <> [] ->
           get_download_token d s token
           = attachment (lit "image/png")
               (disposition (safeFileName (Item.item_name it)))
               (Buffer_from_base64 payload))
        /\ (~ In comma (Item.qr_data_url it) ->
            get_download_token d s token = page (qr_unavailable d))).
Proof.
  split; [|split].
  - intros ct cd content H.
    unfold get_download_token, requireAuth_ in H.
    destruct s as [userId|]; [|discriminate].
    destruct (truthy_str userId) eqn:Hu; [|discriminate].
    destruct (select_own_item d userId token) as [it|] eqn:Hsel; [|discriminate].
    destruct (nth_error (split comma (Item.qr_data_url it)) 1) as [base64|] eqn:Hb;
      [|discriminate].
    destruct (truthy_str base64); [|discriminate].
    injection H as <- <- <-.
    apply maybeSingle_Some in Hsel as [Hin Hf].
    apply andb_true_iff in Hf as [Ht Ho].
    apply eqb_eq in Ht. apply eq_uuid_true in Ho.
    exists userId, it, base64.
    split; [split; [reflexivity | exact Hu]|].
    repeat split; assumption || reflexivity.
  - intros userId Hs Hother.
    rewrite (get_download_token_logged_in d s userId token Hs).
    unfold select_own_item. rewrite maybeSingle_none; [reflexivity|].
    intros x Hx. destruct (eqb (Item.token x) token) eqn:Et; [|reflexivity].
    apply eqb_eq in Et. simpl.
    destruct (eq_uuid (Item.user_id x) userId) eqn:Eo; [|reflexivity].
    apply eq_uuid_true in Eo. exfalso. exact (Hother x Hx Et Eo).
  - intros userId it Hs Hu Hin Ht Ho.
    assert (Hsel : select_own_item d userId token = Some it).
    { unfold select_own_item.
      apply maybeSingle_by_key with (key := Item.token); auto.
      - apply andb_true_iff. split; [apply eqb_eq; exact Ht|].
        apply eq_uuid_true. exact Ho.
      - intros y _ Hy. apply andb_true_iff in Hy as [Hy _].
        apply eqb_eq in Hy. congruence. }
    rewrite (get_download_token_logged_in d s userId token Hs), Hsel.
    split.
    + intros header payload Hurl Hh Hp Hne. rewrite Hurl.
      rewrite (split_app comma header payload Hh).
      rewrite (split_no_sep comma payload Hp). simpl.
      destruct payload; [contradiction|]. reflexivity.
    + intros Hno. rewrite (split_no_sep comma _ Hno). reflexivity.
Qed.


(** ** Accounts *)

Lemma insert_user_Some (w : account_env) (d d' : db) (row : uuid -> User.t) :
  insert_user w d row = Some d' ->
  d' = with_users d (users d ++ [row (user_uuid w)])
  /\ user_taken d (User.id (row (user_uuid w))) (User.email (row (user_uuid w)))
     = false.
Proof.
  unfold insert_user. cbv zeta.
  destruct (users_error w
            || user_taken d (User.id (row (user_uuid w)))
                 (User.email (row (user_uuid w)))) eqn:E; [discriminate|].
  intros H. injection H as <-. apply orb_false_iff in E as [_ E].
  split; [reflexivity | exact E].
Qed.

Lemma user_taken_false (d : db) (id : uuid) (email : jsstring) :
  user_taken d id email = false ->
  forall u, In u (users d) -> User.id u <> id /\ User.email u <> email.
Proof.
  intros H u Hu. unfold user_taken in H.
  destruct (eqb (User.id u) id || eqb (User.email u) email) eqn:E.
  - assert (Ht : existsb (fun u => eqb (User.id u) id || eqb (User.email u) email)
                   (users d) = true)
      by (apply existsb_exists; exists u; split; assumption).
    congruence.
  - apply orb_false_iff in E as [E1 E2]. split; apply eqb_neq; assumption.
Qed.

(** The ways [POST /signup] ends. *)
Lemma post_signup_cases (w : account_env) (d : db) (b : body) :
  store (post_signup w d b) = d
  \/ exists name trimmed password,
       sanitize (field b "full_name") = Ok name
       /\ sanitize (field b "email") = Ok trimmed
       /\ field b "password" = str password
       /\ 2 <= length name <= 100
       /\ isValidEmail (toLowerCase trimmed) = true
       /\ 8 <= length password
       /\ user_taken d (user_uuid w) (toLowerCase trimmed) = false
       /\ post_signup w d b
          = flash_redirect
              (with_users d
                 (users d
                  ++ [{| User.id := user_uuid w;
                         User.full_name := name;
                         User.email := toLowerCase trimmed;
                         User.password_hash := bcrypt_hash (genSalt w) password |}]))
              "success" "Account created. Please login." "/login".
Proof.
  unfold post_signup.
  destruct (sanitize (field b "full_name")) as [name|] eqn:Hn; [|left; reflexivity].
  destruct (sanitize (field b "email")) as [trimmed|] eqn:He; [|left; reflexivity].
  cbn [JS.bind try_catch]. cbv zeta.
  destruct ((length name <? 2) || (100 <? length name)) eqn:Hlen; [left; reflexivity|].
  destruct (negb (isValidEmail (toLowerCase trimmed))) eqn:Hmail; [left; reflexivity|].
  destruct (field b "password") as [|password|] eqn:Hp.
  - left. reflexivity.
  - assert (Hor : or_else (str password) [] = str password)
      by (destruct password; reflexivity).
    rewrite Hor. cbn [shorter_than_8 JS.bind].
    destruct (length password <? 8) eqn:Hshort; [left; reflexivity|].
    destruct (select_user_by_email d (toLowerCase trimmed)); [left; reflexivity|].
    cbn [hash JS.bind try_catch].
    match goal with
    | |- context [insert_user w d ?row] => destruct (insert_user w d row) eqn:Hins
    end; [|left; reflexivity].
    apply insert_user_Some in Hins as [-> Hfree]. cbn [User.id User.email] in Hfree.
    right. exists name, trimmed, password.
    apply orb_false_iff in Hlen as [H2 H100].
    apply Nat.ltb_ge in H2, H100, Hshort. apply negb_false_iff in Hmail.
    repeat split; assumption || reflexivity.
  - cbn [or_else truthy shorter_than_8 JS.bind].
    destruct (structured_length_lt_8 w); [left; reflexivity|].
    destruct (select_user_by_email d (toLowerCase trimmed)); left; reflexivity.
Qed.

(** X10. [POST /signup] creates an account only from a name of 2 to 100
    characters, an e-mail that passes the format check (after trimming
    and lower-casing), a password that is a string of at least 8
    characters, and an e-mail no user has; the row stores the
    lower-cased e-mail and the bcrypt hash, never the password.  In
    every other case no table changes.  E-mails and ids of [users] stay
    unique, and items, reports and found posts are never touched. *)
Theorem signup_spec (w : account_env) (d : db) (b : body) :
  let o := post_signup w d b in
  (items (store o) = items d
   /\ finder_reports (store o) = finder_reports d
   /\ found_posts (store o) = found_posts d)
  /\ (store o = d
      \/ exists name trimmed password,
           sanitize (field b "full_name") = Ok name
           /\ sanitize (field b "email") = Ok trimmed
           /\ field b "password" = str password
           /\ 2 <= length name <= 100
           /\ isValidEmail (toLowerCase trimmed) = true
           /\ 8 <= length password
           /\ (forall u, In u (users d) -> User.email u <> toLowerCase trimmed)
           /\ users (store o)
              = users d
                ++ [{| User.id := user_uuid w;
                       User.full_name := name;
                       User.email := toLowerCase trimmed;
                       User.password_hash := bcrypt_hash (genSalt w) password |}]
           /\ res o = redirect (lit "/login"))
  /\ (NoDup (map User.email (users d)) ->
      NoDup (map User.email (users (store o))))
  /\ (NoDup (map User.id (users d)) ->
      NoDup (map User.id (users (store o)))).
Proof.
  intros o. subst o.
  destruct (post_signup_cases w d b)
    as [Hsame | [name [trimmed [password [Hn [He [Hp [Hlen [Hmail [Hpw [Hfree Ho]]]]]]]]]]].
  - rewrite Hsame. split; [repeat split|].
    split; [left; reflexivity|]. split; intros H; exact H.
  - rewrite Ho. simpl.
    pose proof (user_taken_false d _ _ Hfree) as Hnew.
    split; [repeat split|]. split; [|split].
    + right. exists name, trimmed, password.
      repeat split; try assumption; try reflexivity; try apply Hlen.
      intros u Hu. exact (proj2 (Hnew u Hu)).
    + intros Hnd. apply NoDup_map_snoc; [exact Hnd|]. simpl.
      intros Hin. apply in_map_iff in Hin as [u [Hue Hu]].
      exact (proj2 (Hnew u Hu) Hue).
    + intros Hnd. apply NoDup_map_snoc; [exact Hnd|]. simpl.
      intros Hin. apply in_map_iff in Hin as [u [Hue Hu]].
      exact (proj1 (Hnew u Hu) Hue).
Qed.

(** The ways [POST /login] ends, for text fields. *)
Lemma post_login_text (d : db) (s : session) (b : body)
    (lowered password : jsstring) :
  call_toLowerCase (or_else (field b "email") []) = Ok lowered ->
  or_else (field b "password") [] = str password ->
  post_login d s b =
  match select_user_by_email d (trim lowered) with
  | None => stay d s "Invalid email or password."
  | Some user =>
      if bcrypt_compare password (User.password_hash user) then
        {| answer := flash_redirect d "success" "Welcome back!" "/dashboard";
           session_userId := Some (User.id user) |}
      else stay d s "Invalid email or password."
  end.
Proof.
  intros Hl Hp. unfold post_login. rewrite Hl, Hp. cbn [JS.bind]. cbv zeta.
  destruct (select_user_by_email d (trim lowered)) as [user|]; [|reflexivity].
  cbn [compare JS.bind].
  destruct (bcrypt_compare password (User.password_hash user)); reflexivity.
Qed.

(** X11. [POST /login] puts a user id into the session only when it is
    the id of the stored user with the submitted e-mail (lower-cased and
    trimmed) and [bcrypt.compare] accepts the submitted password
    against that user's stored hash; otherwise the session keeps the
    user it had.  An e-mail that no user has and a wrong password for an
    e-mail that exists get the same answer, so the form does not tell
    which e-mails are registered.  The store is never written. *)
Theorem login_spec (d : db) (s : session) (b : body) :
  let o := post_login d s b in
  store (answer o) = d
  /\ (session_userId o = s
      \/ exists user lowered password,
           call_toLowerCase (or_else (field b "email") []) = Ok lowered
           /\ or_else (field b "password") [] = str password
           /\ In user (users d)
           /\ User.email user = trim lowered
           /\ bcrypt_compare password (User.password_hash user) = true
           /\ session_userId o = Some (User.id user)
           /\ answer o = flash_redirect d "success" "Welcome back!" "/dashboard")
  /\ (forall lowered password,
        call_toLowerCase (or_else (field b "email") []) = Ok lowered ->
        or_else (field b "password") [] = str password ->
        (forall user, In user (users d) -> User.email user = trim lowered ->
           bcrypt_compare password (User.password_hash user) = false) ->
        o = stay d s "Invalid email or password.").
Proof.
  intros o. subst o. split; [|split].
  - unfold post_login.
    destruct (call_toLowerCase (or_else (field b "email") [])); [|reflexivity].
    cbn [JS.bind try_catch]. cbv zeta.
    destruct (select_user_by_email d (trim a)); [|reflexivity].
    destruct (compare (or_else (field b "password") []) (User.password_hash t));
      [|reflexivity].
    cbn [JS.bind]. destruct (negb a0); reflexivity.
  - destruct (call_toLowerCase (or_else (field b "email") [])) as [lowered|] eqn:Hl;
      [|left; unfold post_login; rewrite Hl; reflexivity].
    destruct (or_else (field b "password") []) as [|password|] eqn:Hp.
    + unfold or_else in Hp. destruct (truthy (field b "password")) eqn:Ht;
        [rewrite Hp in Ht; discriminate | discriminate].
    + rewrite (post_login_text d s b lowered password Hl Hp).
      destruct (select_user_by_email d (trim lowered)) as [user|] eqn:Hsel;
        [|left; reflexivity].
      destruct (bcrypt_compare password (User.password_hash user)) eqn:Hok;
        [|left; reflexivity].
      right. exists user, lowered, password.
      apply maybeSingle_Some in Hsel as [Hin Hmail]. apply eqb_eq in Hmail.
      repeat split; assumption || reflexivity.
    + left. unfold post_login. rewrite Hl, Hp. cbn [JS.bind]. cbv zeta.
      destruct (select_user_by_email d (trim lowered)); reflexivity.
  - intros lowered password Hl Hp Hwrong.
    rewrite (post_login_text d s b lowered password Hl Hp).
    destruct (select_user_by_email d (trim lowered)) as [user|] eqn:Hsel;
      [|reflexivity].
    apply maybeSingle_Some in Hsel as [Hin Hmail]. apply eqb_eq in Hmail.
    rewrite (Hwrong user Hin Hmail). reflexivity.
Qed.

(** X12. Who has signed up can log in.  When [POST /signup] answered with
    its success flash, a login with the same e-mail and password, on the
    store it left, puts the new user's id into the session -- given
    that [bcrypt.compare] accepts a password against its own hash, and
    that lower-casing and trimming the e-mail commute (sign-up trims
    first, login lower-cases first). *)
Theorem signup_then_login (w : account_env) (d d' : db) (s : session)
    (b b' : body) (raw password : jsstring) :
  (forall salt p, bcrypt_compare p (bcrypt_hash salt p) = true) ->
  trim (toLowerCase raw) = toLowerCase (trim raw) ->
  field b "email" = str raw -> field b "password" = str password ->
  field b' "email" = str raw -> field b' "password" = str password ->
  post_signup w d b
  = flash_redirect d' "success" "Account created. Please login." "/login" ->
  post_login d' s b'
  = {| answer := flash_redirect d' "success" "Welcome back!" "/dashboard";
       session_userId := Some (user_uuid w) |}.
Proof.
  intros Hbcrypt Hcomm He Hp He' Hp' Hsignup.
  assert (Hor : forall t : jsstring, or_else (str t) [] = str t)
    by (intros [|c t]; reflexivity).
  destruct (post_signup_cases w d b)
    as [Hsame | [name [trimmed [password0 [Hn [Hmail [Hpw [_ [_ [_ [Hfree Ho]]]]]]]]]]].
  - exfalso. rewrite Hsignup in Hsame. simpl in Hsame. subst d'.
    unfold post_signup in Hsignup. rewrite He, Hp in Hsignup.
    revert Hsignup. unfold sanitize at 2. rewrite Hor. cbn [call_trim].
    destruct (sanitize (field b "full_name")); cbn [JS.bind try_catch]; cbv zeta;
      [|intros H; exact (flash_types_differ _ _ _ _ _ _ H)].
    destruct ((length a <? 2) || (100 <? length a)).
    { intros H. apply (f_equal (fun o => option_map type (session_flash o))) in H.
      vm_compute in H. discriminate. }
    destruct (negb (isValidEmail (toLowerCase (trim raw))));
      [intros H; exact (flash_types_differ _ _ _ _ _ _ H)|].
    rewrite Hor. cbn [shorter_than_8 JS.bind].
    destruct (length password <? 8);
      [intros H; exact (flash_types_differ _ _ _ _ _ _ H)|].
    destruct (select_user_by_email d (toLowerCase (trim raw)));
      [intros H; exact (flash_types_differ _ _ _ _ _ _ H)|].
    cbn [hash JS.bind try_catch].
    match goal with
    | |- context [insert_user w d ?row] => destruct (insert_user w d row) eqn:Hins
    end; [|intros H; exact (flash_types_differ _ _ _ _ _ _ H)].
    intros H. apply (f_equal store) in H. simpl in H. subst d0.
    apply insert_user_Some in Hins as [Hd _].
    apply (f_equal (fun x => length (users x))) in Hd. simpl in Hd.
    rewrite length_app in Hd. simpl in Hd. lia.
  - rewrite Hsignup in Ho. apply (f_equal store) in Ho. simpl in Ho. subst d'.
    rewrite He in Hmail. rewrite Hp in Hpw. injection Hpw as <-.
    unfold sanitize in Hmail. rewrite Hor in Hmail. injection Hmail as <-.
    assert (Hl : call_toLowerCase (or_else (field b' "email") []) = Ok (toLowerCase raw))
      by (rewrite He', Hor; reflexivity).
    assert (Hp2 : or_else (field b' "password") [] = str password)
      by (rewrite Hp', Hor; reflexivity).
    rewrite (post_login_text _ s b' (toLowerCase raw) password Hl Hp2).
    rewrite Hcomm.
    assert (Hsel : select_user_by_email
                     (with_users d
                        (users d
                         ++ [{| User.id := user_uuid w;
                                User.full_name := name;
                                User.email := toLowerCase (trim raw);
                                User.password_hash :=
                                  bcrypt_hash (genSalt w) password |}]))
                     (toLowerCase (trim raw))
                   = Some {| User.id := user_uuid w;
                             User.full_name := name;
                             User.email := toLowerCase (trim raw);
                             User.password_hash :=
                               bcrypt_hash (genSalt w) password |}).
    { unfold select_user_by_email. simpl. rewrite filter_app. simpl.
      rewrite eqb_refl. rewrite filter_none; [reflexivity|].
      intros u Hu. apply eqb_neq.
      exact (proj2 (user_taken_false d _ _ Hfree u Hu)). }
    rewrite Hsel. simpl. rewrite Hbcrypt. reflexivity.
Qed.

Lemma update_user_nth (d : db) (userId : uuid) (change : User.t -> User.t)
    (i : nat) (u : User.t) :
  nth_error (users d) i = Some u ->
  nth_error (users (update_user d userId change)) i
  = Some (if eq_uuid (User.id u) userId then change u else u).
Proof.
  intros H. unfold update_user. simpl. rewrite nth_error_map, H. reflexivity.
Qed.

(** The ways [POST /account/password] ends. *)
Lemma post_account_password_cases (w : account_env) (d : db) (s : session)
    (b : body) :
  store (post_account_password w d s b) = d
  \/ exists userId user current new,
       logged_in s userId
       /\ filter (fun u => eq_uuid (User.id u) userId) (users d) = [user]
       /\ field b "new_password" = str new
       /\ 8 <= length new
       /\ or_else (field b "current_password") [] = str current
       /\ bcrypt_compare current (User.password_hash user) = true
       /\ post_account_password w d s b
          = flash_redirect
              (update_user d userId
                 (set_password_hash (bcrypt_hash (genSalt w) new)))
              "success" "Password updated." "/account".
Proof.
  unfold post_account_password, requireAuth.
  destruct s as [userId|]; [|left; reflexivity].
  destruct (truthy_str userId) eqn:Hu; [|left; reflexivity].
  cbv zeta.
  destruct (field b "new_password") as [|new|] eqn:Hnew.
  - left. reflexivity.
  - cbn [truthy shorter_than_8].
    destruct new as [|c new]; [left; reflexivity|].
    cbn [truthy_str negb JS.bind].
    destruct (length (c :: new) <? 8) eqn:Hlen; [left; reflexivity|].
    unfold single.
    destruct (maybeSingle (filter (fun u => eq_uuid (User.id u) userId) (users d)))
      as [user|] eqn:Hsel; [|left; reflexivity].
    destruct (or_else (field b "current_password") []) as [|current|] eqn:Hcur;
      try (left; reflexivity).
    cbn [compare JS.bind].
    destruct (bcrypt_compare current (User.password_hash user)) eqn:Hok;
      [|left; reflexivity].
    cbn [negb hash JS.bind try_catch].
    destruct (users_error w); [left; reflexivity|].
    right. exists userId, user, current, (c :: new).
    apply maybeSingle_filter_inv in Hsel. apply Nat.ltb_ge in Hlen.
    repeat split; assumption || reflexivity.
  - cbn [truthy negb shorter_than_8 JS.bind].
    destruct (structured_length_lt_8 w); [left; reflexivity|].
    unfold single.
    destruct (maybeSingle (filter (fun u => eq_uuid (User.id u) userId) (users d)))
      as [user|]; [|left; reflexivity].
    destruct (compare (or_else (field b "current_password") [])
                (User.password_hash user)) as [ok|]; [|left; reflexivity].
    cbn [JS.bind]. destruct (negb ok); left; reflexivity.
Qed.

(** X13. [POST /account/password] replaces a stored password hash only
    for the user of the session, only after [bcrypt.compare] has
    accepted the submitted current password against that user's stored
    hash, and only by the hash of a new password that is a string of at
    least 8 characters.  Every other row of [users] stays as it is, at
    its place, and no other table is written. *)
Theorem password_change_spec (w : account_env) (d : db) (s : session) (b : body) :
  let o := post_account_password w d s b in
  (items (store o) = items d
   /\ finder_reports (store o) = finder_reports d
   /\ found_posts (store o) = found_posts d)
  /\ (forall i u,
        nth_error (users d) i = Some u ->
        nth_error (users (store o)) i = Some u
        \/ exists userId current new,
             logged_in s userId
             /\ uuid_in userId = Some (User.id u)
             /\ field b "new_password" = str new
             /\ 8 <= length new
             /\ or_else (field b "current_password") [] = str current
             /\ bcrypt_compare current (User.password_hash u) = true
             /\ nth_error (users (store o)) i
                = Some (set_password_hash (bcrypt_hash (genSalt w) new) u)).
Proof.
  intros o. subst o.
  destruct (post_account_password_cases w d s b)
    as [Hsame | [userId [user [current [new
         [Hs [Hsel [Hnew [Hlen [Hcur [Hok Ho]]]]]]]]]]].
  - rewrite Hsame. split; [repeat split|]. intros i u Hi. left. exact Hi.
  - rewrite Ho. simpl. split; [repeat split|].
    intros i u Hi.
    pose proof (update_user_nth d userId
                  (set_password_hash (bcrypt_hash (genSalt w) new)) i u Hi) as Hnth.
    simpl in Hnth. unfold update_user in Hnth. simpl in Hnth.
    destruct (eq_uuid (User.id u) userId) eqn:E; [|left; exact Hnth].
    right. exists userId, current, new.
    assert (Hu : u = user)
      by (exact (filter_single_nth _ _ _ Hsel i u Hi E)).
    subst u. apply eq_uuid_true in E.
    repeat split; try assumption; apply Hs.
Qed.

(** The ways [POST /account] ends. *)
Lemma post_account_cases (w : account_env) (d : db) (s : session) (b : body) :
  store (post_account w d s b) = d
  \/ exists userId name,
       logged_in s userId
       /\ sanitize (field b "full_name") = Ok name
       /\ 2 <= length name
       /\ store (post_account w d s b)
          = update_user d userId (set_full_name name).
Proof.
  unfold post_account, requireAuth.
  destruct s as [userId|]; [|left; reflexivity].
  destruct (truthy_str userId) eqn:Hu; [|left; reflexivity].
  destruct (sanitize (field b "full_name")) as [name|] eqn:Hn; [|left; reflexivity].
  cbn [JS.bind try_catch].
  destruct (length name <? 2) eqn:Hlen; [left; reflexivity|].
  destruct (users_error w); [left; reflexivity|].
  right. exists userId, name. apply Nat.ltb_ge in Hlen.
  repeat split; assumption || reflexivity.
Qed.

(** X14. [POST /account] renames only the user of the session, to the
    trimmed name submitted, which has at least 2 characters; the
    e-mail, the id and the password hash of that row stay, every other
    row of [users] stays as it is, and no other table is written. *)
Theorem profile_change_spec (w : account_env) (d : db) (s : session) (b : body) :
  let o := post_account w d s b in
  (items (store o) = items d
   /\ finder_reports (store o) = finder_reports d
   /\ found_posts (store o) = found_posts d)
  /\ (forall i u,
        nth_error (users d) i = Some u ->
        nth_error (users (store o)) i = Some u
        \/ exists userId name,
             logged_in s userId
             /\ uuid_in userId = Some (User.id u)
             /\ sanitize (field b "full_name") = Ok name
             /\ 2 <= length name
             /\ nth_error (users (store o)) i = Some (set_full_name name u)).
Proof.
  intros o. subst o.
  destruct (post_account_cases w d s b)
    as [Hsame | [userId [name [Hs [Hn [Hlen Ho]]]]]].
  - rewrite Hsame. split; [repeat split|]. intros i u Hi. left. exact Hi.
  - rewrite Ho. simpl. split; [repeat split|].
    intros i u Hi.
    pose proof (update_user_nth d userId (set_full_name name) i u Hi) as Hnth.
    destruct (eq_uuid (User.id u) userId) eqn:E; [|left; exact Hnth].
    right. exists userId, name. apply eq_uuid_true in E.
    repeat split; try assumption; apply Hs.
Qed.

Lemma post_login_store (d : db) (s : session) (b : body) :
  store (answer (post_login d s b)) = d.
Proof.
  unfold post_login.
  destruct (call_toLowerCase (or_else (field b "email") [])) as [lowered|];
    [|reflexivity].
  cbn [JS.bind try_catch]. cbv zeta.
  destruct (select_user_by_email d (trim lowered)) as [user|]; [|reflexivity].
  destruct (compare (or_else (field b "password") []) (User.password_hash user))
    as [ok|]; [|reflexivity].
  cbn [JS.bind try_catch]. destruct ok; reflexivity.
Qed.

Lemma logged_in_session_user (s : session) (userId : uuid) :
  logged_in s userId -> session_user s = Some userId.
Proof.
  intros [-> H]. unfold session_user, requireAuth_. rewrite H. reflexivity.
Qed.

(** X3. A request without a logged-in session, on any route that writes
    (the public routes, or a guarded route without a session), writes
    nothing but one new row: it leaves [items] as they are, and the
    users, reports and found posts that exist stay in place and
    unchanged; what it may add is one report with status [open], one
    post with status [unclaimed] or, through [POST /signup] only, one
    user, whose id and e-mail no user had. *)
Theorem anonymous_requests_only_append (d : db) (r : site_request) :
  site_actor r = None ->
  items (site_store d r) = items d
  /\ (exists new,
        finder_reports (site_store d r) = finder_reports d ++ new
        /\ length new <= 1
        /\ Forall (fun x => Report.status x = lit "open") new)
  /\ (exists new,
        found_posts (site_store d r) = found_posts d ++ new
        /\ length new <= 1
        /\ Forall (fun x => Post.status x = lit "unclaimed") new)
  /\ (exists new,
        users (site_store d r) = users d ++ new
        /\ length new <= 1
        /\ Forall (fun x => user_taken d (User.id x) (User.email x) = false) new
        /\ (new <> [] -> exists w b, r = POST_signup w b)).
Proof.
  intros Hwho.
  assert (Hnil : forall (A : Type) (P : A -> Prop) (l : list A),
            exists new, l = l ++ new /\ length new <= 1 /\ Forall P new).
  { intros A P l. exists []. rewrite app_nil_r.
    split; [reflexivity | split; [apply Nat.le_0_l | constructor]]. }
  assert (Hno_user : forall l : list User.t,
            exists new,
              l = l ++ new /\ length new <= 1
              /\ Forall (fun x => user_taken d (User.id x) (User.email x) = false) new
              /\ (new <> [] -> exists w b, r = POST_signup w b)).
  { intros l. exists []. rewrite app_nil_r.
    split; [reflexivity|]. split; [apply Nat.le_0_l|].
    split; [constructor|]. intros H. exfalso. apply H. reflexivity. }
  assert (Hsame : site_store d r = d ->
            items (site_store d r) = items d
            /\ (exists new,
                  finder_reports (site_store d r) = finder_reports d ++ new
                  /\ length new <= 1
                  /\ Forall (fun x => Report.status x = lit "open") new)
            /\ (exists new,
                  found_posts (site_store d r) = found_posts d ++ new
                  /\ length new <= 1
                  /\ Forall (fun x => Post.status x = lit "unclaimed") new)
            /\ (exists new,
                  users (site_store d r) = users d ++ new
                  /\ length new <= 1
                  /\ Forall (fun x => user_taken d (User.id x) (User.email x) = false)
                       new
                  /\ (new <> [] -> exists w b, r = POST_signup w b))).
  { intros ->. split; [reflexivity|]. split; [apply Hnil|].
    split; [apply Hnil | apply Hno_user]. }
  destruct r as [e r | w b | s b | | w s b | w s b].
  - destruct (table_requests_only_append e d r Hwho)
      as [Husers [Hitems [Hreports Hposts]]].
    split; [exact Hitems|]. split; [exact Hreports|]. split; [exact Hposts|].
    cbn [site_store]. rewrite Husers. apply Hno_user.
  - destruct (post_signup_cases w d b)
      as [Hd|[name [trimmed [password [_ [_ [_ [_ [_ [_ [Hfree Hres]]]]]]]]]]].
    + apply Hsame. exact Hd.
    + cbn [site_store]. rewrite Hres.
      cbn [store flash_redirect users items finder_reports found_posts with_users].
      split; [reflexivity|]. split; [apply Hnil|]. split; [apply Hnil|].
      eexists. split; [reflexivity|]. split; [apply Nat.le_refl|].
      split; [constructor; [exact Hfree | constructor]|].
      intros _. exists w, b. reflexivity.
  - apply Hsame. apply post_login_store.
  - apply Hsame. reflexivity.
  - destruct (post_account_cases w d s b) as [Hd|[userId [name [Hs _]]]].
    + apply Hsame. exact Hd.
    + cbn [site_actor] in Hwho.
      rewrite (logged_in_session_user s userId Hs) in Hwho. discriminate.
  - destruct (post_account_password_cases w d s b)
      as [Hd|[userId [user [current [new [Hs _]]]]]].
    + apply Hsame. exact Hd.
    + cbn [site_actor] in Hwho.
      rewrite (logged_in_session_user s userId Hs) in Hwho. discriminate.
Qed.

(** ** The counts of the account page *)

Lemma get_account_logged_in (d : db) (s : session) (userId : uuid) :
  logged_in s userId ->
  get_account d s
  = account (length (own_items d userId))
      (length (filter (fun r => eqb (Report.status r) (lit "open"))
                 (own_reports d userId)))
      (length (filter (fun r => negb (eqb (Report.status r) (lit "open")))
                 (own_reports d userId))).
Proof.
  intros [-> H]. unfold get_account, requireAuth_. rewrite H. reflexivity.
Qed.

Lemma filter_split_length {A} (p : A -> bool) (l : list A) :
  length (filter p l) + length (filter (fun x => negb (p x)) l) = length l.
Proof.
  induction l as [|x l IH]; simpl; [reflexivity|].
  destruct (p x); simpl; lia.
Qed.

Lemma count_after_resolve (q : Report.t -> bool) (rep : Report.t) (l : list Report.t) :
  (forall r v, q (Report.set_status v r) = q r) ->
  NoDup (map Report.id l) -> In rep l -> q rep = true ->
  Report.status rep = lit "open" ->
  length (filter is_open (filter q (map (resolve_row rep) l))) + 1
  = length (filter is_open (filter q l))
  /\ length (filter (fun r => negb (is_open r)) (filter q (map (resolve_row rep) l)))
     = length (filter (fun r => negb (is_open r)) (filter q l)) + 1.
Proof.
  intros Hq Hnd Hin Hrep Hopen.
  assert (Hsame : forall l', ~ In (Report.id rep) (map Report.id l') ->
                    map (resolve_row rep) l' = l').
  { intros l' Hl'. rewrite <- (map_id l') at 2. apply map_ext_in. intros r Hr.
    unfold resolve_row. destruct (Z.eqb_spec (Report.id r) (Report.id rep)) as [E|_];
      [|reflexivity].
    exfalso. apply Hl'. rewrite <- E. apply in_map. exact Hr. }
  assert (Hnew : resolve_row rep rep = Report.set_status (lit "resolved") rep)
    by (unfold resolve_row; rewrite Z.eqb_refl; reflexivity).
  assert (Hclosed : is_open (Report.set_status (lit "resolved") rep) = false)
    by reflexivity.
  assert (Hwas : is_open rep = true)
    by (unfold is_open; rewrite Hopen; reflexivity).
  induction l as [|x l IH]; [contradiction|].
  simpl in Hnd. apply NoDup_cons_iff in Hnd as [Hx Hnd].
  destruct Hin as [->|Hin].
  - cbn [map]. rewrite (Hsame l Hx), Hnew. cbn [filter].
    rewrite Hq, Hrep. cbn [filter]. rewrite Hclosed, Hwas.
    cbn [negb length]. split; lia.
  - assert (Hne : resolve_row rep x = x).
    { unfold resolve_row.
      destruct (Z.eqb_spec (Report.id x) (Report.id rep)) as [E|_]; [|reflexivity].
      exfalso. apply Hx. rewrite E. apply in_map. exact Hin. }
    destruct (IH Hnd Hin) as [IH1 IH2].
    cbn [map]. rewrite Hne. cbn [filter].
    destruct (q x); cbn [filter]; [|split; assumption].
    destruct (is_open x); cbn [negb length]; split; lia.
Qed.

(** X15. The account page counts every report on the user's items once,
    as open or as resolved: the two counts add up to the number of
    reports on items of the user.  When the owner resolves an open
    report on an item of theirs, the page shows one open report less and
    one resolved report more afterwards, and the same number of items. *)
Theorem account_counts (d : db) (s : session) (userId : uuid) :
  logged_in s userId ->
  exists n o r,
    get_account d s = account n o r
    /\ n = length (own_items d userId)
    /\ o + r = length (own_reports d userId)
    /\ (forall rep it id,
          uuid_in userId = Some userId ->
          unique_report_ids d -> unique_item_ids d ->
          In rep (finder_reports d) -> eq_bigint (Report.id rep) id = true ->
          Report.status rep = lit "open" ->
          In it (items d) -> Item.id it = Report.item_id rep ->
          Item.user_id it = userId ->
          get_account (store (post_report_resolve d s id)) s
          = account n (o - 1) (r + 1)
          /\ 1 <= o).
Proof.
  intros Hs. rewrite (get_account_logged_in d s userId Hs).
  eexists _, _, _. split; [reflexivity|]. split; [reflexivity|]. split.
  - apply filter_split_length.
  - intros rep it id Hcanon Hur Hui Hrep Hid Hopen Hit Hitem Hown.
    rewrite (resolve_logged_in d s userId id Hs).
    rewrite (resolve_select_report_found d id rep Hur Hrep Hid).
    rewrite (resolve_select_item_found d rep it Hui Hit Hitem).
    simpl not_owned_by.
    replace (eqb (Item.user_id it) userId) with true
      by (symmetry; apply eqb_eq; exact Hown).
    simpl negb. cbv iota. cbn [store flash_redirect].
    rewrite (get_account_logged_in _ s userId Hs).
    assert (Hq : existsb (eqb (Report.item_id rep))
                   (map Item.id (own_items d userId)) = true).
    { apply existsb_exists. exists (Item.id it). split; [|apply eqb_eq; auto].
      apply in_map. apply filter_In. split; [exact Hit|].
      apply eq_uuid_true. rewrite Hown. exact Hcanon. }
    destruct (count_after_resolve
                (fun r => existsb (eqb (Report.item_id r))
                            (map Item.id (own_items d userId)))
                rep (finder_reports d)
                (fun r v => eq_refl) Hur Hrep Hq Hopen) as [C1 C2].
    unfold own_reports, own_items in *. unfold resolve_update.
    cbn [items finder_reports with_finder_reports].
    unfold is_open, resolve_row in C1, C2.
    rewrite C2. rewrite <- C1. split; [f_equal; lia | lia].
Qed.


(** ** Listings *)

Lemma filter_length_perm {A} (p : A -> bool) (l l' : list A) :
  Permutation l l' -> length (filter p l) = length (filter p l').
Proof.
  intros H. induction H as [|x l l' _ IH|x y l|l l' l'' _ IH1 _ IH2]; simpl.
  - reflexivity.
  - destruct (p x); simpl; congruence.
  - destruct (p x), (p y); reflexivity.
  - congruence.
Qed.

Lemma sanitize_search (q : body) :
  field q "search" <> structured -> exists search, sanitize (field q "search") = Ok search.
Proof. apply sanitize_Ok. Qed.

Lemma eq_filter_none (name : string) (v : value) :
  truthy v = false -> eq_filter name v = Ok None.
Proof. intros H. unfold eq_filter. rewrite H. reflexivity. Qed.

Lemma get_found_items_rendered (d : db) (q : body) (rows : list Post.t)
    (search : jsstring) (cat : value) :
  get_found_items d q = rendered rows search cat ->
  sanitize (field q "search") = Ok search
  /\ cat = or_else (field q "category") []
  /\ exists category,
       eq_filter "category" cat = Ok category
       /\ rows
          = (if truthy_str search
             then filter (post_matches (toLowerCase search))
             else fun l => l)
              (newest_posts
                 (filter (fun p => eqb (Post.status p) (lit "unclaimed")
                                   && where_eq category (Post.category p))
                         (found_posts d))).
Proof.
  unfold get_found_items.
  destruct (sanitize (field q "search")) as [s0|]; [|discriminate].
  cbn [JS.bind try_catch]. cbv zeta.
  destruct (eq_filter "category" (or_else (field q "category") []))
    as [category|] eqn:Ecat; [|discriminate].
  cbn [JS.bind try_catch]. intros H. injection H as <- <- <-.
  split; [reflexivity|]. split; [reflexivity|].
  exists category. split; [exact Ecat|].
  destruct (truthy_str s0); reflexivity.
Qed.

Lemma found_board_rows (d : db) (q : body) (rows : list Post.t)
    (search : jsstring) (cat : value) :
  (forall l, Permutation (newest_posts l) l) ->
  get_found_items d q = rendered rows search cat ->
  forall p, In p rows -> In p (found_posts d) /\ Post.status p = lit "unclaimed".
Proof.
  intros Horder H p Hp.
  apply get_found_items_rendered in H as [_ [_ [category [_ ->]]]].
  assert (Hin : In p (newest_posts
            (filter (fun p => eqb (Post.status p) (lit "unclaimed")
                              && where_eq category (Post.category p))
                    (found_posts d)))).
  { destruct (truthy_str search); [|exact Hp].
    apply filter_In in Hp as [Hp _]. exact Hp. }
  apply (Permutation_in _ (Horder _)) in Hin.
  apply filter_In in Hin as [Hin Hf]. apply andb_true_iff in Hf as [Hf _].
  apply eqb_eq in Hf. split; assumption.
Qed.

Lemma eq_filter_throws (name : string) (v : value) :
  eq_filter name (or_else v []) = Throw
  <-> v = structured /\ String_of_query name = None.
Proof.
  unfold eq_filter, or_else.
  destruct v as [|t|]; cbn [truthy truthy_str].
  - split; [discriminate | intros [H _]; discriminate].
  - destruct t; cbn [truthy truthy_str filter_text JS.bind];
      (split; [discriminate | intros [H _]; discriminate]).
  - cbn [filter_text]. destruct (String_of_query name); cbn [JS.bind].
    + split; [discriminate | intros [_ H]; discriminate].
    + split; [intros _; split; reflexivity | reflexivity].
Qed.

Lemma sanitize_throws (v : value) : sanitize v = Throw <-> v = structured.
Proof.
  destruct v as [|t|]; [| |split; reflexivity];
    (split; [|discriminate]).
  - discriminate.
  - rewrite sanitize_str. discriminate.
Qed.

(** X16. The found-items board lists unclaimed posts only.  Whatever the
    search text and the category filter, every post [GET /found-items]
    renders is a row of [found_posts] with status [unclaimed]; with no
    search text and no category filter it renders every unclaimed post.
    The page is rendered or fails with the error flash and a redirect
    to [/]; it fails exactly when the [search] parameter is an array or
    an object, or the [category] parameter is one whose conversion to
    text throws. *)
Theorem found_board_spec (d : db) (q : body) :
  (forall l, Permutation (newest_posts l) l) ->
  ((exists rows search cat, get_found_items d q = rendered rows search cat)
   \/ get_found_items d q
      = failed (flash_redirect d "error" "Failed to load found items." "/"))
  /\ (get_found_items d q
      = failed (flash_redirect d "error" "Failed to load found items." "/")
      <-> field q "search" = structured
          \/ (field q "category" = structured
              /\ String_of_query "category" = None))
  /\ (forall rows search cat,
        get_found_items d q = rendered rows search cat ->
        (forall p, In p rows ->
           In p (found_posts d) /\ Post.status p = lit "unclaimed")
        /\ (search = [] -> truthy cat = false ->
            forall p, In p (found_posts d) -> Post.status p = lit "unclaimed" ->
              In p rows)).
Proof.
  intros Horder.
  assert (Hcases :
    (exists search category,
       sanitize (field q "search") = Ok search
       /\ eq_filter "category" (or_else (field q "category") []) = Ok category
       /\ exists rows cat, get_found_items d q = rendered rows search cat)
    \/ ((sanitize (field q "search") = Throw
         \/ eq_filter "category" (or_else (field q "category") []) = Throw)
        /\ get_found_items d q
           = failed (flash_redirect d "error" "Failed to load found items." "/"))).
  { unfold get_found_items.
    destruct (sanitize (field q "search")) as [search|];
      [|right; split; [left|]; reflexivity].
    cbn [JS.bind try_catch]. cbv zeta.
    destruct (eq_filter "category" (or_else (field q "category") []))
      as [category|]; [|right; split; [right|]; reflexivity].
    cbn [JS.bind try_catch]. left. exists search, category.
    split; [reflexivity|]. split; [reflexivity|]. eexists _, _. reflexivity. }
  split; [|split].
  - destruct Hcases as [[search [category [_ [_ [rows [cat H]]]]]] | [_ H]];
      [left; exists rows, search, cat; exact H | right; exact H].
  - split.
    + intros Hfail.
      destruct Hcases as [[search [category [_ [_ [rows [cat H]]]]]] | [[H|H] _]].
      * rewrite H in Hfail. discriminate.
      * left. apply sanitize_throws. exact H.
      * right. apply eq_filter_throws. exact H.
    + intros Hwhy.
      destruct Hcases as [[search [category [Hs [Hc _]]]] | [_ H]]; [|exact H].
      exfalso. destruct Hwhy as [Hw|Hw].
      * apply sanitize_throws in Hw. congruence.
      * apply eq_filter_throws in Hw. congruence.
  - intros rows search cat H. split.
    + exact (found_board_rows d q rows search cat Horder H).
    + apply get_found_items_rendered in H as [_ [_ [category [Hc ->]]]].
      intros -> Hcat p Hp Hst. cbn [truthy_str].
      rewrite (eq_filter_none "category" cat Hcat) in Hc. injection Hc as <-.
      apply (Permutation_in _ (Permutation_sym (Horder _))).
      apply filter_In. split; [exact Hp|].
      rewrite Hst. reflexivity.
Qed.

(** X17. A claimed post is off the board for good.  After a logged-in
    user has claimed an unclaimed post, [GET /found-items] on the store
    that results, and on the store after any further requests, renders
    no post with that id, whatever the search and the filter. *)
Theorem claimed_post_leaves_board (d : db) (s : session) (userId : uuid)
    (id : number) (p : Post.t) (rs : list (env * request)) (q : body) :
  (forall l, Permutation (newest_posts l) l) ->
  logged_in s userId -> consistent d ->
  In p (found_posts d) -> eq_bigint (Post.id p) id = true ->
  Post.status p = lit "unclaimed" ->
  forall rows search cat,
    get_found_items (serve (store (post_found_items_claim d s id)) rs) q
    = rendered rows search cat ->
    forall x, In x rows -> Post.id x <> Post.id p.
Proof.
  intros Horder Hs Hc Hin Hid Hst rows search cat Hboard x Hx Hsame.
  assert (Hu : unique_post_ids d) by apply Hc.
  assert (Hd1 : store (post_found_items_claim d s id) = claim_update d p).
  { rewrite (claim_logged_in d s userId id Hs).
    rewrite (claim_select_found d id p Hu Hin Hid Hst). reflexivity. }
  rewrite Hd1 in Hboard.
  pose proof (claim_update_marks d p Hin) as Hmark.
  apply In_nth_error in Hmark as [i Hi].
  pose proof (claimed_stays_claimed_forever rs (claim_update d p) i _ Hi eq_refl)
    as Hstay.
  assert (Hc' : consistent (serve (claim_update d p) rs)).
  { apply serve_consistent. apply claim_update_consistent. exact Hc. }
  destruct (found_board_rows _ q rows search cat Horder Hboard x Hx)
    as [Hxin Hxst].
  assert (Hx' : x = Post.set_status (lit "claimed") p).
  { apply (same_key_same_row Post.id (found_posts (serve (claim_update d p) rs)));
      [apply Hc' | exact Hxin | eapply nth_error_In; exact Hstay | exact Hsame]. }
  rewrite Hx' in Hxst. simpl in Hxst. vm_compute in Hxst. discriminate.
Qed.

Lemma split_not_nil (sep : char16) (s : jsstring) : split sep s <> [].
Proof.
  destruct s as [|c s]; simpl; [discriminate|].
  destruct (N.eqb c sep); [discriminate|].
  destruct (split sep s); discriminate.
Qed.

(** The first name is the part of the full name before its first space. *)
Lemma first_name_prefix (full_name : jsstring) :
  ~ In 32%N (first_name full_name)
  /\ exists rest,
       full_name = first_name full_name ++ rest
       /\ (rest = [] \/ exists t, rest = 32%N :: t).
Proof.
  unfold first_name. induction full_name as [|c s IH]; simpl.
  - split; [intros [] | exists []; split; [reflexivity | left; reflexivity]].
  - destruct (N.eqb_spec c 32%N) as [->|Hc]; simpl.
    + split; [intros []|]. exists (32%N :: s).
      split; [reflexivity | right; exists s; reflexivity].
    + destruct (split 32%N s) as [|piece others] eqn:E;
        [exfalso; exact (split_not_nil 32%N s E)|].
      simpl in *. destruct IH as [Hno [rest [Hs Hrest]]]. split.
      * intros [H|H]; [exact (Hc H) | exact (Hno H)].
      * exists rest. split; [rewrite Hs at 1; reflexivity | exact Hrest].
Qed.

Lemma get_lost_rendered (d : db) (q : body) (rows : list Lost.t)
    (search : jsstring) (cat : value) :
  (forall l, Permutation (newest_items l) l) ->
  get_lost d q = rendered rows search cat ->
  forall r, In r rows ->
    exists i selected,
      In i (items d) /\ Item.item_status i = lit "lost"
      /\ (forall u, In u selected -> In u (users d))
      /\ r = {| Lost.id := Item.id i;
                Lost.item_name := Item.item_name i;
                Lost.item_description := Item.item_description i;
                Lost.category := Item.category i;
                Lost.image_url := Item.image_url i;
                Lost.user_id := Item.user_id i;
                Lost.owner_first_name :=
                  or_else (ownerMap_get selected (Item.user_id i))
                    (lit "Someone") |}.
Proof.
  intros Horder. unfold get_lost.
  destruct (sanitize (field q "search")) as [s0|]; [|discriminate].
  cbn [JS.bind try_catch]. cbv zeta.
  destruct (eq_filter "category" (or_else (field q "category") []))
    as [category|]; [|discriminate].
  cbn [JS.bind try_catch]. intros H. injection H as <- _ _.
  intros r Hr. apply in_map_iff in Hr as [i [<- Hi]].
  assert (Hin : In i (filter (fun i => eqb (Item.item_status i) (lit "lost")
                                       && where_eq category (Item.category i))
                        (items d))).
  { apply (Permutation_in _ (Horder _)).
    destruct (truthy_str s0); [|exact Hi].
    apply filter_In in Hi as [Hi _]. exact Hi. }
  apply filter_In in Hin as [Hin Hf]. apply andb_true_iff in Hf as [Hf _].
  apply eqb_eq in Hf.
  exists i. eexists. split; [exact Hin|]. split; [exact Hf|].
  split; [|reflexivity].
  intros u Hu. apply filter_In in Hu as [Hu _]. exact Hu.
Qed.

(** X18. The lost board shows items marked lost, and of the owner a first
    name at most.  Every row [GET /lost] renders comes from an item of
    the store whose status is [lost]; as owner it shows either
    [Someone] or the part of a user's full name before its first space,
    that user being the item's owner -- never a text with a space in
    it.  (An owner id that is a property name of [Object.prototype],
    which no uuid is, would show that property instead.) *)
Theorem lost_board_spec (d : db) (q : body) (rows : list Lost.t)
    (search : jsstring) (cat : value) :
  (forall l, Permutation (newest_items l) l) ->
  get_lost d q = rendered rows search cat ->
  forall r, In r rows ->
    (exists i, In i (items d) /\ Item.item_status i = lit "lost"
               /\ Lost.id r = Item.id i /\ Lost.user_id r = Item.user_id i
               /\ Lost.item_name r = Item.item_name i)
    /\ ((Lost.owner_first_name r = structured
         /\ In (Lost.user_id r) Object_prototype_names)
        \/ exists name,
             Lost.owner_first_name r = str name
             /\ name <> [] /\ ~ In 32%N name
             /\ (name = lit "Someone"
                 \/ exists u rest,
                      In u (users d) /\ User.id u = Lost.user_id r
                      /\ User.full_name u = name ++ rest
                      /\ (rest = [] \/ exists t, rest = 32%N :: t))).
Proof.
  intros Horder H r Hr.
  destruct (get_lost_rendered d q rows search cat Horder H r Hr)
    as [i [selected [Hi [Hst [Hsel ->]]]]].
  split; [exists i; repeat split; assumption|]. simpl.
  assert (Hsomeone : exists name,
            str (lit "Someone") = str name /\ name <> [] /\ ~ In 32%N name
            /\ (name = lit "Someone"
                \/ exists u rest,
                     In u (users d) /\ User.id u = Item.user_id i
                     /\ User.full_name u = name ++ rest
                     /\ (rest = [] \/ exists t, rest = 32%N :: t))).
  { exists (lit "Someone"). split; [reflexivity|]. split; [discriminate|].
    split; [|left; reflexivity].
    vm_compute. intros Hin.
    repeat (destruct Hin as [Hin|Hin]; [discriminate|]). exact Hin. }
  unfold ownerMap_get.
  destruct (eqb (Item.user_id i) (lit "__proto__")) eqn:Eproto.
  - left. split; [reflexivity|]. apply eqb_eq in Eproto. rewrite Eproto.
    unfold Object_prototype_names. do 10 right. left. reflexivity.
  - destruct (find (fun u => eqb (User.id u) (Item.user_id i)) (rev selected))
      as [u|] eqn:Hfind.
    + right. apply find_some in Hfind as [Hu Hid]. apply eqb_eq in Hid.
      apply in_rev in Hu. apply Hsel in Hu.
      destruct (first_name_prefix (User.full_name u)) as [Hno [rest [Hfull Hrest]]].
      destruct (first_name (User.full_name u)) as [|c name] eqn:Hname.
      * exact Hsomeone.
      * exists (c :: name). split; [reflexivity|]. split; [discriminate|].
        split; [exact Hno|]. right. exists u, rest.
        repeat split; assumption.
    + destruct (existsb (eqb (Item.user_id i)) Object_prototype_names) eqn:Ep.
      * left. split; [reflexivity|]. apply existsb_exists in Ep as [k [Hk Ek]].
        apply eqb_eq in Ek. rewrite Ek. exact Hk.
      * right. exact Hsomeone.
Qed.

(** ** The dashboard *)

Lemma get_dashboard_rendered (d : db) (s : session) (userId : uuid) (q : body)
    (shown : list (Item.t * option nat)) (reports : list (Report.t * value))
    (search : jsstring) (cat st : value) :
  logged_in s userId ->
  get_dashboard d s q = dashboard shown reports search cat st ->
  exists filteredItems listed,
    shown = map (fun i => (i, open_reports listed (Item.id i))) filteredItems
    /\ reports = map (fun r => (r, item_name_of filteredItems (Report.item_id r))) listed
    /\ listed
       = match map Item.id filteredItems with
         | [] => []
         | _ :: _ =>
             newest_reports
               (filter (fun r => existsb (eqb (Report.item_id r))
                                   (map Item.id filteredItems))
                       (finder_reports d))
         end
    /\ exists category status,
         eq_filter "category" cat = Ok category
         /\ eq_filter "status" st = Ok status
         /\ filteredItems
            = (if truthy_str search
               then filter (item_matches (toLowerCase search))
               else fun l => l)
                (newest_items
                   (filter (fun i => eq_uuid (Item.user_id i) userId
                                     && where_eq category (Item.category i)
                                     && where_eq status (Some (Item.item_status i)))
                           (items d))).
Proof.
  intros [-> Hu]. unfold get_dashboard, requireAuth_. rewrite Hu.
  destruct (sanitize (field q "search")) as [s0|]; [|discriminate].
  cbn [JS.bind try_catch]. cbv zeta.
  destruct (eq_filter "category" (or_else (field q "category") []))
    as [category|] eqn:Ecat; [|discriminate].
  cbn [JS.bind try_catch].
  destruct (eq_filter "status" (or_else (field q "status") []))
    as [status|] eqn:Est; [|discriminate].
  cbn [JS.bind try_catch]. intros H. injection H as <- <- <- <- <-.
  eexists _, _. split; [reflexivity|]. split; [reflexivity|].
  split; [reflexivity|]. exists category, status.
  split; [exact Ecat|]. split; [exact Est|].
  destruct (truthy_str s0); reflexivity.
Qed.

(** X19. The dashboard is the user's own.  Every item [GET /dashboard]
    renders for a logged-in user is an item of the store that this user
    owns, and every report it renders is a report of the store on one of
    the items rendered; with no search text and no filter it renders
    all items of the user.  The number of open reports shown with an
    item is the number of reports of the store on that item with status
    [open]. *)
Theorem dashboard_spec (d : db) (s : session) (userId : uuid) (q : body)
    (shown : list (Item.t * option nat)) (reports : list (Report.t * value))
    (search : jsstring) (cat st : value) :
  (forall l, Permutation (newest_items l) l) ->
  (forall l, Permutation (newest_reports l) l) ->
  logged_in s userId ->
  get_dashboard d s q = dashboard shown reports search cat st ->
  (forall i n, In (i, n) shown ->
     In i (items d) /\ uuid_in userId = Some (Item.user_id i))
  /\ (forall r name, In (r, name) reports ->
        In r (finder_reports d)
        /\ exists i n, In (i, n) shown /\ Report.item_id r = Item.id i)
  /\ (search = [] -> truthy cat = false -> truthy st = false ->
      forall i, In i (items d) -> uuid_in userId = Some (Item.user_id i) ->
        exists n, In (i, n) shown)
  /\ (forall i n, In (i, n) shown ->
        ~ In (Item.id i) Object_prototype_names ->
        n = Some (length (filter (fun r => is_open r
                                           && eqb (Report.item_id r) (Item.id i))
                            (finder_reports d)))).
Proof.
  intros Hitems Hreports Hs H.
  destruct (get_dashboard_rendered d s userId q shown reports search cat st Hs H)
    as [filteredItems [listed [-> [-> [Hlisted
         [category [status [Ecat [Est Hfiltered]]]]]]]]].
  assert (Hown : forall i, In i filteredItems ->
            In i (items d) /\ uuid_in userId = Some (Item.user_id i)).
  { intros i Hi. rewrite Hfiltered in Hi.
    assert (Hin : In i (newest_items
              (filter (fun i => eq_uuid (Item.user_id i) userId
                                && where_eq category (Item.category i)
                                && where_eq status (Some (Item.item_status i)))
                      (items d)))).
    { destruct (truthy_str search); [|exact Hi].
      apply filter_In in Hi as [Hi _]. exact Hi. }
    apply (Permutation_in _ (Hitems _)) in Hin.
    apply filter_In in Hin as [Hin Hf].
    apply andb_true_iff in Hf as [Hf _]. apply andb_true_iff in Hf as [Hf _].
    apply eq_uuid_true in Hf. split; assumption. }
  assert (Hrep : forall r, In r listed ->
            In r (finder_reports d)
            /\ existsb (eqb (Report.item_id r)) (map Item.id filteredItems) = true).
  { intros r Hr. rewrite Hlisted in Hr.
    destruct (map Item.id filteredItems) as [|k ks] eqn:Hids; [contradiction|].
    apply (Permutation_in _ (Hreports _)) in Hr.
    apply filter_In in Hr. exact Hr. }
  split; [|split; [|split]].
  - intros i n Hin. apply in_map_iff in Hin as [i0 [E Hi0]].
    injection E as <- _. exact (Hown i0 Hi0).
  - intros r name Hin. apply in_map_iff in Hin as [r0 [E Hr0]].
    injection E as <- _. destruct (Hrep r0 Hr0) as [Hr Hex]. split; [exact Hr|].
    apply existsb_exists in Hex as [k [Hk Ek]]. apply eqb_eq in Ek.
    apply in_map_iff in Hk as [i [Hik Hi]].
    exists i, (open_reports listed (Item.id i)). split.
    + apply in_map_iff. exists i. split; [reflexivity | exact Hi].
    + congruence.
  - intros -> Hcat Hst i Hi Hmine. cbn [truthy_str] in Hfiltered.
    exists (open_reports listed (Item.id i)).
    apply in_map_iff. exists i. split; [reflexivity|]. rewrite Hfiltered.
    apply (Permutation_in _ (Permutation_sym (Hitems _))).
    apply filter_In. split; [exact Hi|].
    rewrite (eq_filter_none "category" cat Hcat) in Ecat. injection Ecat as <-.
    rewrite (eq_filter_none "status" st Hst) in Est. injection Est as <-.
    rewrite (proj2 (eq_uuid_true _ _) Hmine). reflexivity.
  - intros i n Hin Hproto. apply in_map_iff in Hin as [i0 [E Hi0]].
    injection E as <- <-. unfold open_reports.
    destruct (existsb (eqb (Item.id i0)) Object_prototype_names) eqn:Ep.
    { exfalso. apply Hproto. apply existsb_exists in Ep as [k [Hk Ek]].
      apply eqb_eq in Ek. rewrite Ek. exact Hk. }
    f_equal. rewrite Hlisted.
    destruct (map Item.id filteredItems) as [|k ks] eqn:Hids.
    { destruct filteredItems; [contradiction | discriminate]. }
    rewrite (filter_length_perm _ _ _ (Hreports _)). rewrite <- Hids.
    f_equal. clear Hlisted Hrep.
    induction (finder_reports d) as [|r l IH]; [reflexivity|]. simpl.
    destruct (eqb (Report.item_id r) (Item.id i0)) eqn:Er.
    + assert (Hex : existsb (eqb (Report.item_id r)) (map Item.id filteredItems)
                    = true).
      { apply existsb_exists. exists (Item.id i0).
        split; [apply in_map; exact Hi0 | exact Er]. }
      rewrite Hex. simpl. rewrite Er.
      destruct (is_open r); simpl; rewrite IH; reflexivity.
    + rewrite andb_false_r.
      destruct (existsb (eqb (Report.item_id r)) (map Item.id filteredItems));
        simpl; [rewrite Er, andb_false_r|]; exact IH.
Qed.


(** ** From a form to a listing *)

(** X20. Primary keys and the token column stay unique: when no two
    items share an id or a token, no two reports an id and no two found
    posts an id, the same holds after any sequence of requests. *)
Theorem keys_stay_unique (rs : list (env * request)) (d : db) :
  consistent d ->
  unique_item_ids (serve d rs) /\ unique_tokens (serve d rs)
  /\ unique_report_ids (serve d rs) /\ unique_post_ids (serve d rs).
Proof. intros H. exact (serve_consistent rs d H). Qed.

Ltac wrong_flash H :=
  exfalso;
  apply (f_equal (fun o => option_map type (session_flash o))) in H;
  vm_compute in H; discriminate H.

(** X21. A found item that was posted is on the board and can be
    claimed.  When [POST /found-items] answers with its success flash,
    one post with status [unclaimed] was appended; [GET /found-items]
    without search text and category filter renders it, and a claim of
    its id finds it. *)
Theorem posted_item_is_listed (e : env) (d d' : db) (b : body)
    (file : option (list byte)) :
  (forall l, Permutation (newest_posts l) l) ->
  post_found_items e d b file
  = flash_redirect d' "success"
      "Found item posted! The owner can now find it here." "/found-items" ->
  exists row,
    found_posts d' = found_posts d ++ [row]
    /\ Post.id row = nextval e
    /\ Post.status row = lit "unclaimed"
    /\ sanitize (field b "item_name") = Ok (Post.item_name row)
    /\ sanitize (field b "finder_email") = Ok (Post.finder_email row)
    /\ (forall q rows cat,
          get_found_items d' q = rendered rows [] cat -> truthy cat = false ->
          In row rows)
    /\ (unique_post_ids d -> claim_select d' (int (nextval e)) = Some row).
Proof.
  intros Horder. unfold post_found_items.
  case_handler_keep; intros H; try (wrong_flash H);
    new_row; apply (f_equal store) in H; simpl in H; subst d';
    (eexists; split; [reflexivity|]);
    (split; [reflexivity|]); (split; [reflexivity|]);
    (split; [first [assumption | reflexivity]|]);
    (split; [first [assumption | reflexivity]|]);
    (split;
     [ intros q rows cat Hq Hcat;
       apply get_found_items_rendered in Hq as [_ [_ [category [Hc ->]]]];
       cbn [truthy_str];
       rewrite (eq_filter_none "category" cat Hcat) in Hc; injection Hc as <-;
       apply (Permutation_in _ (Permutation_sym (Horder _)));
       apply filter_In; split;
       [ cbn [found_posts with_found_posts]; apply in_or_app; right; left; reflexivity
       | reflexivity ]
     | intros Hu; apply claim_select_found;
       [ apply NoDup_map_snoc; [exact Hu|]; cbn [Post.id];
         match goal with
         | Hfree : existsb _ (found_posts d) = false |- _ =>
             apply (existsb_false_not_In Post.id _ _ _) with (2 := Hfree);
             intros y Hy; apply Z.eqb_eq; exact Hy
         end
       | cbn [found_posts with_found_posts]; apply in_or_app; right; left; reflexivity
       | cbn [Post.id eq_bigint]; apply Z.eqb_refl
       | reflexivity ] ]).
Qed.

(** X22. A report sent through the QR page reaches the owner.  When
    [POST /found/:token] answers with its success flash for a token
    that resolves to an item, one report with status [open] on that
    item was appended, and the dashboard of the item's owner, opened
    without search text and filters, renders it. *)
Theorem report_reaches_owner (e : env) (d d' : db) (token : jsstring) (b : body)
    (s : session) (userId : uuid) (it : Item.t) :
  (forall l, Permutation (newest_items l) l) ->
  (forall l, Permutation (newest_reports l) l) ->
  logged_in s userId -> uuid_in userId = Some userId ->
  resolveToken d token = Some it -> Item.user_id it = userId ->
  post_found_token e d token b
  = flash_redirect' d' "success" (lit "Report submitted to owner!")
      (lit "/found/" +++ token) ->
  exists row,
    finder_reports d' = finder_reports d ++ [row]
    /\ items d' = items d
    /\ Report.item_id row = Item.id it
    /\ Report.status row = lit "open"
    /\ sanitize (field b "message") = Ok (Report.message row)
    /\ (forall q shown reports cat st,
          get_dashboard d' s q = dashboard shown reports [] cat st ->
          truthy cat = false -> truthy st = false ->
          exists name, In (row, name) reports).
Proof.
  intros Hitems Hreports Hs Hcanon Hres Hown. unfold post_found_token.
  cbv zeta. rewrite Hres.
  case_handler_keep; intros H; try (wrong_flash H);
    new_row; apply (f_equal store) in H; simpl in H; subst d'.
  eexists. split; [reflexivity|]. split; [reflexivity|].
  split; [reflexivity|]. split; [reflexivity|].
  split; [first [assumption | reflexivity]|].
  intros q shown reports cat st Hq Hcat Hst.
  destruct (get_dashboard_rendered _ s userId q shown reports [] cat st Hs Hq)
    as [filteredItems [listed [_ [-> [Hlisted
         [category [status [Ecat [Est Hfiltered]]]]]]]]].
  cbn [truthy_str items with_finder_reports] in Hfiltered.
  rewrite (eq_filter_none "category" cat Hcat) in Ecat. injection Ecat as <-.
  rewrite (eq_filter_none "status" st Hst) in Est. injection Est as <-.
  assert (Hit : In it filteredItems).
  { rewrite Hfiltered. apply (Permutation_in _ (Permutation_sym (Hitems _))).
    apply filter_In. apply maybeSingle_Some in Hres as [Hin _].
    split; [exact Hin|].
    rewrite (proj2 (eq_uuid_true _ _)); [reflexivity|].
    rewrite Hown. exact Hcanon. }
  eexists. apply in_map_iff. eexists. split; [reflexivity|].
  rewrite Hlisted.
  destruct (map Item.id filteredItems) as [|k ks] eqn:Hids.
  { destruct filteredItems; [contradiction | discriminate]. }
  apply (Permutation_in _ (Permutation_sym (Hreports _))).
  apply filter_In. split.
  - cbn [finder_reports with_finder_reports]. apply in_or_app. right. left.
    reflexivity.
  - cbn [Report.item_id]. rewrite <- Hids. apply existsb_exists.
    exists (Item.id it). split; [apply in_map; exact Hit | apply eqb_refl].
Qed.

Lemma get_lost_rows (d : db) (q : body) (rows : list Lost.t)
    (search : jsstring) (cat : value) :
  get_lost d q = rendered rows search cat ->
  exists filteredItems,
    map Lost.id rows = map Item.id filteredItems
    /\ map Lost.item_name rows = map Item.item_name filteredItems
    /\ exists category,
         eq_filter "category" cat = Ok category
         /\ filteredItems
            = (if truthy_str search
               then filter (item_matches (toLowerCase search))
               else fun l => l)
                (newest_items
                   (filter (fun i => eqb (Item.item_status i) (lit "lost")
                                     && where_eq category (Item.category i))
                           (items d))).
Proof.
  unfold get_lost.
  destruct (sanitize (field q "search")) as [s0|]; [|discriminate].
  cbn [JS.bind try_catch]. cbv zeta.
  destruct (eq_filter "category" (or_else (field q "category") []))
    as [category|] eqn:Ecat; [|discriminate].
  cbn [JS.bind try_catch]. intros H. injection H as <- <- <-.
  match goal with
  | |- exists f, map Lost.id (map _ ?l) = _ /\ _ => exists l
  end.
  rewrite !map_map. cbn [Lost.id Lost.item_name].
  split; [reflexivity|]. split; [reflexivity|].
  exists category. split; [exact Ecat|].
  destruct (truthy_str s0); reflexivity.
Qed.

(** X23. The lost board follows the status the owner sets.  After the
    owner has set the status of an item, [GET /lost] renders no row for
    it when the status set is [active] or [recovered], whatever the
    search and the filter, and renders it, without search text and
    category filter, when the status set is [lost]. *)
Theorem lost_board_follows_status (d : db) (s : session) (userId : uuid)
    (id : jsstring) (it : Item.t) (v : jsstring) (b q : body)
    (rows : list Lost.t) (search : jsstring) (cat : value) :
  (forall l, Permutation (newest_items l) l) ->
  logged_in s userId -> unique_item_ids d -> In it (items d) ->
  uuid_in id = Some (Item.id it) -> Item.user_id it = userId ->
  field b "item_status" = str v -> In v allowed ->
  get_lost (store (post_item_status d s id b)) q = rendered rows search cat ->
  (v <> lit "lost" -> ~ In (Item.id it) (map Lost.id rows))
  /\ (v = lit "lost" -> search = [] -> truthy cat = false ->
      In (Item.id it) (map Lost.id rows)).
Proof.
  intros Horder Hs Hu Hin Hid Hown Hb Hv Hq.
  rewrite (post_item_status_owner d s userId id it v b Hs Hu Hin Hid Hown Hb Hv) in Hq.
  destruct (get_lost_rows _ q rows search cat Hq)
    as [filteredItems [-> [_ [category [Ecat Hf]]]]].
  split.
  - intros Hne Hrow. apply in_map_iff in Hrow as [i [Hi Hlisted]].
    rewrite Hf in Hlisted.
    assert (Hi' : In i (newest_items
              (filter (fun i => eqb (Item.item_status i) (lit "lost")
                                && where_eq category (Item.category i))
                      (items (update_item_status d it v))))).
    { destruct (truthy_str search); [|exact Hlisted].
      apply filter_In in Hlisted as [Hl _]. exact Hl. }
    apply (Permutation_in _ (Horder _)) in Hi'.
    apply filter_In in Hi' as [Hi' Hlost].
    apply andb_true_iff in Hlost as [Hlost _]. apply eqb_eq in Hlost.
    unfold update_item_status in Hi'. simpl in Hi'.
    apply in_map_iff in Hi' as [i0 [<- Hi0]].
    destruct (eqb (Item.id i0) (Item.id it)) eqn:E.
    + simpl in Hlost. exact (Hne Hlost).
    + apply eqb_neq in E. exact (E Hi).
  - intros Hlost -> Hcat. cbn [truthy_str] in Hf.
    apply in_map_iff. exists (Item.set_item_status v it).
    split; [reflexivity|]. rewrite Hf.
    apply (Permutation_in _ (Permutation_sym (Horder _))).
    apply filter_In. split.
    + unfold update_item_status. simpl. apply in_map_iff. exists it.
      rewrite eqb_refl. split; [reflexivity | exact Hin].
    + rewrite (eq_filter_none "category" cat Hcat) in Ecat. injection Ecat as <-.
      simpl. rewrite Hlost. reflexivity.
Qed.

End Handlers.

(** ** Stand-ins for the collaborators of the account and listing routes

    Used where the statements below are run on a concrete request:
    lower-casing of the ASCII letters, a hash that writes the password
    after the salt, listings in reverse order of insertion. *)

Module Stand_in.

Definition toLowerCase (text : jsstring) : jsstring := map lower_ascii text.

Definition bcrypt_hash (salt password : jsstring) : jsstring := salt +++ password.

Definition bcrypt_compare (password stored : jsstring) : bool :=
  eqb (skipn (length stored - length password) stored) password.

Definition newest_items (rows : list Item.t) : list Item.t := rev rows.
Definition newest_reports (rows : list Report.t) : list Report.t := rev rows.
Definition newest_posts (rows : list Post.t) : list Post.t := rev rows.

Definition String_of_query (name : string) : option jsstring :=
  Some (lit "[object Object]").

Definition account_world : account_env :=
  {| genSalt := lit "$2a$10$saltsaltsaltsaltsaltsa";
     users_error := false;
     user_uuid := lit "dddddddd-dddd-4ddd-8ddd-dddddddddddd";
     structured_length_lt_8 := false |}.

(** The sign-up form of a new user, and her login form. *)
Definition carol : body :=
  Sample.form [("full_name", "Carol C"); ("email", " Carol@X.com ");
               ("password", "correct horse")]%string.

Definition carol_login : body :=
  Sample.form [("email", " Carol@X.com "); ("password", "correct horse")]%string.

End Stand_in.


(** ** Token generation *)

Lemma digit_value_digit (n : N) :
  (n < 36)%N -> Legacy.digit_value (digit n) = n.
Proof.
  intros H. unfold Legacy.digit_value, digit.
  destruct (n <? 10)%N eqn:E.
  - apply N.ltb_lt in E.
    assert (H1 : (48 + n <? 58)%N = true) by (apply N.ltb_lt; lia).
    rewrite H1. lia.
  - apply N.ltb_ge in E.
    assert (H1 : (87 + n <? 58)%N = false) by (apply N.ltb_ge; lia).
    rewrite H1. lia.
Qed.

Lemma digit_inj (a b : N) :
  (a < 36)%N -> (b < 36)%N -> digit a = digit b -> a = b.
Proof.
  intros Ha Hb E. rewrite <- (digit_value_digit a Ha), <- (digit_value_digit b Hb).
  rewrite E. reflexivity.
Qed.

Lemma parseInt36_snoc (s : jsstring) (c : char16) :
  Legacy.parseInt36 (s ++ [c])
  = (36 * Legacy.parseInt36 s + Legacy.digit_value c)%N.
Proof. unfold Legacy.parseInt36. rewrite fold_left_app. reflexivity. Qed.

Lemma log2_quotient (n : N) :
  (n / 36 <> 0)%N -> (N.log2 (n / 36) < N.log2 n)%N.
Proof.
  intros Hq.
  assert (Hn : (0 < n)%N).
  { destruct n; [|lia]. exfalso. apply Hq. reflexivity. }
  apply N.log2_lt_pow2; [apply N.neq_0_lt_0; exact Hq|].
  destruct (N.log2_spec n Hn) as [_ Hup].
  rewrite N.pow_succ_r' in Hup.
  apply N.Div0.div_lt_upper_bound. lia.
Qed.

(** The fuel of [toString36] is enough: the digits read back as the
    number. *)
Lemma parseInt36_digits (fuel : nat) :
  forall n, N.to_nat (N.log2 n) < fuel ->
            Legacy.parseInt36 (Legacy.digits fuel 36 n) = n.
Proof.
  induction fuel as [|fuel IH]; intros n Hn; [lia|].
  simpl Legacy.digits. rewrite parseInt36_snoc.
  rewrite digit_value_digit by (apply N.mod_lt; lia).
  destruct (n / 36 =? 0)%N eqn:E.
  - apply N.eqb_eq in E. change (Legacy.parseInt36 []) with 0%N.
    pose proof (N.Div0.div_mod n 36). rewrite E in H. lia.
  - apply N.eqb_neq in E. rewrite IH.
    + pose proof (N.Div0.div_mod n 36). lia.
    + pose proof (log2_quotient n E). lia.
Qed.

Lemma parseInt36_toString36 (n : N) :
  Legacy.parseInt36 (Legacy.toString36 n) = n.
Proof. unfold Legacy.toString36. apply parseInt36_digits. lia. Qed.

Lemma skipn_length_app {A} (a b : list A) : skipn (length a) (a ++ b) = b.
Proof. induction a as [|x a IH]; simpl; [reflexivity | exact IH]. Qed.

(** The clock reading is the tail of every token of the earlier server. *)
Lemma cryptoRandomToken_clock (e : Legacy.env) :
  Legacy.parseInt36
    (skipn (length (Legacy.slice2 (Legacy.Math_random_toString36 e)))
           (Legacy.cryptoRandomToken e))
  = Legacy.Date_now e.
Proof.
  unfold Legacy.cryptoRandomToken. rewrite skipn_length_app.
  apply parseInt36_toString36.
Qed.

(** [generateToken] keeps every bit of the sixteen random bytes: distinct
    draws give distinct tokens, of two characters per byte. *)
Lemma hex_of_byte_inj (b1 b2 : byte) :
  hex_of_byte b1 = hex_of_byte b2 -> b1 = b2.
Proof.
  unfold hex_of_byte. intros E. injection E as Ehi Elo.
  pose proof (Byte.to_N_bounded b1) as B1.
  pose proof (Byte.to_N_bounded b2) as B2.
  apply digit_inj in Ehi;
    [|apply N.Div0.div_lt_upper_bound; lia|apply N.Div0.div_lt_upper_bound; lia].
  apply digit_inj in Elo;
    [|pose proof (N.mod_lt (Byte.to_N b1) 16); lia
     |pose proof (N.mod_lt (Byte.to_N b2) 16); lia].
  assert (Hn : Byte.to_N b1 = Byte.to_N b2).
  { rewrite (N.Div0.div_mod (Byte.to_N b1) 16), (N.Div0.div_mod (Byte.to_N b2) 16).
    rewrite Ehi, Elo. reflexivity. }
  pose proof (Byte.of_to_N b1) as O1. rewrite Hn, Byte.of_to_N in O1.
  injection O1 as ->. reflexivity.
Qed.

Lemma generateToken_inj (l1 l2 : list byte) :
  generateToken l1 = generateToken l2 -> l1 = l2.
Proof.
  unfold generateToken, toString_hex.
  revert l2. induction l1 as [|b1 l1 IH]; intros [|b2 l2] E; simpl in E;
    try discriminate; [reflexivity|].
  injection E as Ehi Elo E.
  f_equal; [|apply IH; exact E].
  apply hex_of_byte_inj. unfold hex_of_byte. rewrite Ehi, Elo. reflexivity.
Qed.

Lemma generateToken_length (bytes : list byte) :
  length (generateToken bytes) = 2 * length bytes.
Proof.
  unfold generateToken, toString_hex.
  induction bytes as [|b l IH]; simpl; [reflexivity|]. rewrite IH. lia.
Qed.

(** C3. On the earlier server the claim fails: the token [POST /dashboard]
    stores for a new item is [cryptoRandomToken()], the digits of
    [Math.random()] in base 36 followed by the clock in base 36, so the
    time of registration is read back from the tail of the token. *)
Theorem legacy_token_time_derived :
  forall (BASE_URL : jsstring) (toDataURL : jsstring -> jsstring)
         (e : Legacy.env) (d : db) (s : session) (userId : uuid) (b : body)
         (name : jsstring),
    logged_in s userId ->
    Legacy.text_column e (field b "item_name") = Some name ->
    Legacy.insert_error e = None ->
    let o := Legacy.post_dashboard BASE_URL toDataURL e d s b in
    exists row,
      store o = with_items d (items d ++ [row])
      /\ Item.item_name row = name
      /\ Item.token row
         = Legacy.slice2 (Legacy.Math_random_toString36 e)
           ++ Legacy.toString36 (Legacy.Date_now e)
      /\ Legacy.parseInt36
           (skipn (length (Legacy.slice2 (Legacy.Math_random_toString36 e)))
                  (Item.token row))
         = Legacy.Date_now e.
Proof.
  intros BASE_URL toDataURL e d s userId b name Hs Hname Hins o. subst o.
  unfold Legacy.post_dashboard.
  rewrite (requireAuth_logged_in s userId d _ Hs), Hname, Hins.
  eexists. split; [reflexivity|]. split; [reflexivity|].
  split; [reflexivity|]. apply cryptoRandomToken_clock.
Qed.

Lemma hex_of_byte_chars (b : byte) : forallb hex_char (hex_of_byte b) = true.
Proof. destruct b; reflexivity. Qed.

(** X24. [generateToken] writes two characters per random byte, each from
    [0-9a-f], so that a token of 16 bytes has 32 characters that need no
    escaping in the path [/found/<token>]; and it loses nothing of the
    draw: two draws give the same token only when they are the same
    bytes. *)
Theorem generateToken_spec (bytes : list byte) :
  length (generateToken bytes) = 2 * length bytes
  /\ (length bytes = 16 -> length (generateToken bytes) = 32)
  /\ forallb hex_char (generateToken bytes) = true
  /\ (forall bytes', generateToken bytes = generateToken bytes' -> bytes = bytes').
Proof.
  split; [apply generateToken_length|]. split; [|split].
  - intros H. rewrite generateToken_length, H. reflexivity.
  - unfold generateToken, toString_hex.
    induction bytes as [|b l IH]; [reflexivity|].
    cbn [flat_map]. rewrite forallb_app, hex_of_byte_chars, IH. reflexivity.
  - intros bytes'. apply generateToken_inj.
Qed.

(** ** The e-mail check and [sanitize] *)

Lemma not_space_at_chars (l : jsstring) :
  forallb not_space_at l = true ->
  (forall c, In c l -> is_space c = false) /\ filter (N.eqb at_sign) l = [].
Proof.
  intros H. rewrite forallb_forall in H. split.
  - intros c Hc. specialize (H c Hc). unfold not_space_at in H.
    apply negb_true_iff, orb_false_iff in H. apply H.
  - apply filter_none. intros c Hc. specialize (H c Hc). unfold not_space_at in H.
    apply negb_true_iff, orb_false_iff in H as [_ H].
    rewrite N.eqb_sym. exact H.
Qed.

(** X25. [isValidEmail] accepts exactly the texts [a@b.c] in which [a],
    [b] and [c] are non-empty and hold neither white space nor [@].  An
    accepted e-mail therefore has at least 5 characters, no white space
    anywhere, exactly one [@], and a full stop after the [@]. *)
Theorem email_check_language (s : jsstring) :
  (isValidEmail s = true <-> email_shape s)
  /\ (isValidEmail s = true ->
      5 <= length s
      /\ (forall c, In c s -> is_space c = false)
      /\ length (filter (N.eqb at_sign) s) = 1
      /\ exists local domain,
           s = local ++ at_sign :: domain /\ In full_stop domain).
Proof.
  split; [apply isValidEmail_shape|].
  intros H. apply isValidEmail_shape in H
    as [a [b [c [-> [Ha [Hb [Hc [Fa [Fb Fc]]]]]]]]].
  destruct (not_space_at_chars a Fa) as [Sa Aa].
  destruct (not_space_at_chars b Fb) as [Sb Ab].
  destruct (not_space_at_chars c Fc) as [Sc Ac].
  split; [|split; [|split]].
  - rewrite length_app. simpl. rewrite length_app. simpl.
    destruct a; [contradiction|]. destruct b; [contradiction|].
    destruct c; [contradiction|]. simpl. lia.
  - intros x Hx. apply in_app_or in Hx as [Hx|[<-|Hx]];
      [exact (Sa x Hx) | reflexivity |].
    apply in_app_or in Hx as [Hx|[<-|Hx]];
      [exact (Sb x Hx) | reflexivity | exact (Sc x Hx)].
  - change (a ++ at_sign :: b ++ full_stop :: c)
      with (a ++ [at_sign] ++ b ++ [full_stop] ++ c).
    unfold char16 in *. rewrite !filter_app, Aa, Ab, Ac. reflexivity.
  - exists a, (b ++ full_stop :: c). split; [reflexivity|].
    apply in_or_app. right. left. reflexivity.
Qed.

Lemma trimStart_spec (s : jsstring) :
  exists p, s = p ++ trimStart s /\ forallb is_space p = true
            /\ (trimStart s = [] \/ exists c t, trimStart s = c :: t /\ is_space c = false).
Proof.
  induction s as [|c s [p [Hp [Hsp Hhd]]]]; simpl.
  - exists []. repeat split. left. reflexivity.
  - destruct (is_space c) eqn:E.
    + exists (c :: p). simpl. rewrite E, Hsp. repeat split; [congruence | exact Hhd].
    + exists []. repeat split. right. exists c, s. split; [reflexivity | exact E].
Qed.

Lemma trimStart_fixed (c : char16) (t : jsstring) :
  is_space c = false -> trimStart (c :: t) = c :: t.
Proof. intros H. simpl. rewrite H. reflexivity. Qed.

(** The ends of a trimmed text. *)
Lemma trim_spec (s : jsstring) :
  exists p q,
    s = p ++ trim s ++ q
    /\ forallb is_space p = true /\ forallb is_space q = true
    /\ (trim s = []
        \/ exists c t, trim s = c :: t /\ is_space c = false
                       /\ is_space (last (c :: t) c) = false)
    /\ trim (trim s) = trim s.
Proof.
  unfold trim, trimEnd.
  destruct (trimStart_spec s) as [p [Hp [Hsp Hhd]]].
  destruct (trimStart_spec (rev (trimStart s))) as [q [Hq [Hsq Hlast]]].
  set (t1 := trimStart s) in *. set (t2 := trimStart (rev t1)) in *.
  assert (Ht1 : t1 = rev t2 ++ rev q).
  { rewrite <- rev_app_distr, <- Hq, rev_involutive. reflexivity. }
  exists p, (rev q). split; [rewrite <- Ht1; exact Hp|].
  split; [exact Hsp|]. split.
  { rewrite forallb_forall in *. intros x Hx. apply Hsq. apply in_rev. exact Hx. }
  destruct Hlast as [E | [c [t [E Hc]]]].
  - rewrite E. simpl. split; [left; reflexivity | reflexivity].
  - assert (Hne : rev t2 <> []).
    { rewrite E. simpl. intros H. apply app_eq_nil in H as [_ H]. discriminate. }
    destruct (rev t2) as [|c0 t0] eqn:Erev; [contradiction|].
    assert (Hc0 : is_space c0 = false).
    { destruct Hhd as [Hnil | [c1 [t3 [E1 Hc1]]]].
      - rewrite Hnil in Ht1. discriminate.
      - rewrite E1 in Ht1. simpl in Ht1. injection Ht1 as -> _. exact Hc1. }
    assert (Hl : last (c0 :: t0) c0 = c).
    { rewrite <- Erev, E. simpl rev. apply last_last. }
    split.
    + right. exists c0, t0. split; [reflexivity|]. split; [exact Hc0|].
      rewrite Hl. exact Hc.
    + rewrite (trimStart_fixed c0 t0 Hc0).
      assert (Hrev : rev (c0 :: t0) = c :: t).
      { rewrite <- Erev, rev_involutive. exact E. }
      rewrite Hrev, (trimStart_fixed c t Hc), <- Hrev. apply rev_involutive.
Qed.

(** X26. [sanitize] removes white space from the two ends of a text and
    nothing else: the result is the text between a prefix and a suffix
    of white space, it neither starts nor ends with white space, and
    sanitizing it again changes nothing.  A missing field gives the
    empty text; an array or an object makes it throw. *)
Theorem sanitize_spec (v : value) :
  (v = undefined -> sanitize v = Ok [])
  /\ (v = structured -> sanitize v = Throw)
  /\ (forall s, v = str s ->
        exists t p q,
          sanitize v = Ok t
          /\ s = p ++ t ++ q
          /\ forallb is_space p = true /\ forallb is_space q = true
          /\ (t = []
              \/ exists c t', t = c :: t' /\ is_space c = false
                              /\ is_space (last t c) = false)
          /\ sanitize (str t) = Ok t).
Proof.
  split; [intros ->; reflexivity|]. split; [intros ->; reflexivity|].
  intros s ->. rewrite sanitize_str.
  destruct (trim_spec s) as [p [q [Hs [Hp [Hq [Hends Hidem]]]]]].
  exists (trim s), p, q. split; [reflexivity|]. split; [exact Hs|].
  split; [exact Hp|]. split; [exact Hq|]. split.
  - destruct Hends as [E | [c [t [E [Hc Hl]]]]]; [left; exact E|].
    right. exists c, t. rewrite E. repeat split; assumption.
  - rewrite sanitize_str, Hidem. reflexivity.
Qed.


(** ** The statements on the sample store *)

Lemma sample_logged_in (u : uuid) :
  truthy_str u = true -> logged_in (Some u) u.
Proof. intros H. split; [reflexivity | exact H]. Defined.

Lemma sample_unique_reports : unique_report_ids Sample.store0.
Proof. repeat constructor. intros []. Defined.

Lemma sample_unique_items : unique_item_ids Sample.store0.
Proof. repeat constructor. intros []. Defined.

Lemma sample_unique_posts : unique_post_ids Sample.store0.
Proof. repeat constructor. intros []. Defined.

(** Bob, who does not own the laptop, resolves the report on it: 403.
    Alice, who owns it, resolves it: the stored report is [resolved]. *)
Lemma resolve_report_witness :
  (logged_in (Some Sample.bob) Sample.bob
   /\ post_report_resolve Sample.store0 (Some Sample.bob) (int 1)
      = forbidden Sample.store0)
  /\ (logged_in (Some Sample.alice) Sample.alice
      /\ exists x,
           In x (finder_reports
                   (store (post_report_resolve Sample.store0 (Some Sample.alice)
                             (int 1))))
           /\ Report.id x = Report.id Sample.report
           /\ Report.status x = lit "resolved").
Proof.
  assert (Hb : logged_in (Some Sample.bob) Sample.bob)
    by (apply sample_logged_in; reflexivity).
  assert (Ha : logged_in (Some Sample.alice) Sample.alice)
    by (apply sample_logged_in; reflexivity).
  split; (split; [assumption|]).
  - destruct (resolve_report_spec Sample.store0 (Some Sample.bob) Sample.bob
                (int 1) Hb) as [_ [Hforbidden _]].
    assert (Hother : forall it, In it (items Sample.store0) ->
                       Item.id it = Report.item_id Sample.report ->
                       Item.user_id it <> Sample.bob).
    { intros it [<-|[]] _. vm_compute. discriminate. }
    destruct (Hforbidden Sample.report sample_unique_reports
                (or_introl eq_refl) eq_refl Hother) as [Hres _].
    exact Hres.
  - destruct (resolve_report_spec Sample.store0 (Some Sample.alice) Sample.alice
                (int 1) Ha) as [_ [_ [Howner _]]].
    destruct (Howner Sample.report Sample.laptop sample_unique_reports
                sample_unique_items (or_introl eq_refl) eq_refl
                (or_introl eq_refl) eq_refl eq_refl)
      as [_ [_ [_ [[x [Hx [Hid [Hst _]]]] _]]]].
    exists x. repeat split; assumption.
Defined.


(** Bob claims the umbrella, which is unclaimed: it becomes claimed. *)
Lemma claim_found_post_witness :
  logged_in (Some Sample.bob) Sample.bob
  /\ In (Post.set_status (lit "claimed") Sample.umbrella)
        (found_posts
           (store (post_found_items_claim Sample.store0 (Some Sample.bob) (int 1)))).
Proof.
  assert (Hs : logged_in (Some Sample.bob) Sample.bob)
    by (apply sample_logged_in; reflexivity).
  split; [exact Hs|].
  destruct (claim_found_post_spec Sample.BASE_URL Sample.toDataURL
              Sample.sharp_jpeg Sample.getPublicUrl Sample.uuid_in
              Sample.store0 (Some Sample.bob) Sample.bob (int 1) Hs)
    as [_ [Hclaim _]].
  destruct (Hclaim Sample.umbrella sample_unique_posts (or_introl eq_refl)
              eq_refl eq_refl) as [_ [Hmarked _]].
  exact Hmarked.
Defined.


(** Two claims of the umbrella, one after the other: one goes through. *)
Lemma concurrent_claims_witness :
  (unique_post_ids Sample.store0 /\ In Sample.umbrella (found_posts Sample.store0))
  /\ exists d' t1 t2,
       interleave [true; true; false; false] Sample.store0
         (await_claim_select (int 1)) (await_claim_select (int 1))
       = (d', t1, t2)
       /\ xorb (claim_succeeded t1) (claim_succeeded t2) = true
       /\ xorb (claim_refused t1) (claim_refused t2) = true
       /\ d' = claim_update Sample.store0 Sample.umbrella.
Proof.
  assert (Hin : In Sample.umbrella (found_posts Sample.store0))
    by (left; reflexivity).
  split; [split; [exact sample_unique_posts | exact Hin]|].
  destruct (concurrent_claims Sample.store0 (int 1) Sample.umbrella
              sample_unique_posts Hin eq_refl eq_refl) as [Hserial _].
  apply Hserial. left. reflexivity.
Defined.


(** The earlier server registers a laptop at clock 1700000000000. *)
Lemma legacy_token_witness :
  logged_in (Some Sample.alice) Sample.alice
  /\ exists row,
       store (Legacy.post_dashboard Sample.BASE_URL Sample.toDataURL
                Sample.legacy_world Sample.store0 (Some Sample.alice)
                (Sample.form [("item_name", "Laptop")%string]))
       = with_items Sample.store0 (items Sample.store0 ++ [row])
       /\ Item.token row = lit "4fzyo82mvyrloyw3v28"
       /\ Legacy.parseInt36 (skipn 11 (Item.token row)) = 1700000000000%N.
Proof.
  assert (Hs : logged_in (Some Sample.alice) Sample.alice)
    by (apply sample_logged_in; reflexivity).
  split; [exact Hs|].
  destruct (legacy_token_time_derived Sample.BASE_URL Sample.toDataURL
              Sample.legacy_world Sample.store0 (Some Sample.alice) Sample.alice
              (Sample.form [("item_name", "Laptop")%string]) (lit "Laptop")
              Hs eq_refl eq_refl) as [row [Hstore [_ [Htoken Hclock]]]].
  exists row. split; [exact Hstore|]. split.
  - rewrite Htoken. reflexivity.
  - exact Hclock.
Defined.

Lemma sample_unique_tokens : unique_tokens Sample.store0.
Proof. repeat constructor. intros []. Defined.

Lemma sample_report_inputs :
  report_inputs_valid (lit "Bo") (lit "bo@x.com") (lit "saw it").
Proof. unfold report_inputs_valid. simpl. repeat split; lia. Defined.

(** A finder scans the QR code of the laptop and reports it: the table
    of reports gains one open report on the laptop. *)
Lemma submit_finder_report_witness :
  exists row,
    finder_reports
      (store (post_found_token Sample.world Sample.store0 (Item.token Sample.laptop)
                (Sample.form [("finder_name", "Bo"); ("finder_email", "bo@x.com");
                              ("message", "saw it")]%string)))
    = finder_reports Sample.store0 ++ [row]
    /\ Report.status row = lit "open"
    /\ Report.item_id row = Item.id Sample.laptop
    /\ Report.finder_name row = lit "Bo"
    /\ Report.finder_email row = lit "bo@x.com"
    /\ Report.message row = lit "saw it".
Proof.
  destruct (submit_finder_report_spec Sample.world Sample.store0
              (Item.token Sample.laptop)
              (Sample.form [("finder_name", "Bo"); ("finder_email", "bo@x.com");
                            ("message", "saw it")]%string))
    as [_ [_ [_ [_ [_ [_ [_ [_ [_ [Hbound _]]]]]]]]]].
  destruct (Hbound Sample.laptop (lit "Bo") (lit "bo@x.com") [] (lit "saw it")
              sample_unique_tokens (or_introl eq_refl) eq_refl
              eq_refl eq_refl eq_refl eq_refl) as [_ Hvalid].
  destruct (Hvalid sample_report_inputs eq_refl)
    as [row [Htable [_ [_ [Hstatus [Hitem [Hname [Hemail [_ Hmessage]]]]]]]]].
  exists row. repeat split; assumption.
Defined.

(** Someone reports a sighting of the laptop, which is lost: the table
    of reports gains one open report on the laptop, its message
    prefixed. *)
Lemma submit_sighting_witness :
  exists row,
    finder_reports
      (store (post_lost_sighting Sample.uuid_in Sample.world Sample.store0
                (Item.id Sample.laptop)
                (Sample.form [("reporter_name", "Bo"); ("reporter_email", "bo@x.com");
                              ("message", "saw it")]%string)))
    = finder_reports Sample.store0 ++ [row]
    /\ Report.status row = lit "open"
    /\ Report.item_id row = Item.id Sample.laptop
    /\ Report.finder_name row = lit "Bo"
    /\ Report.finder_email row = lit "bo@x.com"
    /\ Report.message row = lit "[Sighting] saw it".
Proof.
  destruct (submit_sighting_spec Sample.uuid_in Sample.world Sample.store0
              (Item.id Sample.laptop)
              (Sample.form [("reporter_name", "Bo"); ("reporter_email", "bo@x.com");
                            ("message", "saw it")]%string))
    as [_ [_ [_ [_ [_ [_ [_ [Hlost _]]]]]]]].
  destruct (Hlost Sample.laptop (lit "Bo") (lit "bo@x.com") [] (lit "saw it")
              sample_unique_items (or_introl eq_refl) eq_refl eq_refl
              eq_refl eq_refl eq_refl eq_refl) as [_ Hvalid].
  destruct (Hvalid sample_report_inputs eq_refl)
    as [row [Htable [_ [_ [Hstatus [Hitem [Hname [Hemail [_ Hmessage]]]]]]]]].
  exists row. repeat split; assumption.
Defined.

(** A token that no item carries: 404 on the QR page. *)
Lemma resolveToken_witness :
  get_found_token Sample.store0 (lit "0011") = not_found Sample.store0.
Proof.
  destruct (resolveToken_exact_match Sample.world Sample.store0 (lit "0011"))
    as [Hunbound _].
  assert (Hnone : forall it, In it (items Sample.store0) ->
                             Item.token it <> lit "0011").
  { intros it [<-|[]]. vm_compute. discriminate. }
  destruct (Hunbound Hnone) as [_ [Hget _]].
  exact Hget.
Defined.


(** C9, as the specification states it, fails: when both selects run
    before either update, both claims of the umbrella go through. *)
Lemma both_claims_go_through : ~ exactly_one_claim.
Proof.
  intros H.
  destruct (interleave [true; false; true; false] Sample.store0
              (await_claim_select (int 1)) (await_claim_select (int 1)))
    as [[d' t1] t2] eqn:E.
  assert (Hin : In Sample.umbrella (found_posts Sample.store0))
    by (left; reflexivity).
  pose proof (H Sample.store0 (int 1) Sample.umbrella [true; false; true; false]
                d' t1 t2 sample_unique_posts Hin eq_refl eq_refl E) as Hone.
  vm_compute in E. injection E as <- <- <-.
  destruct (Hone eq_refl eq_refl) as [Hx _].
  vm_compute in Hx. discriminate.
Qed.

(** ** The further statements on the sample store *)

Lemma sample_reports_have_items : reports_have_items Sample.store0.
Proof.
  intros r [<-|[]]. exists Sample.laptop.
  split; [left; reflexivity | reflexivity].
Defined.

Lemma sample_statuses_known : statuses_known Sample.store0.
Proof.
  split; [|split].
  - intros x [<-|[]]. right. left. reflexivity.
  - intros x [<-|[]]. left. reflexivity.
  - intros x [<-|[]]. left. reflexivity.
Defined.

Lemma sample_consistent : consistent Sample.store0.
Proof.
  split; [exact sample_unique_items|].
  split; [exact sample_unique_tokens|].
  split; [exact sample_unique_reports | exact sample_unique_posts].
Defined.

Lemma stand_in_newest_items (l : list Item.t) :
  Permutation (Stand_in.newest_items l) l.
Proof. apply Permutation_sym, Permutation_rev. Defined.

Lemma stand_in_newest_reports (l : list Report.t) :
  Permutation (Stand_in.newest_reports l) l.
Proof. apply Permutation_sym, Permutation_rev. Defined.

Lemma stand_in_newest_posts (l : list Post.t) :
  Permutation (Stand_in.newest_posts l) l.
Proof. apply Permutation_sym, Permutation_rev. Defined.

Lemma stand_in_bcrypt (salt p : jsstring) :
  Stand_in.bcrypt_compare p (Stand_in.bcrypt_hash salt p) = true.
Proof.
  unfold Stand_in.bcrypt_compare, Stand_in.bcrypt_hash.
  rewrite length_app.
  replace (length salt + length p - length p) with (length salt) by lia.
  rewrite skipn_length_app. apply eqb_refl.
Defined.

(** Alice deletes her laptop: the report on it goes with it. *)
Lemma reports_keep_their_items_witness :
  reports_have_items Sample.store0
  /\ reports_have_items
       (serve Sample.BASE_URL Sample.toDataURL Sample.sharp_jpeg
          Sample.getPublicUrl Sample.uuid_in Sample.store0
          [(Sample.world,
            POST_item_delete (Some Sample.alice) (Item.id Sample.laptop))]).
Proof.
  split; [exact sample_reports_have_items|].
  exact (reports_keep_their_items Sample.BASE_URL Sample.toDataURL
           Sample.sharp_jpeg Sample.getPublicUrl Sample.uuid_in _ _
           sample_reports_have_items).
Defined.

(** Alice marks her laptop as recovered. *)
Lemma statuses_stay_known_witness :
  statuses_known Sample.store0
  /\ statuses_known
       (serve Sample.BASE_URL Sample.toDataURL Sample.sharp_jpeg
          Sample.getPublicUrl Sample.uuid_in Sample.store0
          [(Sample.world,
            POST_item_status (Some Sample.alice) (Item.id Sample.laptop)
              (Sample.form [("item_status", "recovered")%string]))]).
Proof.
  split; [exact sample_statuses_known|].
  exact (statuses_stay_known Sample.BASE_URL Sample.toDataURL
           Sample.sharp_jpeg Sample.getPublicUrl Sample.uuid_in _ _
           sample_statuses_known).
Defined.

(** Alice registers a second item. *)
Lemma keys_stay_unique_witness :
  consistent Sample.store0
  /\ unique_tokens
       (serve Sample.BASE_URL Sample.toDataURL Sample.sharp_jpeg
          Sample.getPublicUrl Sample.uuid_in Sample.store0
          [(Sample.world,
            POST_dashboard (Some Sample.alice)
              (Sample.form [("item_name", "Keys")%string]) None)]).
Proof.
  split; [exact sample_consistent|].
  destruct (keys_stay_unique Sample.BASE_URL Sample.toDataURL
              Sample.sharp_jpeg Sample.getPublicUrl Sample.uuid_in
              [(Sample.world,
                POST_dashboard (Some Sample.alice)
                  (Sample.form [("item_name", "Keys")%string]) None)]
              Sample.store0 sample_consistent) as [_ [Ht _]].
  exact Ht.
Defined.

(** Carol signs up without a session: the items stay, and the one row
    the request adds to [users] is hers. *)
Lemma anonymous_requests_only_append_witness :
  site_actor (POST_signup Stand_in.account_world Stand_in.carol) = None
  /\ items
       (site_store Sample.BASE_URL Sample.toDataURL Sample.sharp_jpeg
          Sample.getPublicUrl Sample.uuid_in Stand_in.toLowerCase
          Stand_in.bcrypt_hash Stand_in.bcrypt_compare Sample.store0
          (POST_signup Stand_in.account_world Stand_in.carol))
     = items Sample.store0
  /\ length
       (users
          (site_store Sample.BASE_URL Sample.toDataURL Sample.sharp_jpeg
             Sample.getPublicUrl Sample.uuid_in Stand_in.toLowerCase
             Stand_in.bcrypt_hash Stand_in.bcrypt_compare Sample.store0
             (POST_signup Stand_in.account_world Stand_in.carol)))
     = 3.
Proof.
  split; [reflexivity|].
  destruct (anonymous_requests_only_append Sample.BASE_URL Sample.toDataURL
              Sample.sharp_jpeg Sample.getPublicUrl Sample.uuid_in
              Stand_in.toLowerCase Stand_in.bcrypt_hash Stand_in.bcrypt_compare
              Sample.store0 (POST_signup Stand_in.account_world Stand_in.carol)
              eq_refl) as [Hitems _].
  split; [exact Hitems | reflexivity].
Defined.

(** Bob tries to delete Alice's laptop: refused. *)
Lemma delete_item_spec_witness :
  logged_in (Some Sample.bob) Sample.bob
  /\ post_item_delete Sample.uuid_in Sample.store0 (Some Sample.bob)
       (Item.id Sample.laptop)
     = flash_redirect Sample.store0 "error" "Item not found." "/dashboard".
Proof.
  assert (Hs : logged_in (Some Sample.bob) Sample.bob)
    by (apply sample_logged_in; reflexivity).
  split; [exact Hs|].
  destruct (delete_item_spec Sample.uuid_in Sample.store0 (Some Sample.bob)
              Sample.bob (Item.id Sample.laptop) Hs) as [Hrefused _].
  apply Hrefused. intros it [<-|[]] _. vm_compute. discriminate.
Defined.

(** Alice registers her keys: the token of the new item resolves. *)
Lemma registered_item_is_found_witness :
  post_dashboard Sample.BASE_URL Sample.toDataURL Sample.sharp_jpeg
    Sample.getPublicUrl Sample.world Sample.store0 (Some Sample.alice)
    (Sample.form [("item_name", "Keys")%string]) None
  = flash_redirect
      (store
         (post_dashboard Sample.BASE_URL Sample.toDataURL Sample.sharp_jpeg
            Sample.getPublicUrl Sample.world Sample.store0 (Some Sample.alice)
            (Sample.form [("item_name", "Keys")%string]) None))
      "success" "Item registered and QR generated." "/dashboard"
  /\ exists it,
       resolveToken
         (store
            (post_dashboard Sample.BASE_URL Sample.toDataURL Sample.sharp_jpeg
               Sample.getPublicUrl Sample.world Sample.store0 (Some Sample.alice)
               (Sample.form [("item_name", "Keys")%string]) None))
         (Item.token it)
       = Some it.
Proof.
  assert (H : post_dashboard Sample.BASE_URL Sample.toDataURL Sample.sharp_jpeg
                Sample.getPublicUrl Sample.world Sample.store0 (Some Sample.alice)
                (Sample.form [("item_name", "Keys")%string]) None
              = flash_redirect
                  (store
                     (post_dashboard Sample.BASE_URL Sample.toDataURL
                        Sample.sharp_jpeg Sample.getPublicUrl Sample.world
                        Sample.store0 (Some Sample.alice)
                        (Sample.form [("item_name", "Keys")%string]) None))
                  "success" "Item registered and QR generated." "/dashboard")
    by (vm_compute; reflexivity).
  split; [exact H|].
  destruct (registered_item_is_found Sample.BASE_URL Sample.toDataURL
              Sample.sharp_jpeg Sample.getPublicUrl Sample.world Sample.store0
              _ (Some Sample.alice) _ None H)
    as [it [_ [_ [_ [_ [Hres _]]]]]].
  exists it. exact Hres.
Defined.

(** Alice marks her laptop as recovered; a sighting of it is refused. *)
Lemma sightings_follow_status_witness :
  logged_in (Some Sample.alice) Sample.alice
  /\ post_lost_sighting Sample.uuid_in Sample.world
       (store (post_item_status Sample.uuid_in Sample.store0 (Some Sample.alice)
                 (Item.id Sample.laptop)
                 (Sample.form [("item_status", "recovered")%string])))
       (Item.id Sample.laptop)
       (Sample.form [("reporter_name", "Bo"); ("reporter_email", "bo@x.com");
                     ("message", "saw it")]%string)
     = flash_redirect
         (store (post_item_status Sample.uuid_in Sample.store0 (Some Sample.alice)
                   (Item.id Sample.laptop)
                   (Sample.form [("item_status", "recovered")%string])))
         "error" "Item not found." "/lost".
Proof.
  assert (Hs : logged_in (Some Sample.alice) Sample.alice)
    by (apply sample_logged_in; reflexivity).
  split; [exact Hs|].
  destruct (sightings_follow_status Sample.uuid_in Sample.world Sample.store0
              (Some Sample.alice) Sample.alice (Item.id Sample.laptop)
              Sample.laptop (lit "recovered")
              (Sample.form [("item_status", "recovered")%string])
              (Sample.form [("reporter_name", "Bo"); ("reporter_email", "bo@x.com");
                            ("message", "saw it")]%string)
              (lit "Bo") (lit "bo@x.com") [] (lit "saw it")
              Hs sample_unique_items (or_introl eq_refl) eq_refl eq_refl eq_refl
              (or_intror (or_intror (or_introl eq_refl)))
              eq_refl eq_refl eq_refl eq_refl) as [Hrefused _].
  apply Hrefused. vm_compute. discriminate.
Defined.

(** Carol signs up and logs in. *)
Lemma signup_then_login_witness :
  (forall salt p,
     Stand_in.bcrypt_compare p (Stand_in.bcrypt_hash salt p) = true)
  /\ session_userId
       (post_login Stand_in.toLowerCase Stand_in.bcrypt_compare
          (store (post_signup Stand_in.toLowerCase Stand_in.bcrypt_hash
                    Stand_in.account_world Sample.store0 Stand_in.carol))
          None Stand_in.carol_login)
     = Some (user_uuid Stand_in.account_world).
Proof.
  split; [exact stand_in_bcrypt|].
  rewrite (signup_then_login Stand_in.toLowerCase Stand_in.bcrypt_hash
             Stand_in.bcrypt_compare Stand_in.account_world Sample.store0
             (store (post_signup Stand_in.toLowerCase Stand_in.bcrypt_hash
                       Stand_in.account_world Sample.store0 Stand_in.carol))
             None Stand_in.carol Stand_in.carol_login
             (lit " Carol@X.com ") (lit "correct horse")
             stand_in_bcrypt eq_refl eq_refl eq_refl eq_refl eq_refl eq_refl).
  reflexivity.
Defined.

(** Alice's account page: one item, one open report. *)
Lemma account_counts_witness :
  logged_in (Some Sample.alice) Sample.alice
  /\ get_account Sample.uuid_in Sample.store0 (Some Sample.alice) = account 1 1 0.
Proof.
  assert (Hs : logged_in (Some Sample.alice) Sample.alice)
    by (apply sample_logged_in; reflexivity).
  split; [exact Hs|].
  destruct (account_counts Sample.uuid_in Sample.store0 (Some Sample.alice)
              Sample.alice Hs) as [n [o [r [Hget _]]]].
  rewrite Hget. vm_compute in Hget. injection Hget as <- <- <-. reflexivity.
Defined.

(** The found-items board of the sample store lists the umbrella. *)
Lemma found_board_spec_witness :
  (forall l, Permutation (Stand_in.newest_posts l) l)
  /\ forall p, In p (found_posts Sample.store0) ->
       Post.status p = lit "unclaimed" ->
       In p [Sample.umbrella].
Proof.
  split; [exact stand_in_newest_posts|].
  destruct (found_board_spec Stand_in.toLowerCase Stand_in.newest_posts
              Stand_in.String_of_query Sample.store0 (Sample.form [])
              stand_in_newest_posts) as [_ [_ Hrows]].
  destruct (Hrows [Sample.umbrella] [] (str []) eq_refl) as [_ Hall].
  exact (Hall eq_refl eq_refl).
Defined.

(** Bob claims the umbrella: the board no longer lists it. *)
Lemma claimed_post_leaves_board_witness :
  logged_in (Some Sample.bob) Sample.bob
  /\ forall rows search cat,
       get_found_items Stand_in.toLowerCase Stand_in.newest_posts
         Stand_in.String_of_query
         (serve Sample.BASE_URL Sample.toDataURL Sample.sharp_jpeg
            Sample.getPublicUrl Sample.uuid_in
            (store (post_found_items_claim Sample.store0 (Some Sample.bob) (int 1)))
            [])
         (Sample.form [])
       = rendered rows search cat ->
       forall x, In x rows -> Post.id x <> Post.id Sample.umbrella.
Proof.
  assert (Hs : logged_in (Some Sample.bob) Sample.bob)
    by (apply sample_logged_in; reflexivity).
  split; [exact Hs|].
  exact (claimed_post_leaves_board Sample.BASE_URL Sample.toDataURL
           Sample.sharp_jpeg Sample.getPublicUrl Sample.uuid_in
           Stand_in.toLowerCase Stand_in.newest_posts Stand_in.String_of_query
           Sample.store0 (Some Sample.bob) Sample.bob (int 1) Sample.umbrella []
           (Sample.form []) stand_in_newest_posts Hs sample_consistent
           (or_introl eq_refl) eq_refl eq_refl).
Defined.

(** The lost board of the sample store: the laptop, owner [Alice]. *)
Lemma lost_board_spec_witness :
  (forall l, Permutation (Stand_in.newest_items l) l)
  /\ exists rows,
       get_lost Stand_in.toLowerCase Stand_in.newest_items
         Stand_in.String_of_query Sample.store0 (Sample.form [])
       = rendered rows [] (str [])
       /\ forall r, In r rows ->
            exists i, In i (items Sample.store0)
                      /\ Item.item_status i = lit "lost"
                      /\ Lost.id r = Item.id i.
Proof.
  split; [exact stand_in_newest_items|].
  eexists. split; [vm_compute; reflexivity|].
  intros r Hr.
  destruct (lost_board_spec Stand_in.toLowerCase Stand_in.newest_items
              Stand_in.String_of_query Sample.store0 (Sample.form [])
              _ [] (str []) stand_in_newest_items eq_refl r Hr)
    as [[i [Hi [Hst [Hid _]]]] _].
  exists i. repeat split; assumption.
Defined.

(** Alice's dashboard: her laptop with one open report. *)
Lemma dashboard_spec_witness :
  logged_in (Some Sample.alice) Sample.alice
  /\ get_dashboard Sample.uuid_in Stand_in.toLowerCase Stand_in.newest_items
       Stand_in.newest_reports Stand_in.String_of_query Sample.store0
       (Some Sample.alice) (Sample.form [])
     = dashboard [(Sample.laptop, Some 1)]
         [(Sample.report, str (lit "Laptop"))] [] (str []) (str [])
  /\ forall i n, In (i, n) [(Sample.laptop, Some 1)] ->
       In i (items Sample.store0).
Proof.
  assert (Hs : logged_in (Some Sample.alice) Sample.alice)
    by (apply sample_logged_in; reflexivity).
  split; [exact Hs|]. split; [reflexivity|].
  destruct (dashboard_spec Sample.uuid_in Stand_in.toLowerCase
              Stand_in.newest_items Stand_in.newest_reports
              Stand_in.String_of_query Sample.store0 (Some Sample.alice)
              Sample.alice (Sample.form [])
              [(Sample.laptop, Some 1)] [(Sample.report, str (lit "Laptop"))]
              [] (str []) (str [])
              stand_in_newest_items stand_in_newest_reports Hs eq_refl)
    as [Hshown _].
  intros i n Hin. exact (proj1 (Hshown i n Hin)).
Defined.

(** A finder posts a wallet: the board lists it. *)
Lemma posted_item_is_listed_witness :
  (forall l, Permutation (Stand_in.newest_posts l) l)
  /\ exists row,
       found_posts
         (store
            (post_found_items Sample.sharp_jpeg Sample.getPublicUrl Sample.world
               Sample.store0
               (Sample.form [("finder_name", "Di"); ("finder_email", "di@x.com");
                             ("item_name", "Wallet")]%string) None))
       = found_posts Sample.store0 ++ [row]
       /\ Post.status row = lit "unclaimed".
Proof.
  split; [exact stand_in_newest_posts|].
  destruct (posted_item_is_listed Sample.sharp_jpeg Sample.getPublicUrl
              Stand_in.toLowerCase Stand_in.newest_posts Stand_in.String_of_query
              Sample.world Sample.store0
              (store
                 (post_found_items Sample.sharp_jpeg Sample.getPublicUrl
                    Sample.world Sample.store0
                    (Sample.form [("finder_name", "Di");
                                  ("finder_email", "di@x.com");
                                  ("item_name", "Wallet")]%string) None))
              (Sample.form [("finder_name", "Di"); ("finder_email", "di@x.com");
                            ("item_name", "Wallet")]%string) None
              stand_in_newest_posts eq_refl)
    as [row [Hposts [_ [Hst _]]]].
  exists row. split; assumption.
Defined.

(** Bo reports the laptop through its QR page: Alice's dashboard shows
    the report. *)
Lemma report_reaches_owner_witness :
  logged_in (Some Sample.alice) Sample.alice
  /\ exists row,
       finder_reports
         (store
            (post_found_token Sample.world Sample.store0 (Item.token Sample.laptop)
               (Sample.form [("finder_name", "Bo"); ("finder_email", "bo@x.com");
                             ("message", "found it")]%string)))
       = finder_reports Sample.store0 ++ [row]
       /\ Report.item_id row = Item.id Sample.laptop.
Proof.
  assert (Hs : logged_in (Some Sample.alice) Sample.alice)
    by (apply sample_logged_in; reflexivity).
  split; [exact Hs|].
  destruct (report_reaches_owner Sample.uuid_in Stand_in.toLowerCase
              Stand_in.newest_items Stand_in.newest_reports
              Stand_in.String_of_query Sample.world Sample.store0
              (store
                 (post_found_token Sample.world Sample.store0
                    (Item.token Sample.laptop)
                    (Sample.form [("finder_name", "Bo");
                                  ("finder_email", "bo@x.com");
                                  ("message", "found it")]%string)))
              (Item.token Sample.laptop)
              (Sample.form [("finder_name", "Bo"); ("finder_email", "bo@x.com");
                            ("message", "found it")]%string)
              (Some Sample.alice) Sample.alice Sample.laptop
              stand_in_newest_items stand_in_newest_reports Hs
              eq_refl eq_refl eq_refl eq_refl)
    as [row [Hrep [_ [Hid _]]]].
  exists row. split; assumption.
Defined.

(** Alice marks her laptop as recovered: it leaves the lost board. *)
Lemma lost_board_follows_status_witness :
  logged_in (Some Sample.alice) Sample.alice
  /\ get_lost Stand_in.toLowerCase Stand_in.newest_items Stand_in.String_of_query
       (store (post_item_status Sample.uuid_in Sample.store0 (Some Sample.alice)
                 (Item.id Sample.laptop)
                 (Sample.form [("item_status", "recovered")%string])))
       (Sample.form [])
     = rendered [] [] (str [])
  /\ ~ In (Item.id Sample.laptop) (map Lost.id []).
Proof.
  assert (Hs : logged_in (Some Sample.alice) Sample.alice)
    by (apply sample_logged_in; reflexivity).
  split; [exact Hs|]. split; [reflexivity|].
  destruct (lost_board_follows_status Sample.uuid_in Stand_in.toLowerCase
              Stand_in.newest_items Stand_in.String_of_query Sample.store0
              (Some Sample.alice) Sample.alice (Item.id Sample.laptop)
              Sample.laptop (lit "recovered")
              (Sample.form [("item_status", "recovered")%string])
              (Sample.form []) [] [] (str [])
              stand_in_newest_items Hs sample_unique_items (or_introl eq_refl)
              eq_refl eq_refl eq_refl
              (or_intror (or_intror (or_introl eq_refl))) eq_refl)
    as [Hoff _].
  apply Hoff. vm_compute. discriminate.
Defined.


(** ** The scenarios of the specification, run on the sample store *)

Example sanitize_trims : sanitize (str (lit "  Bo ")) = Ok (lit "Bo").
Proof. reflexivity. Qed.

Example sanitize_array_throws : sanitize structured = Throw.
Proof. reflexivity. Qed.

Example isValidEmail_accepts : isValidEmail (lit "bo@x.com") = true.
Proof. reflexivity. Qed.

Example isValidEmail_rejects :
  map isValidEmail [lit "bo.x.com"; lit "bo@x"; lit "bo@.com"; lit "b o@x.com";
                    lit "@x.com"; lit "bo@x."; lit "a@b@c.d"]
  = [false; false; false; false; false; false; false].
Proof. reflexivity. Qed.

Example generateToken_sample :
  generateToken Sample.bytes16 = lit "00112233445566778899aabbccddeeff".
Proof. reflexivity. Qed.

(** A finder scans the QR code of the laptop and reports it. *)
Example scenario_finder_report :
  finder_reports
    (store (post_found_token Sample.world Sample.store0 (Item.token Sample.laptop)
              (Sample.form [("finder_name", "Bo"); ("finder_email", "bo@x.com");
                            ("message", "saw it")]%string)))
  = [Sample.report;
     {| Report.id := 2;
        Report.item_id := Item.id Sample.laptop;
        Report.finder_name := lit "Bo";
        Report.finder_email := lit "bo@x.com";
        Report.location_hint := None;
        Report.message := lit "saw it";
        Report.status := lit "open" |}].
Proof. reflexivity. Qed.

(** A prefix of the token reaches nothing. *)
Example scenario_token_prefix :
  res (get_found_token Sample.store0 (lit "00112233445566778899aabbccddee"))
  = render 404 (lit "not_found").
Proof. reflexivity. Qed.

(** Alice resolves the report on her laptop. *)
Example scenario_owner_resolves :
  map Report.status
    (finder_reports
       (store (post_report_resolve Sample.store0 (Some Sample.alice) (int 1))))
  = [lit "resolved"].
Proof. reflexivity. Qed.

(** A sighting of the lost laptop. *)
Example scenario_sighting :
  map Report.message
    (finder_reports
       (store (post_lost_sighting Sample.uuid_in Sample.world Sample.store0
                 (Item.id Sample.laptop)
                 (Sample.form [("reporter_name", "Bo");
                               ("reporter_email", "bo@x.com");
                               ("message", "near the gym")]%string))))
  = [lit "saw it"; lit "[Sighting] near the gym"].
Proof. reflexivity. Qed.

(** An array in a form field is caught by the handler: no report, and no
    404 either. *)
Example scenario_array_field :
  post_found_token Sample.world Sample.store0 (lit "unknown")
    (fun name => structured)
  = flash_redirect' Sample.store0 "error" (lit "Something went wrong.")
      (lit "/found/unknown").
Proof. reflexivity. Qed.
